(** * The replica proposal and applied-result pipeline

    A shallow embedding of [pkg/storage/replica_proposal.go]: the completion
    of a proposal, the checksum scheduler, lease installation, the SSTable
    pre-apply step, the two result appliers and the proposal builder.

    Go values are embedded as follows.
    - [int64] and [uint64] are [Z] with the wrap-around written out
      ([add64], [sub64], [succU64]).
    - A pointer field is an [option]; [nil] is [None].
    - A struct is a [Record]; assignments to a field are the [set_*]
      functions next to the record.
    - [log.Fatalf] ends the process: a run is an [Outcome], and the calls a
      function makes on its collaborators are recorded in a trace.
    - The mutexes are not modelled: every function below runs on the
      goroutine that holds [raftMu], one call at a time. *)

From Stdlib Require Import ZArith String List Bool Lia HexadecimalString.
From stdpp Require Import base option list gmap strings.

Local Open Scope string_scope.
Local Open Scope Z_scope.

(** ** Machine integers *)

Definition wrap64 (z : Z) : Z := (z + 2 ^ 63) mod 2 ^ 64 - 2 ^ 63.
Definition add64 (a b : Z) : Z := wrap64 (a + b).
Definition sub64 (a b : Z) : Z := wrap64 (a - b).
Definition succU64 (a : Z) : Z := (a + 1) mod 2 ^ 64.
Definition int64 (z : Z) : Prop := - 2 ^ 63 <= z < 2 ^ 63.

(** A [[]byte]. *)
Definition bytes : Type := list Byte.byte.

(** A [uuid.UUID] is sixteen bytes, read here as one number. *)
Definition UUID : Type := N.

(** [p == nil] for a pointer. *)
Definition isNil {A : Type} (o : option A) : bool :=
  match o with None => true | Some _ => false end.

(** A channel is known by its identity only. *)
Definition Chan : Type := nat.

(** A [time.Time] is an instant, counted in nanoseconds from Go's zero
    time; [IsZero] and [After] are the methods of package [time]. *)
Module time.
Definition Time : Type := Z.
Definition zero : Time := 0.
Definition IsZero (t : Time) : bool := t =? 0.
Definition After (t u : Time) : bool := u <? t.
End time.

Module hlc.
Record Timestamp : Type := mkTimestamp { WallTime : Z; Logical : Z }.
Definition zero : Timestamp := mkTimestamp 0 0.
Definition eqb (a b : Timestamp) : bool :=
  (WallTime a =? WallTime b) && (Logical a =? Logical b).
Definition isZero (a : Timestamp) : bool := eqb a zero.
End hlc.

(** ** The messages of the other packages

    Only the fields that [replica_proposal.go] reads or writes are kept. *)

Module enginepb.
(** Modelled from the spec: package [enginepb] is not part of the sources.
    The statistics are a vector of [int64] counters with an estimate flag;
    a delta has the same counters and is added counter by counter. *)
Record MVCCStats : Type := mkStats {
  ContainsEstimates : bool;
  LiveBytes : Z;
  KeyBytes : Z;
  ValBytes : Z;
  SysBytes : Z
}.
Definition zeroStats : MVCCStats := mkStats false 0 0 0 0.
Definition isZeroStats (ms : MVCCStats) : bool :=
  negb (ContainsEstimates ms) && (LiveBytes ms =? 0) && (KeyBytes ms =? 0)
  && (ValBytes ms =? 0) && (SysBytes ms =? 0).
Record MVCCStatsDelta : Type := mkDelta {
  dContainsEstimates : bool;
  dLiveBytes : Z;
  dKeyBytes : Z;
  dValBytes : Z;
  dSysBytes : Z
}.
Definition zeroDelta : MVCCStatsDelta := mkDelta false 0 0 0 0.
Definition isZeroDelta (d : MVCCStatsDelta) : bool :=
  negb (dContainsEstimates d) && (dLiveBytes d =? 0) && (dKeyBytes d =? 0)
  && (dValBytes d =? 0) && (dSysBytes d =? 0).
Definition ToStats (d : MVCCStatsDelta) : MVCCStats :=
  mkStats (dContainsEstimates d) (dLiveBytes d) (dKeyBytes d) (dValBytes d) (dSysBytes d).
Definition ToStatsDelta (ms : MVCCStats) : MVCCStatsDelta :=
  mkDelta (ContainsEstimates ms) (LiveBytes ms) (KeyBytes ms) (ValBytes ms) (SysBytes ms).
Definition Add (ms oms : MVCCStats) : MVCCStats :=
  mkStats (ContainsEstimates ms || ContainsEstimates oms)
          (add64 (LiveBytes ms) (LiveBytes oms))
          (add64 (KeyBytes ms) (KeyBytes oms))
          (add64 (ValBytes ms) (ValBytes oms))
          (add64 (SysBytes ms) (SysBytes oms)).
Record SuggestedCompaction : Type := mkSuggestedCompaction {
  scStartKey : bytes;
  scEndKey : bytes;
  scBytes : Z
}.
End enginepb.

Module roachpb.
Record Span : Type := mkSpan { Key : bytes; EndKey : bytes }.
Record Transaction : Type := mkTransaction { TxnID : UUID }.
Record BatchResponse : Type := mkBatchResponse { Responses : list bytes }.
Record Error : Type := mkError { Message : string; ErrTxn : option Transaction }.
Definition GetTxn (e : Error) : option Transaction := ErrTxn e.
Record BatchRequest : Type := mkBatchRequest {
  baTimestamp : hlc.Timestamp;
  baTxn : option Transaction;
  baIsLeaseRequest : bool
}.
Record ReplicaDescriptor : Type := mkReplicaDescriptor {
  NodeID : Z;
  StoreID : Z;
  ReplicaID : Z
}.
Record RangeDescriptor : Type := mkRangeDescriptor {
  RangeID : Z;
  StartKey : bytes;
  DescEndKey : bytes
}.
Inductive ReplicaChangeType : Type := ADD_REPLICA | REMOVE_REPLICA.
Inductive LeaseType : Type := LeaseExpiration | LeaseEpoch.
Record SplitTrigger : Type := mkSplitTrigger {
  LeftDesc : RangeDescriptor;
  RightDesc : RangeDescriptor
}.
Module Lease.
Record t : Type := mk {
  Start : hlc.Timestamp;
  Expiration : option hlc.Timestamp;
  Replica : ReplicaDescriptor;
  Epoch : Z;
  Sequence : Z
}.
(** [Lease.Type] and [Lease.OwnedBy] of package [roachpb]. *)
Definition Type_ (l : t) : LeaseType :=
  if Epoch l =? 0 then LeaseExpiration else LeaseEpoch.
Definition OwnedBy (l : t) (storeID : Z) : bool := StoreID (Replica l) =? storeID.
End Lease.
End roachpb.

Module storagepb.
Record RaftTruncatedState : Type := mkRaftTruncatedState { Index : Z; Term : Z }.
Module ReplicaState.
Record t : Type := mk {
  RaftAppliedIndex : Z;
  LeaseAppliedIndex : Z;
  Desc : option roachpb.RangeDescriptor;
  Lease : option roachpb.Lease.t;
  TruncatedState : option RaftTruncatedState;
  GCThreshold : option hlc.Timestamp;
  Stats : option enginepb.MVCCStats;
  TxnSpanGCThreshold : option hlc.Timestamp;
  UsingAppliedStateKey : bool
}.
Definition zero : t :=
  mk 0 0 None None None None None None false.
Definition set_RaftAppliedIndex (v : Z) (r : t) : t :=
  mk v (LeaseAppliedIndex r) (Desc r) (Lease r) (TruncatedState r) (GCThreshold r) (Stats r) (TxnSpanGCThreshold r) (UsingAppliedStateKey r).
Definition set_LeaseAppliedIndex (v : Z) (r : t) : t :=
  mk (RaftAppliedIndex r) v (Desc r) (Lease r) (TruncatedState r) (GCThreshold r) (Stats r) (TxnSpanGCThreshold r) (UsingAppliedStateKey r).
Definition set_Desc (v : option roachpb.RangeDescriptor) (r : t) : t :=
  mk (RaftAppliedIndex r) (LeaseAppliedIndex r) v (Lease r) (TruncatedState r) (GCThreshold r) (Stats r) (TxnSpanGCThreshold r) (UsingAppliedStateKey r).
Definition set_Lease (v : option roachpb.Lease.t) (r : t) : t :=
  mk (RaftAppliedIndex r) (LeaseAppliedIndex r) (Desc r) v (TruncatedState r) (GCThreshold r) (Stats r) (TxnSpanGCThreshold r) (UsingAppliedStateKey r).
Definition set_TruncatedState (v : option RaftTruncatedState) (r : t) : t :=
  mk (RaftAppliedIndex r) (LeaseAppliedIndex r) (Desc r) (Lease r) v (GCThreshold r) (Stats r) (TxnSpanGCThreshold r) (UsingAppliedStateKey r).
Definition set_GCThreshold (v : option hlc.Timestamp) (r : t) : t :=
  mk (RaftAppliedIndex r) (LeaseAppliedIndex r) (Desc r) (Lease r) (TruncatedState r) v (Stats r) (TxnSpanGCThreshold r) (UsingAppliedStateKey r).
Definition set_Stats (v : option enginepb.MVCCStats) (r : t) : t :=
  mk (RaftAppliedIndex r) (LeaseAppliedIndex r) (Desc r) (Lease r) (TruncatedState r) (GCThreshold r) v (TxnSpanGCThreshold r) (UsingAppliedStateKey r).
Definition set_TxnSpanGCThreshold (v : option hlc.Timestamp) (r : t) : t :=
  mk (RaftAppliedIndex r) (LeaseAppliedIndex r) (Desc r) (Lease r) (TruncatedState r) (GCThreshold r) (Stats r) v (UsingAppliedStateKey r).
Definition set_UsingAppliedStateKey (v : bool) (r : t) : t :=
  mk (RaftAppliedIndex r) (LeaseAppliedIndex r) (Desc r) (Lease r) (TruncatedState r) (GCThreshold r) (Stats r) (TxnSpanGCThreshold r) v.
(** [*state == storagepb.ReplicaState{}]: Go compares the struct field by
    field, a pointer field with [nil]. *)
Definition isZero (s : t) : bool :=
  (RaftAppliedIndex s =? 0) && (LeaseAppliedIndex s =? 0)
  && isNil (Desc s) && isNil (Lease s) && isNil (TruncatedState s)
  && isNil (GCThreshold s) && isNil (Stats s) && isNil (TxnSpanGCThreshold s)
  && negb (UsingAppliedStateKey s).
End ReplicaState.
Record Split : Type := mkSplit {
  SplitTrigger : roachpb.SplitTrigger;
  RHSDelta : enginepb.MVCCStats
}.
Record Merge : Type := mkMerge {
  LeftDesc : roachpb.RangeDescriptor;
  RightDesc : roachpb.RangeDescriptor;
  FreezeStart : hlc.Timestamp
}.
Record ChangeReplicas : Type := mkChangeReplicas {
  ChangeType : roachpb.ReplicaChangeType;
  Replica : roachpb.ReplicaDescriptor
}.
Record ComputeChecksum : Type := mkComputeChecksum {
  ChecksumID : UUID;
  Version : Z;
  SaveSnapshot : bool;
  Mode : Z;
  Checkpoint : bool
}.
Record AddSSTable : Type := mkAddSSTable { Data : bytes; CRC32 : Z }.
Module ReplicatedEvalResult.
Record t : Type := mk {
  BlockReads : bool;
  State : option ReplicaState.t;
  Split : option storagepb.Split;
  Merge : option storagepb.Merge;
  ComputeChecksum : option storagepb.ComputeChecksum;
  IsLeaseRequest : bool;
  Timestamp : hlc.Timestamp;
  DeprecatedDelta : option enginepb.MVCCStats;
  Delta : enginepb.MVCCStatsDelta;
  ChangeReplicas : option storagepb.ChangeReplicas;
  RaftLogDelta : Z;
  AddSSTable : option storagepb.AddSSTable;
  SuggestedCompactions : list enginepb.SuggestedCompaction;
  PrevLeaseProposal : option hlc.Timestamp
}.
Definition zero : t :=
  mk false None None None None false hlc.zero None enginepb.zeroDelta None 0 None [] None.
Definition set_BlockReads (v : bool) (r : t) : t :=
  mk v (State r) (Split r) (Merge r) (ComputeChecksum r) (IsLeaseRequest r) (Timestamp r) (DeprecatedDelta r) (Delta r) (ChangeReplicas r) (RaftLogDelta r) (AddSSTable r) (SuggestedCompactions r) (PrevLeaseProposal r).
Definition set_State (v : option ReplicaState.t) (r : t) : t :=
  mk (BlockReads r) v (Split r) (Merge r) (ComputeChecksum r) (IsLeaseRequest r) (Timestamp r) (DeprecatedDelta r) (Delta r) (ChangeReplicas r) (RaftLogDelta r) (AddSSTable r) (SuggestedCompactions r) (PrevLeaseProposal r).
Definition set_Split (v : option storagepb.Split) (r : t) : t :=
  mk (BlockReads r) (State r) v (Merge r) (ComputeChecksum r) (IsLeaseRequest r) (Timestamp r) (DeprecatedDelta r) (Delta r) (ChangeReplicas r) (RaftLogDelta r) (AddSSTable r) (SuggestedCompactions r) (PrevLeaseProposal r).
Definition set_Merge (v : option storagepb.Merge) (r : t) : t :=
  mk (BlockReads r) (State r) (Split r) v (ComputeChecksum r) (IsLeaseRequest r) (Timestamp r) (DeprecatedDelta r) (Delta r) (ChangeReplicas r) (RaftLogDelta r) (AddSSTable r) (SuggestedCompactions r) (PrevLeaseProposal r).
Definition set_ComputeChecksum (v : option storagepb.ComputeChecksum) (r : t) : t :=
  mk (BlockReads r) (State r) (Split r) (Merge r) v (IsLeaseRequest r) (Timestamp r) (DeprecatedDelta r) (Delta r) (ChangeReplicas r) (RaftLogDelta r) (AddSSTable r) (SuggestedCompactions r) (PrevLeaseProposal r).
Definition set_IsLeaseRequest (v : bool) (r : t) : t :=
  mk (BlockReads r) (State r) (Split r) (Merge r) (ComputeChecksum r) v (Timestamp r) (DeprecatedDelta r) (Delta r) (ChangeReplicas r) (RaftLogDelta r) (AddSSTable r) (SuggestedCompactions r) (PrevLeaseProposal r).
Definition set_Timestamp (v : hlc.Timestamp) (r : t) : t :=
  mk (BlockReads r) (State r) (Split r) (Merge r) (ComputeChecksum r) (IsLeaseRequest r) v (DeprecatedDelta r) (Delta r) (ChangeReplicas r) (RaftLogDelta r) (AddSSTable r) (SuggestedCompactions r) (PrevLeaseProposal r).
Definition set_DeprecatedDelta (v : option enginepb.MVCCStats) (r : t) : t :=
  mk (BlockReads r) (State r) (Split r) (Merge r) (ComputeChecksum r) (IsLeaseRequest r) (Timestamp r) v (Delta r) (ChangeReplicas r) (RaftLogDelta r) (AddSSTable r) (SuggestedCompactions r) (PrevLeaseProposal r).
Definition set_Delta (v : enginepb.MVCCStatsDelta) (r : t) : t :=
  mk (BlockReads r) (State r) (Split r) (Merge r) (ComputeChecksum r) (IsLeaseRequest r) (Timestamp r) (DeprecatedDelta r) v (ChangeReplicas r) (RaftLogDelta r) (AddSSTable r) (SuggestedCompactions r) (PrevLeaseProposal r).
Definition set_ChangeReplicas (v : option storagepb.ChangeReplicas) (r : t) : t :=
  mk (BlockReads r) (State r) (Split r) (Merge r) (ComputeChecksum r) (IsLeaseRequest r) (Timestamp r) (DeprecatedDelta r) (Delta r) v (RaftLogDelta r) (AddSSTable r) (SuggestedCompactions r) (PrevLeaseProposal r).
Definition set_RaftLogDelta (v : Z) (r : t) : t :=
  mk (BlockReads r) (State r) (Split r) (Merge r) (ComputeChecksum r) (IsLeaseRequest r) (Timestamp r) (DeprecatedDelta r) (Delta r) (ChangeReplicas r) v (AddSSTable r) (SuggestedCompactions r) (PrevLeaseProposal r).
Definition set_AddSSTable (v : option storagepb.AddSSTable) (r : t) : t :=
  mk (BlockReads r) (State r) (Split r) (Merge r) (ComputeChecksum r) (IsLeaseRequest r) (Timestamp r) (DeprecatedDelta r) (Delta r) (ChangeReplicas r) (RaftLogDelta r) v (SuggestedCompactions r) (PrevLeaseProposal r).
Definition set_SuggestedCompactions (v : list enginepb.SuggestedCompaction) (r : t) : t :=
  mk (BlockReads r) (State r) (Split r) (Merge r) (ComputeChecksum r) (IsLeaseRequest r) (Timestamp r) (DeprecatedDelta r) (Delta r) (ChangeReplicas r) (RaftLogDelta r) (AddSSTable r) v (PrevLeaseProposal r).
Definition set_PrevLeaseProposal (v : option hlc.Timestamp) (r : t) : t :=
  mk (BlockReads r) (State r) (Split r) (Merge r) (ComputeChecksum r) (IsLeaseRequest r) (Timestamp r) (DeprecatedDelta r) (Delta r) (ChangeReplicas r) (RaftLogDelta r) (AddSSTable r) (SuggestedCompactions r) v.
(** [r.Equal(storagepb.ReplicatedEvalResult{})], the generated [Equal] at
    the only argument this file passes: a message field equals [nil] only
    when it is [nil], a repeated field when it is empty. *)
Definition EqualZero (r : t) : bool :=
  negb (BlockReads r) && isNil (State r) && isNil (Split r) && isNil (Merge r)
  && isNil (ComputeChecksum r) && negb (IsLeaseRequest r)
  && hlc.isZero (Timestamp r) && isNil (DeprecatedDelta r)
  && enginepb.isZeroDelta (Delta r) && isNil (ChangeReplicas r)
  && (RaftLogDelta r =? 0) && isNil (AddSSTable r)
  && match SuggestedCompactions r with [] => true | _ => false end
  && isNil (PrevLeaseProposal r).
(** [r.Reset()]. *)
Definition Reset (r : t) : t := zero.
End ReplicatedEvalResult.
Record WriteBatch : Type := mkWriteBatch { wbData : bytes }.
Record LogicalOpLog : Type := mkLogicalOpLog { Ops : list bytes }.
Module RaftCommand.
Record t : Type := mk {
  ReplicatedEvalResult : storagepb.ReplicatedEvalResult.t;
  WriteBatch : option storagepb.WriteBatch;
  LogicalOpLog : option storagepb.LogicalOpLog
}.
End RaftCommand.
End storagepb.

Module result.
Record IntentsWithArg : Type := mkIntentsWithArg { Arg : bytes; Intents : list roachpb.Span }.
Record EndTxnIntents : Type := mkEndTxnIntents { Txn : roachpb.Transaction; Always : bool }.
Record Metrics : Type := mkMetrics {
  LeaseRequestSuccess : Z;
  LeaseRequestError : Z;
  ResolveCommit : Z;
  ResolveAbort : Z
}.
Module LocalResult.
Record t : Type := mk {
  Reply : option roachpb.BatchResponse;
  Intents : option (list result.IntentsWithArg);
  EndTxns : option (list result.EndTxnIntents);
  Metrics : option result.Metrics;
  GossipFirstRange : bool;
  MaybeGossipSystemConfig : bool;
  MaybeAddToSplitQueue : bool;
  MaybeGossipNodeLiveness : option roachpb.Span;
  UpdatedTxns : option (list roachpb.Transaction)
}.
Definition zero : t :=
  mk None None None None false false false None None.
Definition set_Reply (v : option roachpb.BatchResponse) (r : t) : t :=
  mk v (Intents r) (EndTxns r) (Metrics r) (GossipFirstRange r) (MaybeGossipSystemConfig r) (MaybeAddToSplitQueue r) (MaybeGossipNodeLiveness r) (UpdatedTxns r).
Definition set_Intents (v : option (list result.IntentsWithArg)) (r : t) : t :=
  mk (Reply r) v (EndTxns r) (Metrics r) (GossipFirstRange r) (MaybeGossipSystemConfig r) (MaybeAddToSplitQueue r) (MaybeGossipNodeLiveness r) (UpdatedTxns r).
Definition set_EndTxns (v : option (list result.EndTxnIntents)) (r : t) : t :=
  mk (Reply r) (Intents r) v (Metrics r) (GossipFirstRange r) (MaybeGossipSystemConfig r) (MaybeAddToSplitQueue r) (MaybeGossipNodeLiveness r) (UpdatedTxns r).
Definition set_Metrics (v : option result.Metrics) (r : t) : t :=
  mk (Reply r) (Intents r) (EndTxns r) v (GossipFirstRange r) (MaybeGossipSystemConfig r) (MaybeAddToSplitQueue r) (MaybeGossipNodeLiveness r) (UpdatedTxns r).
Definition set_GossipFirstRange (v : bool) (r : t) : t :=
  mk (Reply r) (Intents r) (EndTxns r) (Metrics r) v (MaybeGossipSystemConfig r) (MaybeAddToSplitQueue r) (MaybeGossipNodeLiveness r) (UpdatedTxns r).
Definition set_MaybeGossipSystemConfig (v : bool) (r : t) : t :=
  mk (Reply r) (Intents r) (EndTxns r) (Metrics r) (GossipFirstRange r) v (MaybeAddToSplitQueue r) (MaybeGossipNodeLiveness r) (UpdatedTxns r).
Definition set_MaybeAddToSplitQueue (v : bool) (r : t) : t :=
  mk (Reply r) (Intents r) (EndTxns r) (Metrics r) (GossipFirstRange r) (MaybeGossipSystemConfig r) v (MaybeGossipNodeLiveness r) (UpdatedTxns r).
Definition set_MaybeGossipNodeLiveness (v : option roachpb.Span) (r : t) : t :=
  mk (Reply r) (Intents r) (EndTxns r) (Metrics r) (GossipFirstRange r) (MaybeGossipSystemConfig r) (MaybeAddToSplitQueue r) v (UpdatedTxns r).
Definition set_UpdatedTxns (v : option (list roachpb.Transaction)) (r : t) : t :=
  mk (Reply r) (Intents r) (EndTxns r) (Metrics r) (GossipFirstRange r) (MaybeGossipSystemConfig r) (MaybeAddToSplitQueue r) (MaybeGossipNodeLiveness r) v.
(** [lResult == result.LocalResult{}]. *)
Definition isZero (l : t) : bool :=
  isNil (Reply l) && isNil (Intents l) && isNil (EndTxns l) && isNil (Metrics l)
  && negb (GossipFirstRange l) && negb (MaybeGossipSystemConfig l)
  && negb (MaybeAddToSplitQueue l) && isNil (MaybeGossipNodeLiveness l)
  && isNil (UpdatedTxns l).
End LocalResult.

(** Modelled from the spec: [DetachIntents] and [DetachEndTxns] of package
    [result] are not part of the sources.  Detaching returns the list behind
    the field ([nil] when the field is unset) and clears the field;
    [alwaysOnly] keeps the ended transactions whose intents are resolved
    whatever the outcome of the command. *)
Definition DetachIntents (l : LocalResult.t) : list IntentsWithArg * LocalResult.t :=
  (default [] (LocalResult.Intents l), LocalResult.set_Intents None l).
Definition DetachEndTxns (alwaysOnly : bool) (l : LocalResult.t)
  : list EndTxnIntents * LocalResult.t :=
  let r := default [] (LocalResult.EndTxns l) in
  (if alwaysOnly then filter (λ eti, Always eti = true) r else r,
   LocalResult.set_EndTxns None l).

Module Result.
Record t : Type := mk {
  Local : LocalResult.t;
  Replicated : storagepb.ReplicatedEvalResult.t;
  WriteBatch : option storagepb.WriteBatch;
  LogicalOpLog : option storagepb.LogicalOpLog
}.
End Result.
End result.

(** ** Proposals *)

(** [proposalResult]: exactly one of [Reply] and [Err] is set. *)
Record proposalResult : Type := mkProposalResult {
  Reply : option roachpb.BatchResponse;
  Err : option roachpb.Error;
  Intents : list result.IntentsWithArg;
  EndTxns : list result.EndTxnIntents
}.

(** The latch-release hook and the tracing span are known by identity. *)
Definition endCmdsT : Type := Z.
Definition Span : Type := Z.

Module ProposalData.
Record t : Type := mk {
  sp : option Span;
  idKey : string;
  proposedAtTicks : Z;
  command : option storagepb.RaftCommand.t;
  endCmds : option endCmdsT;
  doneCh : option Chan;
  Local : option result.LocalResult.t;
  Request : option roachpb.BatchRequest
}.
Definition set_endCmds (v : option endCmdsT) (p : t) : t :=
  mk (sp p) (idKey p) (proposedAtTicks p) (command p) v (doneCh p) (Local p) (Request p).
Definition set_doneCh (v : option Chan) (p : t) : t :=
  mk (sp p) (idKey p) (proposedAtTicks p) (command p) (endCmds p) v (Local p) (Request p).
End ProposalData.

(** ** The replica, its collaborators and the runs *)

(** [ReplicaChecksum]: an entry of the checksum map. *)
Record ReplicaChecksum : Type := mkReplicaChecksum {
  started : bool;
  notify : option Chan;
  checksum : option bytes;
  gcTimestamp : time.Time
}.

(** The fields of [Replica.mu] that this file reads or writes. *)
Module ReplicaMu.
Record t : Type := mk {
  replicaID : Z;
  checksums : gmap UUID ReplicaChecksum;
  state : storagepb.ReplicaState.t;
  raftLogSize : Z;
  raftLogLastCheckSize : Z
}.
Definition set_checksums (v : gmap UUID ReplicaChecksum) (m : t) : t :=
  mk (replicaID m) v (state m) (raftLogSize m) (raftLogLastCheckSize m).
Definition set_state (v : storagepb.ReplicaState.t) (m : t) : t :=
  mk (replicaID m) (checksums m) v (raftLogSize m) (raftLogLastCheckSize m).
Definition set_raftLogSize (v : Z) (m : t) : t :=
  mk (replicaID m) (checksums m) (state m) v (raftLogLastCheckSize m).
Definition set_raftLogLastCheckSize (v : Z) (m : t) : t :=
  mk (replicaID m) (checksums m) (state m) (raftLogSize m) v.
End ReplicaMu.

Inductive CapacityChangeEvent : Type := leaseAddEvent | leaseRemoveEvent.

(** A call on a collaborator, as it appears in the trace of a run. *)
Inductive Event : Type :=
| EvEndCmdsDone (hook : endCmdsT) (reply : option roachpb.BatchResponse) (err : option roachpb.Error)
| EvFinishSpan (s : Span)
| EvSend (ch : Chan) (pr : proposalResult)
| EvComputeChecksumDone (id : UUID)
| EvNewSnapshot
| EvSnapClose
| EvCreateCheckpoint (rangeID appliedIndex : Z)
| EvRunAsyncChecksum (id : UUID) (saveSnapshot : bool) (mode : Z)
| EvMaybeWatchForMerge
| EvSetTimestampCacheLowWaterMark (start : hlc.Timestamp)
| EvResetRequestCounts
| EvGossipFirstRange
| EvRenewableLeasesStore (rangeID : Z)
| EvRenewableLeasesSignal
| EvTxnWaitQueueClear (disable : bool)
| EvTxnWaitQueueEnable
| EvTxnWaitQueueUpdateTxn (txn : roachpb.Transaction)
| EvMaybeTransferRaftLeadership
| EvMaybeGossipOnCapacityChange (e : CapacityChangeEvent)
| EvMaybeGossipSystemConfig
| EvMaybeGossipNodeLiveness (span : roachpb.Span)
| EvEmitMLAI
| EvLeaseHistoryAdd (l : roachpb.Lease.t)
| EvSideloadedFilename (index term : Z)
| EvPreIngestDelay
| EvInMemWriteFile (path : string) (data : bytes)
| EvStatAndLinkCount (path : string)
| EvLinkFile (oldPath newPath : string)
| EvIngestExternalFiles (paths : list string) (skipSeqNo allowModify : bool)
| EvDeleteFile (path : string)
| EvMkdirAll (path : string)
| EvOsStat (path : string)
| EvOsRemove (path : string)
| EvWriteFileSyncing (path : string) (data : bytes)
| EvReadOnlyCmdMuLock
| EvReadOnlyCmdMuUnlock
| EvAddMVCCStats (ms : enginepb.MVCCStats)
| EvSplitQueueMaybeAdd
| EvMergeQueueMaybeAdd
| EvRaftLogQueueMaybeAdd
| EvRaftEntryCacheClear (rangeID index : Z)
| EvSideloadedTruncateTo (index : Z)
| EvCompactorSuggest (sc : enginepb.SuggestedCompaction)
| EvSplitPostApply (s : storagepb.Split)
| EvMergeRange (m : storagepb.Merge)
| EvSetDesc (d : roachpb.RangeDescriptor)
| EvReplicaGCQueueAdd
| EvRunAsyncGossipFirstRange
| EvHandleMetricsResult (m : result.Metrics)
| EvEvaluateWriteBatch (ba : roachpb.BatchRequest)
| EvBatchClose
| EvAssertState.

(** What the replica hands to a run and gets back from it. *)
Record World : Type := mkWorld {
  mu : ReplicaMu.t;
  trace : list Event;
  chans : nat
}.

(** A run ends with a value, or the process ends: [log.Fatalf] or a Go
    panic. *)
Inductive Outcome (A : Type) : Type :=
| Ok (a : A)
| Fatal (msg : string)
| Panic (msg : string).
Arguments Ok {A} a.
Arguments Fatal {A} msg.
Arguments Panic {A} msg.

Definition Exec (A : Type) : Type := World → Outcome (A * World).

#[global] Instance Exec_ret : MRet Exec := λ A a w, Ok (a, w).
#[global] Instance Exec_bind : MBind Exec := λ A B k m w,
  match m w with
  | Ok (a, w') => k a w'
  | Fatal msg => Fatal msg
  | Panic msg => Panic msg
  end.

Definition fatalf {A : Type} (msg : string) : Exec A := λ _, Fatal msg.
Definition panic {A : Type} (msg : string) : Exec A := λ _, Panic msg.
Definition emit (e : Event) : Exec unit :=
  λ w, Ok (tt, mkWorld (mu w) (trace w ++ [e]) (chans w)).
Definition getMu : Exec ReplicaMu.t := λ w, Ok (mu w, w).
Definition modifyMu (f : ReplicaMu.t → ReplicaMu.t) : Exec unit :=
  λ w, Ok (tt, mkWorld (f (mu w)) (trace w) (chans w)).
(** [make(chan struct{})]: a channel that no one holds yet. *)
Definition makeChan : Exec Chan :=
  λ w, Ok (chans w, mkWorld (mu w) (trace w) (S (chans w))).
(** [if c { body }] for a body run for its effects. *)
Definition when (c : bool) (body : Exec unit) : Exec unit :=
  if c then body else mret tt.

(** ** Proposal completion *)

(** [signalProposalResult] sends on [doneCh] unless it was signalled before.
    The channel has capacity one, so the send is recorded and never blocks
    the first time. *)
Definition signalProposalResult (proposal : ProposalData.t) (pr : proposalResult)
  : Exec ProposalData.t :=
  match ProposalData.doneCh proposal with
  | Some ch =>
      emit (EvSend ch pr);;
      mret (ProposalData.set_doneCh None proposal)
  | None => mret proposal
  end.

Definition finishApplication (proposal : ProposalData.t) (pr : proposalResult)
  : Exec ProposalData.t :=
  proposal ← match ProposalData.endCmds proposal with
             | Some ec =>
                 emit (EvEndCmdsDone ec (Reply pr) (Err pr));;
                 mret (ProposalData.set_endCmds None proposal)
             | None => mret proposal
             end;
  match ProposalData.sp proposal with
  | Some s => emit (EvFinishSpan s)
  | None => mret tt
  end;;
  signalProposalResult proposal pr.

(** ** The collaborators

    Everything [replica_proposal.go] calls outside itself: constants and
    pure functions of other packages, and what the store, the engine, the
    clock and the file system answer during one call. *)

Inductive VersionKey : Type :=
| VersionUnreplicatedRaftTruncatedState
| VersionMVCCNetworkStats
| VersionRangeAppliedStateKey.

(** The error of [IngestExternalFiles]: its message, and whether it is an
    [*engine.RocksDBError]. *)
Record IngestError : Type := mkIngestError {
  ErrorMsg : string;
  isRocksDBError : bool
}.

(** The write batch of an evaluation. *)
Record Batch : Type := mkBatch { Empty : bool; Repr : bytes }.

(** What [evaluateWriteBatch] returns. *)
Record Evaluation : Type := mkEvaluation {
  batch : Batch;
  ms : enginepb.MVCCStats;
  br : option roachpb.BatchResponse;
  res : result.Result.t;
  pErr : option roachpb.Error
}.

Record Env : Type := mkEnv {
  (* constants and pure functions of other packages *)
  RaftLogQueueStaleSize : Z;
  ReplicaChecksumVersion : Z;
  ClocklessMaxOffset : Z;
  Equivalent : roachpb.Lease.t → roachpb.Lease.t → bool;
  CRC32 : bytes → Z;
  NodeLivenessSpan : roachpb.Span;
  (* the replica and its store *)
  RangeID : Z;
  StoreID : Z;
  IsFirstRange : bool;
  hasLeaseholderStats : bool;
  hasLeaseHistory : bool;
  hasSplitQueue : bool;
  hasMergeQueue : bool;
  VersionIsActive : VersionKey → bool;
  (* the clocks *)
  timeutil_Now : time.Time;
  MaxOffset : Z;
  (* answers during lease installation *)
  maybeWatchForMerge : option string;
  requiresExpiringLeaseRLocked : bool;
  IsLeaseValid : roachpb.Lease.t → bool;
  (* answers during the application of a replicated result *)
  needsSplitBySizeRLocked : bool;
  needsMergeBySizeRLocked : bool;
  splitQueueThrottle : bool;
  mergeQueueThrottle : bool;
  TruncateTo : Z → Z * option string;
  splitPostApply : storagepb.Split → option string;
  MergeRange : storagepb.Merge → option string;
  (* answers to the checksum scheduler *)
  LoadAppliedIndex : Z;
  RunAsyncTask : option string;
  (* answers to the SSTable pre-apply step *)
  sideloaded_Filename : Z → Z → string * option string;
  engineIsInMem : bool;
  inmem_WriteFile : string → option string;
  StatAndLinkCount : string → option Z;
  LinkFile : string → string → option string;
  IngestExternalFiles : list string → bool → bool → option IngestError;
  DeleteFile : string → option string;
  os_MkdirAll : string → option string;
  os_Stat : string → option string;
  os_Remove : string → option string;
  writeFileSyncing : string → option string;
  filepath_Dir : string → string;
  (* the evaluator *)
  evaluateWriteBatch : roachpb.BatchRequest → Evaluation;
  maybeSetCorrupt : roachpb.Error → roachpb.Error
}.

(** ** The checksum scheduler *)

(** [for id, val := range checksums { if ... { delete(checksums, id) } }]:
    every entry is visited once, and the visit deletes that entry only. *)
Definition gcOldChecksumEntriesLocked (now : time.Time)
  (checksums : gmap UUID ReplicaChecksum) : gmap UUID ReplicaChecksum :=
  map_fold (λ id val m,
              if negb (time.IsZero (gcTimestamp val)) && time.After now (gcTimestamp val)
              then delete id m else m)
           checksums checksums.

(** The part of [computeChecksumPostApply] that runs under [r.mu]: it
    returns the descriptor copied out of the state. *)
Definition computeChecksumPostApply_locked (now : time.Time) (cc : storagepb.ComputeChecksum)
  : Exec roachpb.RangeDescriptor :=
  m ← getMu;
  notify ← match ReplicaMu.checksums m !! storagepb.ChecksumID cc with
           | None => ch ← makeChan; mret (Some ch)
           | Some c =>
               if negb (started c) then mret (notify c)
               else fatalf "attempted to apply ComputeChecksum command with duplicated checksum ID"
           end;
  modifyMu (λ m, ReplicaMu.set_checksums (gcOldChecksumEntriesLocked now (ReplicaMu.checksums m)) m);;
  modifyMu (λ m, ReplicaMu.set_checksums
                   (<[storagepb.ChecksumID cc := mkReplicaChecksum true notify None time.zero]>
                      (ReplicaMu.checksums m)) m);;
  m ← getMu;
  match storagepb.ReplicaState.Desc (ReplicaMu.state m) with
  | Some desc => mret desc
  | None => panic "nil pointer dereference"
  end.

Definition computeChecksumPostApply (env : Env) (cc : storagepb.ComputeChecksum) : Exec unit :=
  let now := timeutil_Now env in
  desc ← computeChecksumPostApply_locked now cc;
  if negb (storagepb.Version cc =? ReplicaChecksumVersion env) then
    emit (EvComputeChecksumDone (storagepb.ChecksumID cc))
  else
    emit EvNewSnapshot;;
    when (storagepb.Checkpoint cc)
      (emit (EvMkdirAll "checkpoints");;
       emit (EvCreateCheckpoint (RangeID env) (LoadAppliedIndex env)));;
    match RunAsyncTask env with
    | None =>
        emit (EvRunAsyncChecksum (storagepb.ChecksumID cc) (storagepb.SaveSnapshot cc)
                                 (storagepb.Mode cc))
    | Some _ =>
        emit (EvComputeChecksumDone (storagepb.ChecksumID cc));;
        emit EvSnapClose
    end.

(** ** Lease installation *)

(** The sanity check on the lease sequence, [s1 := prevLease.Sequence] and
    [s2 := newLease.Sequence]; [s1+1] is an [int64] sum. *)
Definition leaseSequenceCheck (env : Env) (prevLease newLease : roachpb.Lease.t)
  (permitJump : bool) : Exec unit :=
  let s1 := roachpb.Lease.Sequence prevLease in
  let s2 := roachpb.Lease.Sequence newLease in
  if negb (s1 =? 0) then
    if s2 <? s1 then
      fatalf "lease sequence inversion"
    else if s2 =? s1 then
      if negb (Equivalent env prevLease newLease) then
        fatalf "sequence identical for different leases"
      else mret tt
    else if s2 =? add64 s1 1 then
      mret tt
    else if (add64 s1 1 <? s2) && negb permitJump then
      fatalf "lease sequence jump"
    else mret tt
  else mret tt.

(** [r.mu.state.Lease = &newLease]. *)
Definition installLease (newLease : roachpb.Lease.t) : Exec unit :=
  modifyMu (λ m, ReplicaMu.set_state
                   (storagepb.ReplicaState.set_Lease (Some newLease) (ReplicaMu.state m)) m).

(** What [leasePostApply] does before the sequence check when this replica
    takes the lease over from another holder or sequence. *)
Definition leasePostApply_takeover (env : Env) (newLease : roachpb.Lease.t) : Exec unit :=
  emit EvMaybeWatchForMerge;;
  match maybeWatchForMerge env with
  | Some _ => fatalf "failed checking for in-progress merge while installing new lease"
  | None => mret tt
  end;;
  emit (EvSetTimestampCacheLowWaterMark (roachpb.Lease.Start newLease));;
  when (hasLeaseholderStats env) (emit EvResetRequestCounts).

(** What [leasePostApply] does once the new lease is installed. *)
Definition leasePostApply_notify (env : Env) (prevLease newLease : roachpb.Lease.t)
  (leaseChangingHands iAmTheLeaseHolder expirationBasedLease : bool) : Exec unit :=
  when (leaseChangingHands && iAmTheLeaseHolder && IsFirstRange env
        && IsLeaseValid env newLease)
    (emit EvGossipFirstRange);;
  when (leaseChangingHands && iAmTheLeaseHolder && expirationBasedLease
        && IsLeaseValid env newLease)
    (emit (EvRenewableLeasesStore (RangeID env));;
     emit EvRenewableLeasesSignal);;
  when (leaseChangingHands && negb iAmTheLeaseHolder)
    (emit (EvTxnWaitQueueClear true));;
  emit EvMaybeTransferRaftLeadership;;
  let prevOwner := roachpb.Lease.OwnedBy prevLease (StoreID env) in
  let currentOwner := roachpb.Lease.OwnedBy newLease (StoreID env) in
  when (leaseChangingHands && (prevOwner || currentOwner))
    ((if currentOwner then emit (EvMaybeGossipOnCapacityChange leaseAddEvent)
      else if prevOwner then emit (EvMaybeGossipOnCapacityChange leaseRemoveEvent)
      else mret tt);;
     when (hasLeaseholderStats env) (emit EvResetRequestCounts));;
  when iAmTheLeaseHolder
    (emit EvMaybeGossipSystemConfig;;
     emit (EvMaybeGossipNodeLiveness (NodeLivenessSpan env));;
     emit EvTxnWaitQueueEnable;;
     emit EvEmitMLAI);;
  when (hasLeaseHistory env) (emit (EvLeaseHistoryAdd newLease)).

(** [leasePostApply]; the log lines that do not end the process are left
    out. *)
Definition leasePostApply (env : Env) (newLease : roachpb.Lease.t) (permitJump : bool)
  : Exec unit :=
  m ← getMu;
  let replicaID := ReplicaMu.replicaID m in
  prevLease ← match storagepb.ReplicaState.Lease (ReplicaMu.state m) with
              | Some l => mret l
              | None => panic "nil pointer dereference"
              end;
  let iAmTheLeaseHolder :=
    roachpb.ReplicaID (roachpb.Lease.Replica newLease) =? replicaID in
  let leaseChangingHands :=
    negb (roachpb.StoreID (roachpb.Lease.Replica prevLease)
          =? roachpb.StoreID (roachpb.Lease.Replica newLease))
    || negb (roachpb.Lease.Sequence prevLease =? roachpb.Lease.Sequence newLease) in
  when (leaseChangingHands && iAmTheLeaseHolder) (leasePostApply_takeover env newLease);;
  leaseSequenceCheck env prevLease newLease permitJump;;
  installLease newLease;;
  let expirationBasedLease := requiresExpiringLeaseRLocked env in
  leasePostApply_notify env prevLease newLease leaseChangingHands iAmTheLeaseHolder
                        expirationBasedLease.

(** ** SSTable pre-apply *)

(** [fmt.Sprintf("%x", checksum)] for a [uint32]. *)
Definition Sprintf_x (checksum : Z) : string :=
  NilZero.string_of_uint (N.to_hex_uint (Z.to_N checksum)).

(** [strings.Contains]. *)
Fixpoint strings_Contains (s substr : string) : bool :=
  String.prefix substr s
  || match s with
     | EmptyString => false
     | String _ s' => strings_Contains s' substr
     end.

Definition seqNoMsg : string := "Global seqno is required, but disabled".
Definition seqNoOnReIngest : string := "external file have non zero sequence number".
Definition modify : bool := true.
Definition noModify : bool := false.

(** The branch of [addSSTablePreApply] for an engine on disk, up to the
    final ingestion: [inl copied] when it returns on its own, [inr path]
    when a copy was written to [path] and is still to be ingested. *)
Definition addSSTablePreApply_onDisk (env : Env) (index term : Z)
  (sst : storagepb.AddSSTable) (path : string) (canSkipSeqNo : bool)
  : Exec (bool + string) :=
  let ingestPath := (path ++ ".ingested")%string in
  emit (EvStatAndLinkCount path);;
  let canLinkToRaftFile :=
    match StatAndLinkCount env path with
    | Some links => links =? 1
    | None => false
    end in
  linked ←
    (if canLinkToRaftFile then
       emit (EvLinkFile path ingestPath);;
       match LinkFile env path ingestPath with
       | None =>
           emit (EvIngestExternalFiles [ingestPath] canSkipSeqNo noModify);;
           match IngestExternalFiles env [ingestPath] canSkipSeqNo noModify with
           | None => mret true
           | Some ingestErr =>
               emit (EvDeleteFile ingestPath);;
               match DeleteFile env ingestPath with
               | Some _ => fatalf "failed to move ingest sst"
               | None => mret tt
               end;;
               let ingestErrMsg := ErrorMsg ingestErr in
               let isSeqNoErr :=
                 strings_Contains ingestErrMsg seqNoMsg
                 || strings_Contains ingestErrMsg seqNoOnReIngest in
               if negb (isRocksDBError ingestErr) || negb isSeqNoErr then
                 fatalf "while ingesting"
               else mret false
           end
       | Some _ => mret false
       end
     else mret false);
  if (linked : bool) then mret (inl false)
  else
    let path := ingestPath in
    emit (EvMkdirAll (filepath_Dir env path));;
    match os_MkdirAll env (filepath_Dir env path) with
    | Some err => panic err
    | None => mret tt
    end;;
    emit (EvOsStat path);;
    match os_Stat env path with
    | None =>
        emit (EvOsRemove path);;
        match os_Remove env path with
        | Some _ => fatalf "while removing existing file during ingestion"
        | None => mret tt
        end
    | Some _ => mret tt
    end;;
    emit (EvWriteFileSyncing path (storagepb.Data sst));;
    match writeFileSyncing env path with
    | Some _ => fatalf "while ingesting"
    | None => mret tt
    end;;
    mret (inr path).

(** What [addSSTablePreApply] does once the checksum has matched. *)
Definition addSSTablePreApply_ingest (env : Env) (index term : Z)
  (sst : storagepb.AddSSTable) (checksum : Z) : Exec bool :=
  emit (EvSideloadedFilename index term);;
  let '(path, err) := sideloaded_Filename env index term in
  match err with
  | Some _ => fatalf "sideloaded SSTable is missing"
  | None => mret tt
  end;;
  emit EvPreIngestDelay;;
  let canSkipSeqNo := VersionIsActive env VersionUnreplicatedRaftTruncatedState in
  r ← (if engineIsInMem env then
         let path := Sprintf_x checksum in
         emit (EvInMemWriteFile path (storagepb.Data sst));;
         match inmem_WriteFile env path with
         | Some err => panic err
         | None => mret (inr (path, false))
         end
       else
         r ← addSSTablePreApply_onDisk env index term sst path canSkipSeqNo;
         match r with
         | inl copied => mret (inl copied)
         | inr path => mret (inr (path, true))
         end);
  match r with
  | inl copied => mret copied
  | inr (path, copied) =>
      emit (EvIngestExternalFiles [path] canSkipSeqNo modify);;
      match IngestExternalFiles env [path] canSkipSeqNo modify with
      | Some _ => fatalf "while ingesting"
      | None => mret copied
      end
  end.

Definition addSSTablePreApply (env : Env) (index term : Z) (sst : storagepb.AddSSTable)
  : Exec bool :=
  let checksum := CRC32 env (storagepb.Data sst) in
  if negb (checksum =? storagepb.CRC32 sst) then
    fatalf "checksum for AddSSTable does not match"
  else
    addSSTablePreApply_ingest env index term sst checksum.

(** ** The replicated-result applier *)

Abbreviation RER := storagepb.ReplicatedEvalResult.t.
Abbreviation RState := storagepb.ReplicaState.t.

(** [for _, x := range l { body }]. *)
Fixpoint forEach {A : Type} (l : list A) (body : A → Exec unit) : Exec unit :=
  match l with
  | [] => mret tt
  | x :: l' => body x;; forEach l' body
  end.

(** An assignment to a field of [r.mu.state]. *)
Definition modifyState (f : RState → RState) : Exec unit :=
  modifyMu (λ m, ReplicaMu.set_state (f (ReplicaMu.state m)) m).

(** Modelled from the spec: [setDesc] is in another file of the package; it
    installs the new descriptor. *)
Definition setDesc (desc : roachpb.RangeDescriptor) : Exec unit :=
  emit (EvSetDesc desc);;
  modifyState (storagepb.ReplicaState.set_Desc (Some desc)).

(** The fields for which no action is taken. *)
Definition zeroUnhandled (rResult : RER) : RER :=
  storagepb.ReplicatedEvalResult.set_PrevLeaseProposal None
    (storagepb.ReplicatedEvalResult.set_Timestamp hlc.zero
       (storagepb.ReplicatedEvalResult.set_IsLeaseRequest false rResult)).

(** The update of the MVCC stats and of the Raft portion of the state. *)
Definition applyStats (env : Env) (rResult : RER) (raftAppliedIndex leaseAppliedIndex : Z)
  : Exec RER :=
  let deltaStats := enginepb.ToStats (storagepb.ReplicatedEvalResult.Delta rResult) in
  m ← getMu;
  match storagepb.ReplicaState.Stats (ReplicaMu.state m) with
  | Some stats =>
      modifyState (storagepb.ReplicaState.set_Stats (Some (enginepb.Add stats deltaStats)))
  | None => panic "nil pointer dereference"
  end;;
  when (negb (raftAppliedIndex =? 0))
    (modifyState (storagepb.ReplicaState.set_RaftAppliedIndex raftAppliedIndex));;
  when (negb (leaseAppliedIndex =? 0))
    (modifyState (storagepb.ReplicaState.set_LeaseAppliedIndex leaseAppliedIndex));;
  let needsSplitBySize := needsSplitBySizeRLocked env in
  let needsMergeBySize := needsMergeBySizeRLocked env in
  emit (EvAddMVCCStats deltaStats);;
  let rResult := storagepb.ReplicatedEvalResult.set_Delta enginepb.zeroDelta rResult in
  when (hasSplitQueue env && needsSplitBySize && splitQueueThrottle env)
    (emit EvSplitQueueMaybeAdd);;
  when (hasMergeQueue env && needsMergeBySize && mergeQueueThrottle env)
    (emit EvMergeQueueMaybeAdd);;
  mret rResult.

(** The first [if rResult.State != nil] block.  [st] is the struct that
    [rResult.State] points to; it is written back when the block ends. *)
Definition applyStateTrivial (env : Env) (rResult : RER) : Exec RER :=
  match storagepb.ReplicatedEvalResult.State rResult with
  | None => mret rResult
  | Some st =>
      '(st, rResult) ←
        match storagepb.ReplicaState.TruncatedState st with
        | Some newTruncState =>
            let st := storagepb.ReplicaState.set_TruncatedState None st in
            modifyState (storagepb.ReplicaState.set_TruncatedState (Some newTruncState));;
            emit (EvRaftEntryCacheClear (RangeID env) (succU64 (storagepb.Index newTruncState)));;
            emit (EvSideloadedTruncateTo (succU64 (storagepb.Index newTruncState)));;
            let '(size, err) := TruncateTo env (succU64 (storagepb.Index newTruncState)) in
            match err with
            | Some _ => mret (st, rResult)
            | None =>
                mret (st, storagepb.ReplicatedEvalResult.set_RaftLogDelta
                            (sub64 (storagepb.ReplicatedEvalResult.RaftLogDelta rResult) size)
                            rResult)
            end
        | None => mret (st, rResult)
        end;
      let st :=
        match storagepb.ReplicaState.Stats st with
        | Some stats =>
            if enginepb.isZeroStats stats then storagepb.ReplicaState.set_Stats None st else st
        | None => st
        end in
      st ← (if storagepb.ReplicaState.UsingAppliedStateKey st then
              m ← getMu;
              if storagepb.ReplicaState.UsingAppliedStateKey (ReplicaMu.state m)
              then mret (storagepb.ReplicaState.set_UsingAppliedStateKey false st)
              else mret st
            else mret st);
      if storagepb.ReplicaState.isZero st
      then mret (storagepb.ReplicatedEvalResult.set_State None rResult)
      else mret (storagepb.ReplicatedEvalResult.set_State (Some st) rResult)
  end.

(** The Raft log size accounting; both sums are [int64] sums. *)
Definition applyRaftLogDelta (env : Env) (rResult : RER) : Exec RER :=
  let delta := storagepb.ReplicatedEvalResult.RaftLogDelta rResult in
  if negb (delta =? 0) then
    modifyMu (λ m, ReplicaMu.set_raftLogSize (add64 (ReplicaMu.raftLogSize m) delta) m);;
    modifyMu (λ m, ReplicaMu.set_raftLogLastCheckSize
                     (add64 (ReplicaMu.raftLogLastCheckSize m) delta) m);;
    modifyMu (λ m, if ReplicaMu.raftLogSize m <? 0 then ReplicaMu.set_raftLogSize 0 m else m);;
    modifyMu (λ m, if ReplicaMu.raftLogLastCheckSize m <? 0
                   then ReplicaMu.set_raftLogLastCheckSize 0 m else m);;
    mret (storagepb.ReplicatedEvalResult.set_RaftLogDelta 0 rResult)
  else
    m ← getMu;
    let checkRaftLog :=
      RaftLogQueueStaleSize env
      <=? sub64 (ReplicaMu.raftLogSize m) (ReplicaMu.raftLogLastCheckSize m) in
    when checkRaftLog
      (modifyMu (λ m, ReplicaMu.set_raftLogLastCheckSize (ReplicaMu.raftLogSize m) m));;
    when checkRaftLog (emit EvRaftLogQueueMaybeAdd);;
    mret rResult.

(** Everything up to the determination of [shouldAssert]: the updates that
    are always present, or too frequent for a state assertion. *)
Definition applyTrivial (env : Env) (rResult : RER) (raftAppliedIndex leaseAppliedIndex : Z)
  : Exec RER :=
  let rResult := zeroUnhandled rResult in
  rResult ← (if storagepb.ReplicatedEvalResult.BlockReads rResult then
               emit EvReadOnlyCmdMuLock;;
               mret (storagepb.ReplicatedEvalResult.set_BlockReads false rResult)
             else mret rResult);
  rResult ← applyStats env rResult raftAppliedIndex leaseAppliedIndex;
  rResult ← applyStateTrivial env rResult;
  rResult ← applyRaftLogDelta env rResult;
  forEach (storagepb.ReplicatedEvalResult.SuggestedCompactions rResult)
          (λ sc, emit (EvCompactorSuggest sc));;
  mret (storagepb.ReplicatedEvalResult.set_SuggestedCompactions [] rResult).

(** The second [if rResult.State != nil] block: the remaining fields of the
    replica state. *)
Definition applyStateRest (env : Env) (rResult : RER) : Exec RER :=
  match storagepb.ReplicatedEvalResult.State rResult with
  | None => mret rResult
  | Some st =>
      st ← match storagepb.ReplicaState.Desc st with
           | Some newDesc =>
               setDesc newDesc;;
               mret (storagepb.ReplicaState.set_Desc None st)
           | None => mret st
           end;
      st ← match storagepb.ReplicaState.Lease st with
           | Some newLease =>
               leasePostApply env newLease false;;
               mret (storagepb.ReplicaState.set_Lease None st)
           | None => mret st
           end;
      st ← match storagepb.ReplicaState.GCThreshold st with
           | Some newThresh =>
               when (negb (hlc.isZero newThresh))
                 (modifyState (storagepb.ReplicaState.set_GCThreshold (Some newThresh)));;
               mret (storagepb.ReplicaState.set_GCThreshold None st)
           | None => mret st
           end;
      st ← match storagepb.ReplicaState.TxnSpanGCThreshold st with
           | Some newThresh =>
               when (negb (hlc.isZero newThresh))
                 (modifyState (storagepb.ReplicaState.set_TxnSpanGCThreshold (Some newThresh)));;
               mret (storagepb.ReplicaState.set_TxnSpanGCThreshold None st)
           | None => mret st
           end;
      st ← (if storagepb.ReplicaState.UsingAppliedStateKey st then
              modifyState (storagepb.ReplicaState.set_UsingAppliedStateKey true);;
              mret (storagepb.ReplicaState.set_UsingAppliedStateKey false st)
            else mret st);
      if storagepb.ReplicaState.isZero st
      then mret (storagepb.ReplicatedEvalResult.set_State None rResult)
      else mret (storagepb.ReplicatedEvalResult.set_State (Some st) rResult)
  end.

(** The actions after the determination of [shouldAssert]. *)
Definition applyNontrivial (env : Env) (rResult : RER) : Exec RER :=
  rResult ← match storagepb.ReplicatedEvalResult.Split rResult with
            | Some split =>
                emit (EvSplitPostApply split);;
                match splitPostApply env split with
                | Some msg => fatalf msg
                | None => mret tt
                end;;
                mret (storagepb.ReplicatedEvalResult.set_Split None rResult)
            | None => mret rResult
            end;
  rResult ← match storagepb.ReplicatedEvalResult.Merge rResult with
            | Some merge =>
                emit (EvMergeRange merge);;
                match MergeRange env merge with
                | Some _ => fatalf "failed to update store after merging range"
                | None => mret tt
                end;;
                mret (storagepb.ReplicatedEvalResult.set_Merge None rResult)
            | None => mret rResult
            end;
  rResult ← applyStateRest env rResult;
  rResult ← match storagepb.ReplicatedEvalResult.ChangeReplicas rResult with
            | Some change =>
                when (match storagepb.ChangeType change with
                      | roachpb.REMOVE_REPLICA => true
                      | roachpb.ADD_REPLICA => false
                      end
                      && (StoreID env =? roachpb.StoreID (storagepb.Replica change)))
                  (emit EvReplicaGCQueueAdd);;
                mret (storagepb.ReplicatedEvalResult.set_ChangeReplicas None rResult)
            | None => mret rResult
            end;
  match storagepb.ReplicatedEvalResult.ComputeChecksum rResult with
  | Some cc =>
      computeChecksumPostApply env cc;;
      mret (storagepb.ReplicatedEvalResult.set_ComputeChecksum None rResult)
  | None => mret rResult
  end.

(** [handleReplicatedEvalResult] up to its last statement: the value of
    [shouldAssert] and what is left of [rResult]. *)
Definition handleReplicatedEvalResult_apply (env : Env) (rResult : RER)
  (raftAppliedIndex leaseAppliedIndex : Z) : Exec (bool * RER) :=
  rResult ← applyTrivial env rResult raftAppliedIndex leaseAppliedIndex;
  let shouldAssert := negb (storagepb.ReplicatedEvalResult.EqualZero rResult) in
  rResult ← applyNontrivial env rResult;
  mret (shouldAssert, rResult).

(** [handleReplicatedEvalResult]: the final check, and the deferred unlock of
    [readOnlyCmdMu] on return. *)
Definition handleReplicatedEvalResult (env : Env) (rResult : RER)
  (raftAppliedIndex leaseAppliedIndex : Z) : Exec bool :=
  '(shouldAssert, rest) ←
    handleReplicatedEvalResult_apply env rResult raftAppliedIndex leaseAppliedIndex;
  if negb (storagepb.ReplicatedEvalResult.EqualZero rest) then
    fatalf "unhandled field in ReplicatedEvalResult"
  else
    when (storagepb.ReplicatedEvalResult.BlockReads rResult) (emit EvReadOnlyCmdMuUnlock);;
    mret shouldAssert.

(** ** The local-result applier *)

Abbreviation LocalResult := result.LocalResult.t.

(** The loop over [*lResult.UpdatedTxns]; the field is cleared in its body. *)
Fixpoint updateTxns (txns : list roachpb.Transaction) (lResult : LocalResult)
  : Exec LocalResult :=
  match txns with
  | [] => mret lResult
  | txn :: txns' =>
      emit (EvTxnWaitQueueUpdateTxn txn);;
      updateTxns txns' (result.LocalResult.set_UpdatedTxns None lResult)
  end.

(** [handleLocalEvalResult] up to its last statement. *)
Definition handleLocalEvalResult_apply (env : Env) (lResult : LocalResult) : Exec LocalResult :=
  let lResult := result.LocalResult.set_Reply None lResult in
  when (negb (isNil (result.LocalResult.Intents lResult)))
    (fatalf "LocalEvalResult.Intents should be nil");;
  when (negb (isNil (result.LocalResult.EndTxns lResult)))
    (fatalf "LocalEvalResult.EndTxns should be nil");;
  lResult ← (if result.LocalResult.GossipFirstRange lResult then
               emit EvRunAsyncGossipFirstRange;;
               mret (result.LocalResult.set_GossipFirstRange false lResult)
             else mret lResult);
  lResult ← (if result.LocalResult.MaybeAddToSplitQueue lResult then
               (if hasSplitQueue env then emit EvSplitQueueMaybeAdd
                else panic "nil pointer dereference");;
               mret (result.LocalResult.set_MaybeAddToSplitQueue false lResult)
             else mret lResult);
  lResult ← (if result.LocalResult.MaybeGossipSystemConfig lResult then
               emit EvMaybeGossipSystemConfig;;
               mret (result.LocalResult.set_MaybeGossipSystemConfig false lResult)
             else mret lResult);
  lResult ← match result.LocalResult.MaybeGossipNodeLiveness lResult with
            | Some span =>
                emit (EvMaybeGossipNodeLiveness span);;
                mret (result.LocalResult.set_MaybeGossipNodeLiveness None lResult)
            | None => mret lResult
            end;
  lResult ← match result.LocalResult.Metrics lResult with
            | Some metrics =>
                emit (EvHandleMetricsResult metrics);;
                mret (result.LocalResult.set_Metrics None lResult)
            | None => mret lResult
            end;
  match result.LocalResult.UpdatedTxns lResult with
  | Some txns => updateTxns txns lResult
  | None => mret lResult
  end.

Definition handleLocalEvalResult (env : Env) (lResult : LocalResult) : Exec unit :=
  rest ← handleLocalEvalResult_apply env lResult;
  if negb (result.LocalResult.isZero rest) then
    fatalf "unhandled field in LocalEvalResult"
  else mret tt.

Definition handleEvalResultRaftMuLocked (env : Env) (lResult : option LocalResult)
  (rResult : RER) (raftAppliedIndex leaseAppliedIndex : Z) : Exec unit :=
  shouldAssert ← handleReplicatedEvalResult env rResult raftAppliedIndex leaseAppliedIndex;
  match lResult with
  | Some l => handleLocalEvalResult env l
  | None => mret tt
  end;;
  when shouldAssert (emit EvAssertState).

(** ** The proposal builder *)

(** [evaluateProposal]; [idKey] and [spans] are only handed on to the
    evaluator.  The deferred [batch.Close] runs on every return. *)
Definition evaluateProposal (env : Env) (ba : roachpb.BatchRequest)
  : Exec (option result.Result.t * bool * option roachpb.Error) :=
  if hlc.eqb (roachpb.baTimestamp ba) hlc.zero then
    mret (None, false,
          Some (roachpb.mkError "can't propose Raft command with zero timestamp" None))
  else
    emit (EvEvaluateWriteBatch ba);;
    let ev := evaluateWriteBatch env ba in
    let res := res ev in
    match pErr ev with
    | Some pErr =>
        let pErr := maybeSetCorrupt env pErr in
        let txn := roachpb.GetTxn pErr in
        when (negb (isNil txn) && isNil (roachpb.baTxn ba))
          (fatalf "error had a txn but batch is non-transactional");;
        let '(intents, local) := result.DetachIntents (result.Result.Local res) in
        let '(endTxns, local) := result.DetachEndTxns true local in
        let local :=
          result.LocalResult.set_Metrics (result.LocalResult.Metrics local)
            (result.LocalResult.set_EndTxns (Some endTxns)
               (result.LocalResult.set_Intents (Some intents) result.LocalResult.zero)) in
        let res :=
          result.Result.mk local
            (storagepb.ReplicatedEvalResult.Reset (result.Result.Replicated res))
            (result.Result.WriteBatch res) (result.Result.LogicalOpLog res) in
        emit EvBatchClose;;
        mret (Some res, false, Some pErr)
    | None =>
        let local := result.LocalResult.set_Reply (br ev) (result.Result.Local res) in
        let needConsensus :=
          negb (Empty (batch ev))
          || negb (enginepb.isZeroStats (ms ev))
          || negb (storagepb.ReplicatedEvalResult.EqualZero (result.Result.Replicated res))
          || (MaxOffset env =? ClocklessMaxOffset env) in
        res ← (if needConsensus then
                 let rep := result.Result.Replicated res in
                 let rep :=
                   storagepb.ReplicatedEvalResult.set_IsLeaseRequest
                     (roachpb.baIsLeaseRequest ba) rep in
                 let rep :=
                   storagepb.ReplicatedEvalResult.set_Timestamp (roachpb.baTimestamp ba) rep in
                 let rep :=
                   if VersionIsActive env VersionMVCCNetworkStats
                   then storagepb.ReplicatedEvalResult.set_Delta
                          (enginepb.ToStatsDelta (ms ev)) rep
                   else storagepb.ReplicatedEvalResult.set_DeprecatedDelta (Some (ms ev)) rep in
                 m ← getMu;
                 let usingAppliedStateKey :=
                   storagepb.ReplicaState.UsingAppliedStateKey (ReplicaMu.state m) in
                 let rep :=
                   if negb usingAppliedStateKey
                      && VersionIsActive env VersionRangeAppliedStateKey
                   then
                     let st := default storagepb.ReplicaState.zero
                                       (storagepb.ReplicatedEvalResult.State rep) in
                     storagepb.ReplicatedEvalResult.set_State
                       (Some (storagepb.ReplicaState.set_UsingAppliedStateKey true st)) rep
                   else rep in
                 mret (result.Result.mk local rep
                         (Some (storagepb.mkWriteBatch (Repr (batch ev))))
                         (result.Result.LogicalOpLog res))
               else
                 mret (result.Result.mk local (result.Result.Replicated res)
                         (result.Result.WriteBatch res) (result.Result.LogicalOpLog res)));
        emit EvBatchClose;;
        mret (Some res, needConsensus, None)
    end.

(** [requestToProposal]: the proposal is filled out even when the evaluation
    ended with an error.  [&res.Local] dereferences [res], which is [nil]
    when [evaluateProposal] turned the batch down; the panic ends the run,
    so the order of [make] and of the dereference in the composite literal
    does not show.  [ctx] carries no span of the proposal's own, and the
    tick count is the zero value. *)
Definition requestToProposal (env : Env) (idKey : string) (ba : roachpb.BatchRequest)
  (endCmds : option endCmdsT) : Exec (ProposalData.t * option roachpb.Error) :=
  '(res, needConsensus, pErr) ← evaluateProposal env ba;
  doneCh ← makeChan;
  match res with
  | None => panic "nil pointer dereference"
  | Some res =>
      let command :=
        if (needConsensus : bool) then
          Some (storagepb.RaftCommand.mk (result.Result.Replicated res)
                  (result.Result.WriteBatch res) (result.Result.LogicalOpLog res))
        else None in
      mret (ProposalData.mk None idKey 0 command endCmds (Some doneCh)
              (Some (result.Result.Local res)) (Some ba),
            pErr)
  end.

(** * Properties *)

(** ** Vocabulary *)

(** [wp m Q w]: if the run of [m] from [w] returns, [Q] holds of the value
    and of the world it returns. *)
Definition wp {A : Type} (m : Exec A) (Q : A → World → Prop) (w : World) : Prop :=
  match m w with
  | Ok (a, w') => Q a w'
  | Fatal _ | Panic _ => True
  end.

(** [m] keeps the invariant [P] of the world. *)
Definition preserves {A : Type} (P : World → Prop) (m : Exec A) : Prop :=
  ∀ w, P w → wp m (λ _ w', P w') w.

(** Whatever the world, a value returned by [m] satisfies [Q]. *)
Definition returns {A : Type} (m : Exec A) (Q : A → Prop) : Prop :=
  ∀ w, wp m (λ a _, Q a) w.

(** The process ends during the run of [m] from [w]. *)
Definition crashes {A : Type} (m : Exec A) (w : World) : Prop :=
  ∃ msg, m w = Fatal msg.

(** The events a run appended to the trace. *)
Definition countEv (p : Event → bool) (t : list Event) : nat :=
  length (List.filter p t).
Definition isEndCmdsDone (e : Event) : bool :=
  match e with EvEndCmdsDone _ _ _ => true | _ => false end.
Definition isFinishSpan (e : Event) : bool :=
  match e with EvFinishSpan _ => true | _ => false end.
Definition isSend (e : Event) : bool :=
  match e with EvSend _ _ => true | _ => false end.

(** An entry of the checksum map that [gcOldChecksumEntriesLocked] is due
    to delete at [now]. *)
Definition expired (now : time.Time) (val : ReplicaChecksum) : bool :=
  negb (time.IsZero (gcTimestamp val)) && time.After now (gcTimestamp val).

(** Two calls of [finishApplication] in sequence on one proposal. *)
Definition finishApplicationTwice (proposal : ProposalData.t) (pr1 pr2 : proposalResult)
  : Exec ProposalData.t :=
  proposal ← finishApplication proposal pr1;
  finishApplication proposal pr2.

(** The events of the three sub-steps of [finishApplication]. *)
Definition hookEvents (p : ProposalData.t) (pr : proposalResult) : list Event :=
  match ProposalData.endCmds p with
  | Some ec => [EvEndCmdsDone ec (Reply pr) (Err pr)]
  | None => []
  end.
Definition spanEvents (p : ProposalData.t) : list Event :=
  match ProposalData.sp p with
  | Some s => [EvFinishSpan s]
  | None => []
  end.
Definition sendEvents (p : ProposalData.t) (pr : proposalResult) : list Event :=
  match ProposalData.doneCh p with
  | Some ch => [EvSend ch pr]
  | None => []
  end.

(** A replica at rest: no checksum entry, a state with statistics, a
    descriptor and a lease of sequence 3 held by store 1. *)
Definition lease0 : roachpb.Lease.t :=
  roachpb.Lease.mk (hlc.mkTimestamp 10 0) None (roachpb.mkReplicaDescriptor 1 1 1) 0 3.
Definition desc0 : roachpb.RangeDescriptor := roachpb.mkRangeDescriptor 7 [] [].
Definition state0 : RState :=
  storagepb.ReplicaState.mk 5 5 (Some desc0) (Some lease0) None None
    (Some enginepb.zeroStats) None false.
Definition mu0 : ReplicaMu.t := ReplicaMu.mk 1 ∅ state0 0 0.
Definition world0 : World := mkWorld mu0 [] 0.

(** A proposal with a latch-release hook, a span and a completion channel,
    and a successful result. *)
Definition proposal0 : ProposalData.t :=
  ProposalData.mk (Some 7) "cmd" 0 None (Some 1) (Some 0%nat) None None.
Definition pr0 : proposalResult :=
  mkProposalResult (Some (roachpb.mkBatchResponse [])) None [] [].

(** The entry that [computeChecksumPostApply] installs. *)
Definition inProgress (notify : option Chan) : ReplicaChecksum :=
  mkReplicaChecksum true notify None time.zero.

(** A replica on which a collector waits for checksum 42 on channel 3, next
    to a finished entry 41 that is due for collection after instant 100. *)
Definition waiting42 : ReplicaChecksum := mkReplicaChecksum false (Some 3%nat) None time.zero.
Definition done41 : ReplicaChecksum := mkReplicaChecksum true (Some 2%nat) (Some []) 100.
Definition muWaiting : ReplicaMu.t :=
  ReplicaMu.mk 1 (<[42%N := waiting42]> (<[41%N := done41]> ∅)) state0 0 0.
Definition worldWaiting : World := mkWorld muWaiting [] 4.
Definition cc42 : storagepb.ComputeChecksum := storagepb.mkComputeChecksum 42%N 2 false 0 false.

(** Every channel that an entry of the checksum map holds was made before:
    channels are numbered in the order they are made. *)
Definition chansAllocated (w : World) : Prop :=
  ∀ id c ch, ReplicaMu.checksums (mu w) !! id = Some c → notify c = Some ch →
             (ch < chans w)%nat.

(** [m] returns and only calls collaborators: it leaves the fields of the
    replica as they are. *)
Definition quiet {A : Type} (m : Exec A) : Prop :=
  ∀ w, ∃ a t, m w = Ok (a, mkWorld (mu w) (trace w ++ t) (chans w)).

(** Collaborators that never fail, on range 7 of store 1, at instant 50. *)
Definition env0 : Env := {|
  RaftLogQueueStaleSize := 65536;
  ReplicaChecksumVersion := 2;
  ClocklessMaxOffset := 2 ^ 63 - 1;
  Equivalent := λ l1 l2,
    (roachpb.StoreID (roachpb.Lease.Replica l1) =? roachpb.StoreID (roachpb.Lease.Replica l2))
    && (roachpb.Lease.Epoch l1 =? roachpb.Lease.Epoch l2);
  CRC32 := λ data, Z.of_nat (length data);
  NodeLivenessSpan := roachpb.mkSpan [] [];
  RangeID := 7;
  StoreID := 1;
  IsFirstRange := false;
  hasLeaseholderStats := true;
  hasLeaseHistory := true;
  hasSplitQueue := true;
  hasMergeQueue := true;
  VersionIsActive := λ _, true;
  timeutil_Now := 50;
  MaxOffset := 500;
  maybeWatchForMerge := None;
  requiresExpiringLeaseRLocked := false;
  IsLeaseValid := λ _, true;
  needsSplitBySizeRLocked := false;
  needsMergeBySizeRLocked := false;
  splitQueueThrottle := true;
  mergeQueueThrottle := true;
  TruncateTo := λ _, (0, None);
  splitPostApply := λ _, None;
  MergeRange := λ _, None;
  LoadAppliedIndex := 5;
  RunAsyncTask := None;
  sideloaded_Filename := λ _ _, ("sst", None);
  engineIsInMem := true;
  inmem_WriteFile := λ _, None;
  StatAndLinkCount := λ _, Some 1;
  LinkFile := λ _ _, None;
  IngestExternalFiles := λ _ _ _, None;
  DeleteFile := λ _, None;
  os_MkdirAll := λ _, None;
  os_Stat := λ _, Some "no such file";
  os_Remove := λ _, None;
  writeFileSyncing := λ _, None;
  filepath_Dir := λ p, p;
  evaluateWriteBatch := λ _,
    mkEvaluation (mkBatch true []) enginepb.zeroStats (Some (roachpb.mkBatchResponse []))
      (result.Result.mk result.LocalResult.zero storagepb.ReplicatedEvalResult.zero None None)
      None;
  maybeSetCorrupt := λ e, e
|}.

(** The successor of [lease0] in the lease sequence, held by store 2. *)
Definition lease1 : roachpb.Lease.t :=
  roachpb.Lease.mk (hlc.mkTimestamp 20 0) None (roachpb.mkReplicaDescriptor 2 2 2) 0 4.

(** The replica state once [newLease] is installed. *)
Definition withLease (newLease : roachpb.Lease.t) (m : ReplicaMu.t) : ReplicaMu.t :=
  ReplicaMu.set_state (storagepb.ReplicaState.set_Lease (Some newLease) (ReplicaMu.state m)) m.

(** The condition under which [leasePostApply] consults
    [maybeWatchForMerge]: the lease changes hands and this replica holds the
    new one. *)
Definition takesOver (m : ReplicaMu.t) (prevLease newLease : roachpb.Lease.t) : bool :=
  (negb (roachpb.StoreID (roachpb.Lease.Replica prevLease)
         =? roachpb.StoreID (roachpb.Lease.Replica newLease))
   || negb (roachpb.Lease.Sequence prevLease =? roachpb.Lease.Sequence newLease))
  && (roachpb.ReplicaID (roachpb.Lease.Replica newLease) =? ReplicaMu.replicaID m).

(** Every [log.Fatalf] that can end [m] has its message in [S]. *)
Definition fatalsIn {A : Type} (m : Exec A) (S : string → Prop) : Prop :=
  ∀ w msg, m w = Fatal msg → S msg.

Definition crcMismatch : string := "checksum for AddSSTable does not match".

(** A payload of two bytes with the checksum that [env0] computes for it. *)
Definition sst0 : storagepb.AddSSTable := storagepb.mkAddSSTable [Byte.x00; Byte.x01] 2.

(** A transaction, an evaluation error that carries it, and a batch outside
    any transaction whose evaluation ends with that error. *)
Definition txn9 : roachpb.Transaction := roachpb.mkTransaction 9%N.
Definition errTxn9 : roachpb.Error := roachpb.mkError "write too old" (Some txn9).
Definition baNoTxn : roachpb.BatchRequest :=
  roachpb.mkBatchRequest (hlc.mkTimestamp 30 0) None false.
Definition baTxn9 : roachpb.BatchRequest :=
  roachpb.mkBatchRequest (hlc.mkTimestamp 30 0) (Some txn9) false.
(** The local result of the failed evaluation: a reply, an intent, two ended
    transactions of which one is always resolved, metrics and a gossip
    trigger. *)
Definition localFailed : LocalResult :=
  result.LocalResult.mk (Some (roachpb.mkBatchResponse []))
    (Some [result.mkIntentsWithArg [] []])
    (Some [result.mkEndTxnIntents txn9 true; result.mkEndTxnIntents txn9 false])
    (Some (result.mkMetrics 1 0 0 0)) true false false None (Some [txn9]).
Definition evalFailed : Evaluation :=
  mkEvaluation (mkBatch false [Byte.x01]) enginepb.zeroStats None
    (result.Result.mk localFailed
       (storagepb.ReplicatedEvalResult.set_RaftLogDelta 8 storagepb.ReplicatedEvalResult.zero)
       None None)
    (Some errTxn9).
Definition envFailed : Env := {|
  RaftLogQueueStaleSize := RaftLogQueueStaleSize env0;
  ReplicaChecksumVersion := ReplicaChecksumVersion env0;
  ClocklessMaxOffset := ClocklessMaxOffset env0;
  Equivalent := Equivalent env0;
  CRC32 := CRC32 env0;
  NodeLivenessSpan := NodeLivenessSpan env0;
  RangeID := RangeID env0;
  StoreID := StoreID env0;
  IsFirstRange := IsFirstRange env0;
  hasLeaseholderStats := hasLeaseholderStats env0;
  hasLeaseHistory := hasLeaseHistory env0;
  hasSplitQueue := hasSplitQueue env0;
  hasMergeQueue := hasMergeQueue env0;
  VersionIsActive := VersionIsActive env0;
  timeutil_Now := timeutil_Now env0;
  MaxOffset := MaxOffset env0;
  maybeWatchForMerge := maybeWatchForMerge env0;
  requiresExpiringLeaseRLocked := requiresExpiringLeaseRLocked env0;
  IsLeaseValid := IsLeaseValid env0;
  needsSplitBySizeRLocked := needsSplitBySizeRLocked env0;
  needsMergeBySizeRLocked := needsMergeBySizeRLocked env0;
  splitQueueThrottle := splitQueueThrottle env0;
  mergeQueueThrottle := mergeQueueThrottle env0;
  TruncateTo := TruncateTo env0;
  splitPostApply := splitPostApply env0;
  MergeRange := MergeRange env0;
  LoadAppliedIndex := LoadAppliedIndex env0;
  RunAsyncTask := RunAsyncTask env0;
  sideloaded_Filename := sideloaded_Filename env0;
  engineIsInMem := engineIsInMem env0;
  inmem_WriteFile := inmem_WriteFile env0;
  StatAndLinkCount := StatAndLinkCount env0;
  LinkFile := LinkFile env0;
  IngestExternalFiles := IngestExternalFiles env0;
  DeleteFile := DeleteFile env0;
  os_MkdirAll := os_MkdirAll env0;
  os_Stat := os_Stat env0;
  os_Remove := os_Remove env0;
  writeFileSyncing := writeFileSyncing env0;
  filepath_Dir := filepath_Dir env0;
  evaluateWriteBatch := λ _, evalFailed;
  maybeSetCorrupt := maybeSetCorrupt env0
|}.
(** A batch that [env0] evaluates without error, to an empty write batch and
    no side effect. *)
Definition baRead : roachpb.BatchRequest :=
  roachpb.mkBatchRequest (hlc.mkTimestamp 30 0) None false.

(** A property of the world that only looks at [r.mu.raftLogSize]. *)
Definition sizeInv (R : Z → Prop) (w : World) : Prop := R (ReplicaMu.raftLogSize (mu w)).

(** A committed command as [handleReplicatedEvalResult] receives it, with
    the collaborators it meets. *)
Record Command : Type := mkCommand {
  cmdEnv : Env;
  cmdResult : RER;
  cmdRaftAppliedIndex : Z;
  cmdLeaseAppliedIndex : Z
}.

(** The worlds after each command of a sequence applied in order; the
    sequence stops where the process ends. *)
Fixpoint applyAll (cmds : list Command) (w : World) : list World :=
  match cmds with
  | [] => []
  | c :: cmds' =>
      match handleReplicatedEvalResult (cmdEnv c) (cmdResult c)
              (cmdRaftAppliedIndex c) (cmdLeaseAppliedIndex c) w with
      | Ok (_, w') => w' :: applyAll cmds' w'
      | Fatal _ | Panic _ => []
      end
  end.

(** Three commands: the log grows by 100 bytes, shrinks by 1000, grows by 7. *)
Definition cmdDelta (d : Z) : Command :=
  mkCommand env0
    (storagepb.ReplicatedEvalResult.set_RaftLogDelta d storagepb.ReplicatedEvalResult.zero) 6 6.
Definition cmds3 : list Command := [cmdDelta 100; cmdDelta (-1000); cmdDelta 7].

(** [r.mu.state.UsingAppliedStateKey]. *)
Definition usingKey (w : World) : bool :=
  storagepb.ReplicaState.UsingAppliedStateKey (ReplicaMu.state (mu w)).

(** The pointer [rResult.State] when a block ends: [nil] when the struct
    behind it has become zero. *)
Definition packState (st : RState) : option RState :=
  if storagepb.ReplicaState.isZero st then None else Some st.

(** The struct behind [rResult.State] after the first block, on a replica
    whose state has [UsingAppliedStateKey = inUse]. *)
Definition trivialState (inUse : bool) (st : RState) : RState :=
  let st := storagepb.ReplicaState.set_TruncatedState None st in
  let st := match storagepb.ReplicaState.Stats st with
            | Some stats =>
                if enginepb.isZeroStats stats then storagepb.ReplicaState.set_Stats None st
                else st
            | None => st
            end in
  if storagepb.ReplicaState.UsingAppliedStateKey st && inUse
  then storagepb.ReplicaState.set_UsingAppliedStateKey false st
  else st.

(** [rResult] where [shouldAssert] is determined. *)
Definition afterTrivial (inUse : bool) (r : RER) : RER :=
  storagepb.ReplicatedEvalResult.mk false
    (match storagepb.ReplicatedEvalResult.State r with
     | Some st => packState (trivialState inUse st)
     | None => None
     end)
    (storagepb.ReplicatedEvalResult.Split r)
    (storagepb.ReplicatedEvalResult.Merge r)
    (storagepb.ReplicatedEvalResult.ComputeChecksum r)
    false hlc.zero
    (storagepb.ReplicatedEvalResult.DeprecatedDelta r)
    enginepb.zeroDelta
    (storagepb.ReplicatedEvalResult.ChangeReplicas r)
    0
    (storagepb.ReplicatedEvalResult.AddSSTable r)
    [] None.

(** The struct behind [rResult.State] after the second block. *)
Definition restState (st : RState) : RState :=
  storagepb.ReplicaState.set_UsingAppliedStateKey false
    (storagepb.ReplicaState.set_TxnSpanGCThreshold None
       (storagepb.ReplicaState.set_GCThreshold None
          (storagepb.ReplicaState.set_Lease None
             (storagepb.ReplicaState.set_Desc None st)))).

(** What the actions after [shouldAssert] leave of [rResult]. *)
Definition afterNontrivial (r : RER) : RER :=
  storagepb.ReplicatedEvalResult.set_ComputeChecksum None
    (storagepb.ReplicatedEvalResult.set_ChangeReplicas None
       (storagepb.ReplicatedEvalResult.set_State
          (match storagepb.ReplicatedEvalResult.State r with
           | Some st => packState (restState st)
           | None => None
           end)
          (storagepb.ReplicatedEvalResult.set_Merge None
             (storagepb.ReplicatedEvalResult.set_Split None r)))).

(** The part of a replicated result that [handleReplicatedEvalResult] has
    no action for and does not zero: the deprecated delta, the SSTable, and
    in the state the applied indices and statistics that are not zero. *)
Definition unhandledState (st : RState) : RState :=
  storagepb.ReplicaState.mk
    (storagepb.ReplicaState.RaftAppliedIndex st)
    (storagepb.ReplicaState.LeaseAppliedIndex st)
    None None None None
    (match storagepb.ReplicaState.Stats st with
     | Some stats => if enginepb.isZeroStats stats then None else Some stats
     | None => None
     end)
    None false.
Definition unhandled (r : RER) : RER :=
  storagepb.ReplicatedEvalResult.mk false
    (match storagepb.ReplicatedEvalResult.State r with
     | Some st => packState (unhandledState st)
     | None => None
     end)
    None None None false hlc.zero
    (storagepb.ReplicatedEvalResult.DeprecatedDelta r)
    enginepb.zeroDelta None 0
    (storagepb.ReplicatedEvalResult.AddSSTable r)
    [] None.

(** The part of a local result that [handleLocalEvalResult] does not zero:
    the detached lists, which the caller must have taken, and a list of
    updated transactions that is set but empty. *)
Definition unhandledLocal (l : LocalResult) : LocalResult :=
  result.LocalResult.mk None
    (result.LocalResult.Intents l) (result.LocalResult.EndTxns l)
    None false false false None
    (match result.LocalResult.UpdatedTxns l with
     | Some [] => Some []
     | _ => None
     end).

(** Whether a replicated result asks for a state assertion on a replica
    whose state has [UsingAppliedStateKey = inUse]: it carries a split, a
    merge, a change of replicas, a checksum computation, a deprecated delta
    or an SSTable, or its state carries an applied index, a descriptor, a
    lease, a GC threshold, statistics that are not zero, or the applied
    state key flag when the replica does not use the key yet. *)
Definition nontrivialState (inUse : bool) (st : RState) : bool :=
  negb (storagepb.ReplicaState.RaftAppliedIndex st =? 0)
  || negb (storagepb.ReplicaState.LeaseAppliedIndex st =? 0)
  || negb (isNil (storagepb.ReplicaState.Desc st))
  || negb (isNil (storagepb.ReplicaState.Lease st))
  || negb (isNil (storagepb.ReplicaState.GCThreshold st))
  || match storagepb.ReplicaState.Stats st with
     | Some stats => negb (enginepb.isZeroStats stats)
     | None => false
     end
  || negb (isNil (storagepb.ReplicaState.TxnSpanGCThreshold st))
  || (storagepb.ReplicaState.UsingAppliedStateKey st && negb inUse).
Definition nontrivial (inUse : bool) (r : RER) : bool :=
  match storagepb.ReplicatedEvalResult.State r with
  | Some st => nontrivialState inUse st
  | None => false
  end
  || negb (isNil (storagepb.ReplicatedEvalResult.Split r))
  || negb (isNil (storagepb.ReplicatedEvalResult.Merge r))
  || negb (isNil (storagepb.ReplicatedEvalResult.ComputeChecksum r))
  || negb (isNil (storagepb.ReplicatedEvalResult.DeprecatedDelta r))
  || negb (isNil (storagepb.ReplicatedEvalResult.ChangeReplicas r))
  || negb (isNil (storagepb.ReplicatedEvalResult.AddSSTable r)).

(** The reading of [shouldAssert] that excludes exactly three updates: the
    result without its statistics delta, its truncated state and its Raft
    log delta is not zero. *)
Definition excludeTrivial (r : RER) : RER :=
  storagepb.ReplicatedEvalResult.set_State
    (match storagepb.ReplicatedEvalResult.State r with
     | Some st => packState (storagepb.ReplicaState.set_TruncatedState None st)
     | None => None
     end)
    (storagepb.ReplicatedEvalResult.set_RaftLogDelta 0
       (storagepb.ReplicatedEvalResult.set_Delta enginepb.zeroDelta r)).
Definition nonZeroExceptTrivial (r : RER) : bool :=
  negb (storagepb.ReplicatedEvalResult.EqualZero (excludeTrivial r)).

(** Results with a single update: ten logical bytes of statistics; one
    suggested compaction; an SSTable. *)
Definition rDelta10 : RER :=
  storagepb.ReplicatedEvalResult.set_Delta (enginepb.mkDelta false 10 0 0 0)
    storagepb.ReplicatedEvalResult.zero.
Definition rCompaction : RER :=
  storagepb.ReplicatedEvalResult.set_SuggestedCompactions
    [enginepb.mkSuggestedCompaction [Byte.x61] [Byte.x62] 1024]
    storagepb.ReplicatedEvalResult.zero.
Definition rSSTable : RER :=
  storagepb.ReplicatedEvalResult.set_AddSSTable (Some sst0) storagepb.ReplicatedEvalResult.zero.
(** [world0] after [rDelta10] is applied at indices 6 and 6. *)
Definition worldDelta10 : World :=
  mkWorld
    (ReplicaMu.set_state
       (storagepb.ReplicaState.mk 6 6 (Some desc0) (Some lease0) None None
          (Some (enginepb.mkStats false 10 0 0 0)) None false)
       mu0)
    [EvAddMVCCStats (enginepb.mkStats false 10 0 0 0)] 0.
(** A local result whose list of updated transactions is set and empty. *)
Definition lEmptyUpdatedTxns : LocalResult :=
  result.LocalResult.set_UpdatedTxns (Some []) result.LocalResult.zero.

(** A returning run of [m] appends events to the trace, and [Q] holds of the
    value it returns and of the events it appended. *)
Definition appends {A : Type} (m : Exec A) (Q : A → list Event → Prop) : Prop :=
  ∀ w, wp m (λ a w', ∃ t, trace w' = (trace w ++ t)%list ∧ Q a t) w.

(** A returning run of [m] appends no event that [p] selects. *)
Definition never {A : Type} (p : Event → bool) (m : Exec A) : Prop :=
  appends m (λ _ t, Forall (λ e, p e = false) t).

(** An early signal followed by the completion of the proposal. *)
Definition signalThenFinish (proposal : ProposalData.t) (pr1 pr2 : proposalResult)
  : Exec ProposalData.t :=
  proposal ← signalProposalResult proposal pr1;
  finishApplication proposal pr2.

Definition isTxnWaitQueueClear (e : Event) : bool :=
  match e with EvTxnWaitQueueClear _ => true | _ => false end.
Definition isTxnWaitQueueEnable (e : Event) : bool :=
  match e with EvTxnWaitQueueEnable => true | _ => false end.
Definition isAssertState (e : Event) : bool :=
  match e with EvAssertState => true | _ => false end.
Definition isReadOnlyCmdMu (e : Event) : bool :=
  match e with EvReadOnlyCmdMuLock | EvReadOnlyCmdMuUnlock => true | _ => false end.
Definition isBatchEvent (e : Event) : bool :=
  match e with EvEvaluateWriteBatch _ | EvBatchClose => true | _ => false end.

(** Whether this replica is the holder of [newLease]. *)
Definition holds (w : World) (newLease : roachpb.Lease.t) : bool :=
  roachpb.ReplicaID (roachpb.Lease.Replica newLease) =? ReplicaMu.replicaID (mu w).

(** A property of the world that only looks at the fields of the replica. *)
Definition muInv (R : ReplicaMu.t → Prop) (w : World) : Prop := R (mu w).

(** The state of the replica once the statistics delta and the applied
    indices of a command are taken in: an index of zero leaves the index of
    the replica as it is. *)
Definition statsApplied (delta : enginepb.MVCCStatsDelta) (raftAppliedIndex leaseAppliedIndex : Z)
  (stats : enginepb.MVCCStats) (st : RState) : RState :=
  let st := storagepb.ReplicaState.set_Stats (Some (enginepb.Add stats (enginepb.ToStats delta))) st in
  let st := if raftAppliedIndex =? 0 then st
            else storagepb.ReplicaState.set_RaftAppliedIndex raftAppliedIndex st in
  if leaseAppliedIndex =? 0 then st
  else storagepb.ReplicaState.set_LeaseAppliedIndex leaseAppliedIndex st.


(** What a command has done to the statistics and the applied indices of
    the replica between [w] and [w']. *)
Definition statsTaken (delta : enginepb.MVCCStatsDelta) (i j : Z) (w w' : World) : Prop :=
  ∃ stats,
    storagepb.ReplicaState.Stats (ReplicaMu.state (mu w)) = Some stats
    ∧ storagepb.ReplicaState.Stats (ReplicaMu.state (mu w'))
      = Some (enginepb.Add stats (enginepb.ToStats delta))
    ∧ storagepb.ReplicaState.RaftAppliedIndex (ReplicaMu.state (mu w'))
      = (if i =? 0 then storagepb.ReplicaState.RaftAppliedIndex (ReplicaMu.state (mu w))
         else i)
    ∧ storagepb.ReplicaState.LeaseAppliedIndex (ReplicaMu.state (mu w'))
      = (if j =? 0 then storagepb.ReplicaState.LeaseAppliedIndex (ReplicaMu.state (mu w))
         else j).

(** [env] with another answer of the evaluator. *)
Definition withEvaluation (ev : Evaluation) (env : Env) : Env := {|
  RaftLogQueueStaleSize := RaftLogQueueStaleSize env;
  ReplicaChecksumVersion := ReplicaChecksumVersion env;
  ClocklessMaxOffset := ClocklessMaxOffset env;
  Equivalent := Equivalent env;
  CRC32 := CRC32 env;
  NodeLivenessSpan := NodeLivenessSpan env;
  RangeID := RangeID env;
  StoreID := StoreID env;
  IsFirstRange := IsFirstRange env;
  hasLeaseholderStats := hasLeaseholderStats env;
  hasLeaseHistory := hasLeaseHistory env;
  hasSplitQueue := hasSplitQueue env;
  hasMergeQueue := hasMergeQueue env;
  VersionIsActive := VersionIsActive env;
  timeutil_Now := timeutil_Now env;
  MaxOffset := MaxOffset env;
  maybeWatchForMerge := maybeWatchForMerge env;
  requiresExpiringLeaseRLocked := requiresExpiringLeaseRLocked env;
  IsLeaseValid := IsLeaseValid env;
  needsSplitBySizeRLocked := needsSplitBySizeRLocked env;
  needsMergeBySizeRLocked := needsMergeBySizeRLocked env;
  splitQueueThrottle := splitQueueThrottle env;
  mergeQueueThrottle := mergeQueueThrottle env;
  TruncateTo := TruncateTo env;
  splitPostApply := splitPostApply env;
  MergeRange := MergeRange env;
  LoadAppliedIndex := LoadAppliedIndex env;
  RunAsyncTask := RunAsyncTask env;
  sideloaded_Filename := sideloaded_Filename env;
  engineIsInMem := engineIsInMem env;
  inmem_WriteFile := inmem_WriteFile env;
  StatAndLinkCount := StatAndLinkCount env;
  LinkFile := LinkFile env;
  IngestExternalFiles := IngestExternalFiles env;
  DeleteFile := DeleteFile env;
  os_MkdirAll := os_MkdirAll env;
  os_Stat := os_Stat env;
  os_Remove := os_Remove env;
  writeFileSyncing := writeFileSyncing env;
  filepath_Dir := filepath_Dir env;
  evaluateWriteBatch := λ _, ev;
  maybeSetCorrupt := maybeSetCorrupt env
|}.

(** An evaluation that wrote one byte and counted twelve live bytes, and the
    collaborators of [env0] around it. *)
Definition evalWrite : Evaluation :=
  mkEvaluation (mkBatch false [Byte.x01]) (enginepb.mkStats false 12 0 0 0)
    (Some (roachpb.mkBatchResponse []))
    (result.Result.mk result.LocalResult.zero storagepb.ReplicatedEvalResult.zero None None)
    None.
Definition envWrite : Env := withEvaluation evalWrite env0.

(** A pointer field of the state that a command carries replaces the one of
    the replica; a threshold that is the zero timestamp does not. *)
Definition carried {A : Type} (new old : option A) : option A :=
  match new with Some _ => new | None => old end.
Definition carriedThreshold (new old : option hlc.Timestamp) : option hlc.Timestamp :=
  match new with
  | Some th => if hlc.isZero th then old else new
  | None => old
  end.

(** The state of the replica once the first state block has run for the
    state [st] of a command, and once the second has. *)
Definition truncApplied (st : option RState) (s : RState) : RState :=
  match st with
  | Some st =>
      storagepb.ReplicaState.set_TruncatedState
        (carried (storagepb.ReplicaState.TruncatedState st)
                 (storagepb.ReplicaState.TruncatedState s)) s
  | None => s
  end.
Definition restApplied (st : option RState) (s : RState) : RState :=
  match st with
  | Some st =>
      storagepb.ReplicaState.mk
        (storagepb.ReplicaState.RaftAppliedIndex s)
        (storagepb.ReplicaState.LeaseAppliedIndex s)
        (carried (storagepb.ReplicaState.Desc st) (storagepb.ReplicaState.Desc s))
        (carried (storagepb.ReplicaState.Lease st) (storagepb.ReplicaState.Lease s))
        (storagepb.ReplicaState.TruncatedState s)
        (carriedThreshold (storagepb.ReplicaState.GCThreshold st)
                          (storagepb.ReplicaState.GCThreshold s))
        (storagepb.ReplicaState.Stats s)
        (carriedThreshold (storagepb.ReplicaState.TxnSpanGCThreshold st)
                          (storagepb.ReplicaState.TxnSpanGCThreshold s))
        (storagepb.ReplicaState.UsingAppliedStateKey st
         || storagepb.ReplicaState.UsingAppliedStateKey s)
  | None => s
  end.

(** A command that installs [lease1], a descriptor and a garbage-collection
    threshold, with a zero threshold for transaction spans. *)
Definition rState : RER :=
  storagepb.ReplicatedEvalResult.set_State
    (Some (storagepb.ReplicaState.mk 0 0 (Some (roachpb.mkRangeDescriptor 7 [] []))
             (Some lease1) None (Some (hlc.mkTimestamp 15 0)) None (Some hlc.zero) true))
    storagepb.ReplicatedEvalResult.zero.

(** ** Rules for runs *)

Lemma wp_ret {A} (a : A) Q w : Q a w → wp (mret a) Q w.
Proof. done. Qed.

Lemma wp_bind {A B} (m : Exec A) (k : A → Exec B) Q w :
  wp m (λ a w', wp (k a) Q w') w → wp (m ≫= k) Q w.
Proof.
  unfold wp, mbind, Exec_bind. destruct (m w) as [[a w']|msg|msg]; done.
Qed.

Lemma wp_bind_inv {A B} (m : Exec A) (k : A → Exec B) Q w :
  wp (m ≫= k) Q w → wp m (λ a w', wp (k a) Q w') w.
Proof.
  unfold wp, mbind, Exec_bind. destruct (m w) as [[a w']|msg|msg]; done.
Qed.

Lemma wp_mono {A} (m : Exec A) (Q Q' : A → World → Prop) w :
  (∀ a w', Q a w' → Q' a w') → wp m Q w → wp m Q' w.
Proof.
  unfold wp. destruct (m w) as [[a w']|msg|msg]; auto.
Qed.

Lemma wp_true {A} (m : Exec A) w : wp m (λ _ _, True) w.
Proof. unfold wp. destruct (m w) as [[a w']|msg|msg]; done. Qed.

Lemma wp_conj {A} (m : Exec A) (Q Q' : A → World → Prop) w :
  wp m Q w → wp m Q' w → wp m (λ a w', Q a w' ∧ Q' a w') w.
Proof. unfold wp. destruct (m w) as [[a w']|msg|msg]; auto. Qed.

Lemma wp_fatalf {A} msg (Q : A → World → Prop) w : wp (fatalf msg) Q w.
Proof. done. Qed.

Lemma wp_panic {A} msg (Q : A → World → Prop) w : wp (panic msg) Q w.
Proof. done. Qed.

Lemma wp_emit e (Q : unit → World → Prop) w :
  Q tt (mkWorld (mu w) (trace w ++ [e]) (chans w)) → wp (emit e) Q w.
Proof. done. Qed.

Lemma wp_getMu (Q : ReplicaMu.t → World → Prop) w : Q (mu w) w → wp getMu Q w.
Proof. done. Qed.

Lemma wp_modifyMu f (Q : unit → World → Prop) w :
  Q tt (mkWorld (f (mu w)) (trace w) (chans w)) → wp (modifyMu f) Q w.
Proof. done. Qed.

Lemma wp_makeChan (Q : Chan → World → Prop) w :
  Q (chans w) (mkWorld (mu w) (trace w) (S (chans w))) → wp makeChan Q w.
Proof. done. Qed.

Lemma wp_when c body (Q : unit → World → Prop) w :
  (c = true → wp body Q w) → (c = false → Q tt w) → wp (when c body) Q w.
Proof. unfold when. destruct c; intros H1 H2; [by apply H1 | by apply H2]. Qed.

Lemma wp_ok {A} (m : Exec A) Q w a w' : wp m Q w → m w = Ok (a, w') → Q a w'.
Proof. unfold wp. intros H E. by rewrite E in H. Qed.

(** *** Invariants *)

Lemma preserves_ret {A} P (a : A) : preserves P (mret a).
Proof. by intros w Hw. Qed.

Lemma preserves_bind {A B} P (m : Exec A) (k : A → Exec B) :
  preserves P m → (∀ a, preserves P (k a)) → preserves P (m ≫= k).
Proof.
  intros Hm Hk w Hw. apply wp_bind. eapply wp_mono; [|by apply Hm].
  intros a w' Hw'. by apply Hk.
Qed.

Lemma preserves_fatalf {A} P msg : preserves P (fatalf (A:=A) msg).
Proof. by intros w Hw. Qed.

Lemma preserves_panic {A} P msg : preserves P (panic (A:=A) msg).
Proof. by intros w Hw. Qed.

Lemma preserves_getMu P : preserves P getMu.
Proof. by intros w Hw. Qed.

Lemma preserves_when P c body : preserves P body → preserves P (when c body).
Proof. destruct c; [done|]. intros _. apply preserves_ret. Qed.

Lemma preserves_forEach {A} P (l : list A) body :
  (∀ x, preserves P (body x)) → preserves P (forEach l body).
Proof.
  intros Hb. induction l as [|x l IH]; simpl.
  - apply preserves_ret.
  - apply preserves_bind; [apply Hb | intros _; apply IH].
Qed.

(** *** Returned values *)

Lemma returns_ret {A} (a : A) (Q : A → Prop) : Q a → returns (mret a) Q.
Proof. by intros Ha w. Qed.

Lemma returns_bind {A B} (m : Exec A) (k : A → Exec B) (P : A → Prop) (Q : B → Prop) :
  returns m P → (∀ a, P a → returns (k a) Q) → returns (m ≫= k) Q.
Proof.
  intros Hm Hk w. apply wp_bind. eapply wp_mono; [|apply Hm].
  intros a w' Ha. by apply Hk.
Qed.

Lemma returns_seq {A B} (m : Exec A) (k : Exec B) (Q : B → Prop) :
  returns k Q → returns (m ≫= λ _, k) Q.
Proof.
  intros Hk. apply (returns_bind _ _ (λ _, True)); [|done].
  intros w. apply wp_true.
Qed.

Lemma returns_crash_fatalf {A} msg (Q : A → Prop) : returns (fatalf msg) Q.
Proof. by intros w. Qed.

Lemma returns_crash_panic {A} msg (Q : A → Prop) : returns (panic msg) Q.
Proof. by intros w. Qed.

(** Unfolding of the operations of a run. *)
Ltac run_unfold :=
  cbv [mbind mret Exec_bind Exec_ret emit getMu modifyMu makeChan when fatalf panic].

(** ** Proposal completion *)

Lemma finishApplication_run p pr w :
  finishApplication p pr w =
  Ok (ProposalData.set_doneCh None (ProposalData.set_endCmds None p),
      mkWorld (mu w) (trace w ++ hookEvents p pr ++ spanEvents p ++ sendEvents p pr) (chans w)).
Proof.
  destruct p as [sp idKey ticks cmd ec ch loc req], w as [m t n].
  unfold finishApplication, signalProposalResult, hookEvents, spanEvents, sendEvents.
  destruct ec, sp, ch; run_unfold; cbn; rewrite <- ?app_assoc, ?app_nil_r; reflexivity.
Qed.

(** Two calls in sequence: the hook and the send happen in the first call
    only, the span is finished in both. *)
Lemma finishApplicationTwice_run p pr1 pr2 w :
  finishApplicationTwice p pr1 pr2 w =
  Ok (ProposalData.set_doneCh None (ProposalData.set_endCmds None p),
      mkWorld (mu w)
              (trace w ++ hookEvents p pr1 ++ spanEvents p ++ sendEvents p pr1 ++ spanEvents p)
              (chans w)).
Proof.
  unfold finishApplicationTwice, mbind, Exec_bind.
  rewrite finishApplication_run, finishApplication_run.
  destruct p as [sp idKey ticks cmd ec ch loc req], w as [m t n].
  unfold hookEvents, spanEvents, sendEvents.
  destruct ec, sp, ch; cbn; rewrite <- ?app_assoc; reflexivity.
Qed.

Lemma finishApplicationTwice_hook_send_once p pr1 pr2 w p' w' :
  finishApplicationTwice p pr1 pr2 w = Ok (p', w') →
  (countEv isEndCmdsDone (trace w') ≤ 1 + countEv isEndCmdsDone (trace w))%nat
  ∧ (countEv isSend (trace w') ≤ 1 + countEv isSend (trace w))%nat.
Proof.
  rewrite finishApplicationTwice_run. intros [= <- <-]. cbn [trace].
  unfold countEv, hookEvents, spanEvents, sendEvents.
  rewrite !List.filter_app, !length_app.
  destruct (ProposalData.endCmds p), (ProposalData.sp p), (ProposalData.doneCh p);
    cbn; lia.
Qed.

(** C3, at a proposal that carries a span: two calls of [finishApplication]
    in sequence invoke the latch-release hook once and send once, but they
    finish the tracing span twice, since [sp] is never cleared. *)
Theorem finishApplication_twice_finishes_span_twice :
  ∃ p' w',
    finishApplicationTwice proposal0 pr0 pr0 world0 = Ok (p', w')
    ∧ trace w' = [EvEndCmdsDone 1 (Reply pr0) (Err pr0); EvFinishSpan 7;
                  EvSend 0%nat pr0; EvFinishSpan 7]
    ∧ countEv isFinishSpan (trace w') = 2%nat
    ∧ countEv isEndCmdsDone (trace w') = 1%nat
    ∧ countEv isSend (trace w') = 1%nat.
Proof.
  eexists _, _. split; [apply finishApplicationTwice_run|]. cbn. auto.
Qed.

(** ** The checksum map *)

Lemma gc_fold_lookup now (b m : gmap UUID ReplicaChecksum) id :
  map_fold (λ id val m, if expired now val then delete id m else m) b m !! id =
  match m !! id with
  | Some val => if expired now val then None else b !! id
  | None => b !! id
  end.
Proof.
  revert id.
  apply (map_fold_weak_ind
           (λ r m, ∀ id, r !! id = match m !! id with
                                   | Some val => if expired now val then None else b !! id
                                   | None => b !! id
                                   end)).
  - intros id. by rewrite lookup_empty.
  - intros i x m' r Hi IH id.
    destruct (decide (i = id)) as [->|Hne].
    + rewrite lookup_insert_eq.
      destruct (expired now x); [by rewrite lookup_delete_eq|].
      by rewrite IH, Hi.
    + rewrite lookup_insert_ne by done.
      destruct (expired now x); [rewrite lookup_delete_ne by done|]; apply IH.
Qed.

(** What the collection leaves at each key. *)
Lemma gcOldChecksumEntriesLocked_lookup now (m : gmap UUID ReplicaChecksum) id :
  gcOldChecksumEntriesLocked now m !! id =
  match m !! id with
  | Some val => if expired now val then None else Some val
  | None => None
  end.
Proof.
  unfold gcOldChecksumEntriesLocked.
  change (λ (id : UUID) (val : ReplicaChecksum) (m : gmap UUID ReplicaChecksum),
            if negb (time.IsZero (gcTimestamp val)) && time.After now (gcTimestamp val)
            then delete id m else m)
    with (λ (id : UUID) (val : ReplicaChecksum) (m : gmap UUID ReplicaChecksum),
            if expired now val then delete id m else m).
  rewrite gc_fold_lookup. destruct (m !! id) as [val|] eqn:E; [|done].
  by destruct (expired now val).
Qed.

Lemma expired_spec now val :
  expired now val = true ↔ gcTimestamp val ≠ time.zero ∧ gcTimestamp val < now.
Proof.
  unfold expired, time.IsZero, time.After, time.zero.
  rewrite andb_true_iff, negb_true_iff, Z.eqb_neq, Z.ltb_lt. done.
Qed.

(** The run of the part of [computeChecksumPostApply] under the mutex, on a
    replica that has a descriptor. *)
Lemma computeChecksumPostApply_locked_run now cc w desc :
  storagepb.ReplicaState.Desc (ReplicaMu.state (mu w)) = Some desc →
  computeChecksumPostApply_locked now cc w =
  match ReplicaMu.checksums (mu w) !! storagepb.ChecksumID cc with
  | None =>
      Ok (desc,
          mkWorld (ReplicaMu.set_checksums
                     (<[storagepb.ChecksumID cc := inProgress (Some (chans w))]>
                        (gcOldChecksumEntriesLocked now (ReplicaMu.checksums (mu w))))
                     (mu w))
                  (trace w) (S (chans w)))
  | Some c =>
      if started c then
        Fatal "attempted to apply ComputeChecksum command with duplicated checksum ID"
      else
        Ok (desc,
            mkWorld (ReplicaMu.set_checksums
                       (<[storagepb.ChecksumID cc := inProgress (notify c)]>
                          (gcOldChecksumEntriesLocked now (ReplicaMu.checksums (mu w))))
                       (mu w))
                    (trace w) (chans w))
  end.
Proof.
  intros HD. destruct w as [m t n]. cbn [mu trace chans] in *.
  unfold computeChecksumPostApply_locked. run_unfold. cbn [mu trace chans].
  destruct (ReplicaMu.checksums m !! storagepb.ChecksumID cc) as [c|] eqn:E.
  - destruct (started c); cbn; [done|].
    destruct m; cbn in *. by rewrite HD.
  - cbn. destruct m; cbn in *. by rewrite HD.
Qed.

(** C10: the collection deletes an entry only when its GC timestamp is set
    and strictly before [now]; an entry with an unset GC timestamp stays, and
    so does the in-progress entry that [computeChecksumPostApply] installs,
    at whatever instant the map is collected later. *)
Theorem gc_deletes_only_expired (now : time.Time) (m : gmap UUID ReplicaChecksum)
  (id : UUID) (val : ReplicaChecksum) (Hval : m !! id = Some val) :
  (gcOldChecksumEntriesLocked now m !! id = None
     ↔ time.IsZero (gcTimestamp val) = false ∧ gcTimestamp val < now)
  ∧ (gcOldChecksumEntriesLocked now m !! id = None
     ∨ gcOldChecksumEntriesLocked now m !! id = Some val)
  ∧ (time.IsZero (gcTimestamp val) = true →
     gcOldChecksumEntriesLocked now m !! id = Some val)
  ∧ (∀ t cc w desc w',
       computeChecksumPostApply_locked t cc w = Ok (desc, w') →
       ReplicaMu.checksums (mu w') = m →
       id = storagepb.ChecksumID cc →
       started val = true ∧ time.IsZero (gcTimestamp val) = true
       ∧ gcOldChecksumEntriesLocked now m !! id = Some val).
Proof.
  rewrite gcOldChecksumEntriesLocked_lookup, Hval.
  assert (Hexp : expired now val = true
                 ↔ time.IsZero (gcTimestamp val) = false ∧ gcTimestamp val < now).
  { unfold expired, time.After. rewrite andb_true_iff, negb_true_iff, Z.ltb_lt. done. }
  assert (Hkeep : time.IsZero (gcTimestamp val) = true → expired now val = false).
  { intros Hz. unfold expired. by rewrite Hz. }
  split; [|split; [|split]].
  - destruct (expired now val) eqn:E.
    + split; [intros _; by apply Hexp|done].
    + split; [done|]. intros H. apply Hexp in H. congruence.
  - destruct (expired now val); auto.
  - intros Hz. by rewrite (Hkeep Hz).
  - intros t cc w desc w' Hrun Hm ->.
    assert (∃ n, val = inProgress n) as [n ->].
    { unfold computeChecksumPostApply_locked in Hrun. revert Hrun. run_unfold.
      destruct w as [mw tw nw]. cbn [mu trace chans].
      destruct (ReplicaMu.checksums mw !! storagepb.ChecksumID cc) as [c|];
        [destruct (started c); cbn; [done|]|cbn];
        destruct (storagepb.ReplicaState.Desc _); intros [= <- <-];
        cbn in Hm; subst m; rewrite lookup_insert_eq in Hval;
        injection Hval as <-; eauto. }
    rewrite (Hkeep eq_refl). done.
Qed.

Lemma gc_deletes_only_expired_witness :
  ReplicaMu.checksums muWaiting !! 41%N = Some done41
  ∧ (gcOldChecksumEntriesLocked 101 (ReplicaMu.checksums muWaiting) !! 41%N = None
     ↔ time.IsZero (gcTimestamp done41) = false ∧ gcTimestamp done41 < 101).
Proof.
  assert (H : ReplicaMu.checksums muWaiting !! 41%N = Some done41) by reflexivity.
  split; [exact H|].
  exact (proj1 (gc_deletes_only_expired 101 (ReplicaMu.checksums muWaiting) 41%N done41 H)).
Defined.

(** C7: on a replica with a descriptor, applying a ComputeChecksum command
    does one of three things, by the entry of the checksum map at its id:
    with no entry a channel is made that no entry holds, and installed; with
    an entry that has not started, the channel of that entry is installed
    again, so the collector that waits on it is the one notified; with an
    entry that has started the process ends.  In the first two cases the
    entry installed is in progress. *)
Theorem computeChecksum_three_cases (env : Env) (cc : storagepb.ComputeChecksum)
  (w : World) (desc : roachpb.RangeDescriptor)
  (HD : storagepb.ReplicaState.Desc (ReplicaMu.state (mu w)) = Some desc) :
  match ReplicaMu.checksums (mu w) !! storagepb.ChecksumID cc with
  | None =>
      (∃ w', computeChecksumPostApply_locked (timeutil_Now env) cc w = Ok (desc, w')
             ∧ ReplicaMu.checksums (mu w') !! storagepb.ChecksumID cc
               = Some (inProgress (Some (chans w)))
             ∧ chans w' = S (chans w))
      ∧ (chansAllocated w →
         ∀ id c, ReplicaMu.checksums (mu w) !! id = Some c → notify c ≠ Some (chans w))
  | Some c =>
      if started c then
        computeChecksumPostApply_locked (timeutil_Now env) cc w
        = Fatal "attempted to apply ComputeChecksum command with duplicated checksum ID"
        ∧ crashes (computeChecksumPostApply env cc) w
      else
        ∃ w', computeChecksumPostApply_locked (timeutil_Now env) cc w = Ok (desc, w')
              ∧ ReplicaMu.checksums (mu w') !! storagepb.ChecksumID cc
                = Some (inProgress (notify c))
              ∧ chans w' = chans w
  end.
Proof.
  pose proof (computeChecksumPostApply_locked_run (timeutil_Now env) cc w desc HD) as Hrun.
  destruct (ReplicaMu.checksums (mu w) !! storagepb.ChecksumID cc) as [c|] eqn:E.
  - destruct (started c).
    + split; [done|]. eexists. unfold computeChecksumPostApply.
      unfold mbind, Exec_bind. by rewrite Hrun.
    + eexists. split; [exact Hrun|]. cbn. by rewrite lookup_insert_eq.
  - split.
    + eexists. split; [exact Hrun|]. cbn. by rewrite lookup_insert_eq.
    + intros Hall id c Hc Hn. specialize (Hall id c _ Hc Hn). lia.
Qed.

Lemma computeChecksum_three_cases_witness :
  storagepb.ReplicaState.Desc (ReplicaMu.state (mu worldWaiting)) = Some desc0
  ∧ ∃ w', computeChecksumPostApply_locked 50 cc42 worldWaiting = Ok (desc0, w')
          ∧ ReplicaMu.checksums (mu w') !! 42%N = Some (inProgress (Some 3%nat))
          ∧ chans w' = 4%nat.
Proof.
  split; [reflexivity|].
  exact (computeChecksum_three_cases env0 cc42 worldWaiting desc0 eq_refl).
Defined.

(** ** Runs that end the process, runs that only call collaborators *)

Lemma crashes_bind_l {A B} (m : Exec A) (k : A → Exec B) w :
  crashes m w → crashes (m ≫= k) w.
Proof. intros [msg E]. exists msg. unfold mbind, Exec_bind. by rewrite E. Qed.

Lemma crashes_bind_r {A B} (m : Exec A) (k : A → Exec B) w a w' :
  m w = Ok (a, w') → crashes (k a) w' → crashes (m ≫= k) w.
Proof. intros E [msg E']. exists msg. unfold mbind, Exec_bind. by rewrite E. Qed.

Lemma quiet_ret {A} (a : A) : quiet (mret a).
Proof. intros w. exists a, []. rewrite app_nil_r. by destruct w. Qed.

Lemma quiet_emit e : quiet (emit e).
Proof. intros w. by exists tt, [e]. Qed.

Lemma quiet_bind {A B} (m : Exec A) (k : A → Exec B) :
  quiet m → (∀ a, quiet (k a)) → quiet (m ≫= k).
Proof.
  intros Hm Hk w. destruct (Hm w) as (a & t & E).
  destruct (Hk a (mkWorld (mu w) (trace w ++ t) (chans w))) as (b & t' & E').
  exists b, (t ++ t')%list. unfold mbind, Exec_bind. rewrite E, E'. cbn.
  by rewrite app_assoc.
Qed.

Lemma quiet_when c body : quiet body → quiet (when c body).
Proof. destruct c; [done|]. intros _. apply quiet_ret. Qed.

Lemma quiet_forEach {A} (l : list A) body :
  (∀ x, quiet (body x)) → quiet (forEach l body).
Proof.
  intros Hb. induction l as [|x l IH]; simpl.
  - apply quiet_ret.
  - apply quiet_bind; [apply Hb | intros _; apply IH].
Qed.

(** Structural steps of a proof that a run is quiet. *)
Ltac quiet_step :=
  first [ apply quiet_ret | apply quiet_emit
        | apply quiet_when | apply quiet_bind; [|intros ?] ].
Ltac quiet_tac := repeat quiet_step.

(** ** Lease installation *)

Lemma leasePostApply_notify_quiet env prevLease newLease lch holder expiring :
  quiet (leasePostApply_notify env prevLease newLease lch holder expiring).
Proof.
  unfold leasePostApply_notify. quiet_tac.
  destruct (roachpb.Lease.OwnedBy newLease (StoreID env)); [apply quiet_emit|].
  destruct (roachpb.Lease.OwnedBy prevLease (StoreID env)); quiet_tac.
Qed.

Lemma leasePostApply_takeover_run env newLease w :
  match maybeWatchForMerge env with
  | Some _ =>
      leasePostApply_takeover env newLease w
      = Fatal "failed checking for in-progress merge while installing new lease"
  | None =>
      ∃ t, leasePostApply_takeover env newLease w
           = Ok (tt, mkWorld (mu w) (trace w ++ t) (chans w))
  end.
Proof.
  unfold leasePostApply_takeover. destruct (maybeWatchForMerge env) eqn:E; [done|].
  assert (Hq : quiet (emit EvMaybeWatchForMerge;;
                      (mret tt : Exec unit);;
                      emit (EvSetTimestampCacheLowWaterMark (roachpb.Lease.Start newLease));;
                      when (hasLeaseholderStats env) (emit EvResetRequestCounts)))
    by quiet_tac.
  destruct (Hq w) as ([] & t & Ht). by exists t.
Qed.

(** The verdict of the sequence check does not depend on the world. *)
Lemma leaseSequenceCheck_run env prevLease newLease permitJump w :
  let s1 := roachpb.Lease.Sequence prevLease in
  let s2 := roachpb.Lease.Sequence newLease in
  int64 s1 → int64 s2 →
  leaseSequenceCheck env prevLease newLease permitJump w =
  if decide (s1 = 0) then Ok (tt, w)
  else if decide (s2 < s1) then Fatal "lease sequence inversion"
  else if decide (s2 = s1) then
    if Equivalent env prevLease newLease then Ok (tt, w)
    else Fatal "sequence identical for different leases"
  else if decide (s2 = s1 + 1) then Ok (tt, w)
  else if permitJump then Ok (tt, w)
  else Fatal "lease sequence jump".
Proof.
  intros s1 s2 H1 H2. unfold leaseSequenceCheck. fold s1 s2.
  unfold int64 in *.
  assert (Hadd : s1 < s2 → add64 s1 1 = s1 + 1).
  { intros Hlt. unfold add64, wrap64. rewrite Z.mod_small by lia. lia. }
  destruct (decide (s1 = 0)) as [->|Hs1]; [done|].
  rewrite (proj2 (Z.eqb_neq s1 0) Hs1). cbn [negb].
  destruct (decide (s2 < s1)) as [Hlt|Hge].
  { by rewrite (proj2 (Z.ltb_lt s2 s1) Hlt). }
  rewrite (proj2 (Z.ltb_ge s2 s1)) by lia.
  destruct (decide (s2 = s1)) as [Heq|Hne].
  { rewrite Heq, Z.eqb_refl. by destruct (Equivalent env prevLease newLease). }
  rewrite (proj2 (Z.eqb_neq s2 s1) Hne).
  rewrite Hadd by lia.
  destruct (decide (s2 = s1 + 1)) as [Hsucc|Hjump].
  { by rewrite Hsucc, Z.eqb_refl. }
  rewrite (proj2 (Z.eqb_neq s2 (s1 + 1)) Hjump).
  rewrite (proj2 (Z.ltb_lt (s1 + 1) s2)) by lia.
  by destruct permitJump.
Qed.

Lemma leaseSequenceCheck_world env prevLease newLease permitJump w w0 :
  leaseSequenceCheck env prevLease newLease permitJump w =
  match leaseSequenceCheck env prevLease newLease permitJump w0 with
  | Ok _ => Ok (tt, w)
  | Fatal msg => Fatal msg
  | Panic msg => Panic msg
  end.
Proof.
  unfold leaseSequenceCheck.
  repeat match goal with
         | |- context [if ?c then _ else _] => destruct c
         end; reflexivity.
Qed.

Lemma leasePostApply_tail env prevLease newLease permitJump lch holder expiring w :
  ∃ t,
    (leaseSequenceCheck env prevLease newLease permitJump;;
     installLease newLease;;
     leasePostApply_notify env prevLease newLease lch holder expiring) w =
    match leaseSequenceCheck env prevLease newLease permitJump w with
    | Ok _ => Ok (tt, mkWorld (withLease newLease (mu w)) (trace w ++ t) (chans w))
    | Fatal msg => Fatal msg
    | Panic msg => Panic msg
    end.
Proof.
  destruct (leasePostApply_notify_quiet env prevLease newLease lch holder expiring
              (mkWorld (withLease newLease (mu w)) (trace w) (chans w)))
    as ([] & t & Ht).
  exists t. unfold mbind at 1, Exec_bind at 1.
  rewrite (leaseSequenceCheck_world env prevLease newLease permitJump w w).
  destruct (leaseSequenceCheck env prevLease newLease permitJump w) as [[[] ?]|msg|msg];
    [|done..].
  unfold mbind, Exec_bind, installLease, modifyMu. exact Ht.
Qed.

(** The run of [leasePostApply] on a replica that has a lease: the merge
    watch may end the process first, then the sequence check decides. *)
Lemma leasePostApply_run env newLease permitJump w prevLease :
  storagepb.ReplicaState.Lease (ReplicaMu.state (mu w)) = Some prevLease →
  ∃ t,
    leasePostApply env newLease permitJump w =
    match (if takesOver (mu w) prevLease newLease then maybeWatchForMerge env else None) with
    | Some _ => Fatal "failed checking for in-progress merge while installing new lease"
    | None =>
        match leaseSequenceCheck env prevLease newLease permitJump w with
        | Ok _ => Ok (tt, mkWorld (withLease newLease (mu w)) (trace w ++ t) (chans w))
        | Fatal msg => Fatal msg
        | Panic msg => Panic msg
        end
    end.
Proof.
  intros Hprev. unfold leasePostApply.
  unfold mbind at 1, Exec_bind at 1, getMu. 
  unfold mbind at 1, Exec_bind at 1. rewrite Hprev. unfold mret at 1, Exec_ret at 1.
  fold (takesOver (mu w) prevLease newLease).
  destruct (takesOver (mu w) prevLease newLease).
  - unfold when. unfold mbind at 1, Exec_bind at 1.
    pose proof (leasePostApply_takeover_run env newLease w) as Hto.
    destruct (maybeWatchForMerge env).
    + exists []. by rewrite Hto.
    + destruct Hto as [t0 ->].
      edestruct leasePostApply_tail as [t ->].
      rewrite (leaseSequenceCheck_world _ _ _ _ _ w).
      exists (t0 ++ t)%list. cbn [mu trace chans]. rewrite app_assoc.
      by destruct (leaseSequenceCheck env prevLease newLease permitJump w).
  - unfold when. unfold mbind at 1, Exec_bind at 1. unfold mret at 1, Exec_ret at 1.
    edestruct leasePostApply_tail as [t ->]. by exists t.
Qed.

(** C2: with a previous lease of non-zero sequence, [leasePostApply] ends the
    process when the new sequence is lower, when it is equal and the leases
    are not equivalent, and when it jumps by more than one without
    [permitJump]; when the new sequence is the successor, the sequence check
    passes and the new lease is installed, unless the merge watch of a
    replica that takes the lease over failed before the check. *)
Theorem lease_sequence_discipline (env : Env) (w : World)
  (prevLease newLease : roachpb.Lease.t) (permitJump : bool)
  (Hprev : storagepb.ReplicaState.Lease (ReplicaMu.state (mu w)) = Some prevLease)
  (Hs1 : roachpb.Lease.Sequence prevLease ≠ 0)
  (H1 : int64 (roachpb.Lease.Sequence prevLease))
  (H2 : int64 (roachpb.Lease.Sequence newLease)) :
  let s1 := roachpb.Lease.Sequence prevLease in
  let s2 := roachpb.Lease.Sequence newLease in
  (s2 < s1 → crashes (leasePostApply env newLease permitJump) w)
  ∧ (s2 = s1 → Equivalent env prevLease newLease = false →
     crashes (leasePostApply env newLease permitJump) w)
  ∧ (s2 = s1 + 1 →
     leaseSequenceCheck env prevLease newLease permitJump w = Ok (tt, w)
     ∧ match leasePostApply env newLease permitJump w with
       | Ok (_, w') =>
           storagepb.ReplicaState.Lease (ReplicaMu.state (mu w')) = Some newLease
       | Fatal msg =>
           msg = "failed checking for in-progress merge while installing new lease"
           ∧ takesOver (mu w) prevLease newLease = true
           ∧ maybeWatchForMerge env ≠ None
       | Panic _ => False
       end)
  ∧ (s1 + 1 < s2 → permitJump = false →
     crashes (leasePostApply env newLease permitJump) w).
Proof.
  intros s1 s2.
  destruct (leasePostApply_run env newLease permitJump w prevLease Hprev) as [t Hrun].
  pose proof (leaseSequenceCheck_run env prevLease newLease permitJump w H1 H2) as Hchk.
  cbn zeta in Hchk. fold s1 s2 in Hchk.
  destruct (decide (s1 = 0)) as [?|_]; [done|].
  assert (Hcrash : ∀ msg,
            leaseSequenceCheck env prevLease newLease permitJump w = Fatal msg →
            crashes (leasePostApply env newLease permitJump) w).
  { intros msg E. rewrite E in Hrun. unfold crashes. rewrite Hrun.
    destruct (if takesOver _ _ _ then _ else _); by eexists. }
  split; [|split; [|split]].
  - intros Hlt. destruct (decide (s2 < s1)); [|lia]. eauto.
  - intros Heq Hne. destruct (decide (s2 < s1)); [lia|].
    destruct (decide (s2 = s1)); [|lia]. rewrite Hne in Hchk. eauto.
  - intros Hsucc. destruct (decide (s2 < s1)); [lia|].
    destruct (decide (s2 = s1)); [lia|]. destruct (decide (s2 = s1 + 1)); [|lia].
    split; [done|]. rewrite Hrun, Hchk.
    destruct (takesOver (mu w) prevLease newLease); [|by destruct (mu w), (ReplicaMu.state _)].
    destruct (maybeWatchForMerge env); [done|].
    by destruct (mu w), (ReplicaMu.state _).
  - intros Hjump ->. destruct (decide (s2 < s1)); [lia|].
    destruct (decide (s2 = s1)); [lia|]. destruct (decide (s2 = s1 + 1)); [lia|]. eauto.
Qed.

Lemma lease_sequence_discipline_witness :
  storagepb.ReplicaState.Lease (ReplicaMu.state (mu world0)) = Some lease0
  ∧ roachpb.Lease.Sequence lease0 ≠ 0
  ∧ int64 (roachpb.Lease.Sequence lease0)
  ∧ int64 (roachpb.Lease.Sequence lease1)
  ∧ leaseSequenceCheck env0 lease0 lease1 false world0 = Ok (tt, world0).
Proof.
  assert (Hs : roachpb.Lease.Sequence lease0 ≠ 0) by (cbn; lia).
  assert (H1 : int64 (roachpb.Lease.Sequence lease0)) by (unfold int64; cbn; lia).
  assert (H2 : int64 (roachpb.Lease.Sequence lease1)) by (unfold int64; cbn; lia).
  split; [reflexivity|]. split; [exact Hs|]. split; [exact H1|]. split; [exact H2|].
  exact (proj1 (proj1 (proj2 (proj2
           (lease_sequence_discipline env0 world0 lease0 lease1 false eq_refl Hs H1 H2)))
           eq_refl)).
Defined.

(** ** SSTable pre-apply *)

Lemma fatalsIn_ret {A} (a : A) S : fatalsIn (mret a) S.
Proof. by intros w msg. Qed.

Lemma fatalsIn_emit e S : fatalsIn (emit e) S.
Proof. by intros w msg. Qed.

Lemma fatalsIn_panic {A} msg S : fatalsIn (panic (A:=A) msg) S.
Proof. by intros w msg'. Qed.

Lemma fatalsIn_fatalf {A} msg (S : string → Prop) : S msg → fatalsIn (fatalf (A:=A) msg) S.
Proof. by intros HS w msg' [= <-]. Qed.

Lemma fatalsIn_bind {A B} (m : Exec A) (k : A → Exec B) S :
  fatalsIn m S → (∀ a, fatalsIn (k a) S) → fatalsIn (m ≫= k) S.
Proof.
  intros Hm Hk w msg. unfold mbind, Exec_bind.
  destruct (m w) as [[a w']|msg'|msg'] eqn:E; [apply Hk| |done].
  intros [= <-]. by eapply Hm.
Qed.

Ltac fatalsIn_step :=
  first [ apply fatalsIn_ret | apply fatalsIn_emit | apply fatalsIn_panic
        | apply fatalsIn_fatalf; discriminate
        | apply fatalsIn_bind; [|intros ?]
        | match goal with
          | |- fatalsIn (match ?x with _ => _ end) _ => destruct x
          | |- fatalsIn (when ?c _) _ => unfold when
          end ].

Lemma addSSTablePreApply_ingest_fatals env index term sst checksum :
  fatalsIn (addSSTablePreApply_ingest env index term sst checksum) (λ msg, msg ≠ crcMismatch).
Proof.
  unfold addSSTablePreApply_ingest, addSSTablePreApply_onDisk, crcMismatch.
  repeat fatalsIn_step.
Qed.

(** A run of the ingestion that returns has ingested the file. *)
Lemma addSSTablePreApply_ingest_ingests env index term sst checksum w copied w' :
  addSSTablePreApply_ingest env index term sst checksum w = Ok (copied, w') →
  ∃ path allowModify,
    let skip := VersionIsActive env VersionUnreplicatedRaftTruncatedState in
    In (EvIngestExternalFiles [path] skip allowModify) (trace w')
    ∧ IngestExternalFiles env [path] skip allowModify = None.
Proof.
  unfold addSSTablePreApply_ingest, addSSTablePreApply_onDisk. run_unfold.
  destruct w as [m t n]. cbn [mu trace chans].
  repeat match goal with
         | |- context [match ?x with _ => _ end] =>
             lazymatch x with
             | context [match _ with _ => _ end] => fail
             | _ => destruct x eqn:?
             end; cbn [mu trace chans]
         end;
    try discriminate;
    intros [= <- <-]; cbn [trace];
    eexists _, _; (split; [|eassumption]);
    rewrite ?in_app_iff; cbn; tauto.
Qed.

(** C9: [addSSTablePreApply] compares the checksum of the payload with the
    stored one before it consults any collaborator.  When they differ the
    process ends there; when they agree the run is the ingestion, which
    never ends with the mismatch message, and which returns only after the
    engine has ingested the file. *)
Theorem addSSTablePreApply_crc_gate (env : Env) (index term : Z)
  (sst : storagepb.AddSSTable) (w : World) :
  let checksum := CRC32 env (storagepb.Data sst) in
  (checksum ≠ storagepb.CRC32 sst →
   addSSTablePreApply env index term sst w = Fatal crcMismatch)
  ∧ (checksum = storagepb.CRC32 sst →
     addSSTablePreApply env index term sst w
     = addSSTablePreApply_ingest env index term sst checksum w
     ∧ addSSTablePreApply env index term sst w ≠ Fatal crcMismatch
     ∧ ∀ copied w',
         addSSTablePreApply env index term sst w = Ok (copied, w') →
         ∃ path allowModify,
           let skip := VersionIsActive env VersionUnreplicatedRaftTruncatedState in
           In (EvIngestExternalFiles [path] skip allowModify) (trace w')
           ∧ IngestExternalFiles env [path] skip allowModify = None).
Proof.
  intros checksum. unfold addSSTablePreApply. fold checksum. split.
  - intros Hne. by rewrite (proj2 (Z.eqb_neq _ _) Hne).
  - intros Heq. rewrite (proj2 (Z.eqb_eq _ _) Heq). cbn [negb].
    split; [done|]. split.
    + intros E. by apply addSSTablePreApply_ingest_fatals in E.
    + intros copied w'. apply addSSTablePreApply_ingest_ingests.
Qed.

Lemma addSSTablePreApply_crc_gate_witness :
  CRC32 env0 (storagepb.Data sst0) = storagepb.CRC32 sst0
  ∧ addSSTablePreApply env0 5 1 sst0 world0 ≠ Fatal crcMismatch.
Proof.
  split; [reflexivity|].
  exact (proj1 (proj2 (proj2 (addSSTablePreApply_crc_gate env0 5 1 sst0 world0) eq_refl))).
Defined.

(** ** Zero values *)

Lemma isNil_true {A} (o : option A) : isNil o = true ↔ o = None.
Proof. by destruct o. Qed.

Lemma hlc_isZero_true ts : hlc.isZero ts = true ↔ ts = hlc.zero.
Proof.
  destruct ts as [wt lg]. unfold hlc.isZero, hlc.eqb, hlc.zero. cbn.
  rewrite andb_true_iff, !Z.eqb_eq. split; [intros [-> ->]; done | by intros [= -> ->]].
Qed.

Lemma isZeroStats_true ms : enginepb.isZeroStats ms = true ↔ ms = enginepb.zeroStats.
Proof.
  destruct ms as [ce a b c d]. unfold enginepb.isZeroStats, enginepb.zeroStats. cbn.
  rewrite !andb_true_iff, negb_true_iff, !Z.eqb_eq.
  split; [intros [[[[-> ->] ->] ->] ->]; done | by intros [= -> -> -> -> ->]].
Qed.

Lemma isZeroDelta_true d : enginepb.isZeroDelta d = true ↔ d = enginepb.zeroDelta.
Proof.
  destruct d as [ce a b c e]. unfold enginepb.isZeroDelta, enginepb.zeroDelta. cbn.
  rewrite !andb_true_iff, negb_true_iff, !Z.eqb_eq.
  split; [intros [[[[-> ->] ->] ->] ->]; done | by intros [= -> -> -> -> ->]].
Qed.

Lemma ReplicaState_isZero_true st :
  storagepb.ReplicaState.isZero st = true ↔ st = storagepb.ReplicaState.zero.
Proof.
  destruct st. unfold storagepb.ReplicaState.isZero, storagepb.ReplicaState.zero. cbn.
  rewrite !andb_true_iff, negb_true_iff, !Z.eqb_eq, !isNil_true.
  split; [intros H; decompose [and] H; subst; done | by intros [= -> -> -> -> -> -> -> -> ->]].
Qed.

(** [Equal] with the zero value holds of the zero value only: every field is
    zero or [nil]. *)
Lemma EqualZero_true (r : RER) :
  storagepb.ReplicatedEvalResult.EqualZero r = true ↔ r = storagepb.ReplicatedEvalResult.zero.
Proof.
  destruct r as [br st sp mg cc lr ts dd d cr rl sst sc pl].
  unfold storagepb.ReplicatedEvalResult.EqualZero, storagepb.ReplicatedEvalResult.zero. cbn.
  rewrite !andb_true_iff, !negb_true_iff, Z.eqb_eq, !isNil_true, hlc_isZero_true,
    isZeroDelta_true.
  split.
  - intros H. decompose [and] H. subst. by destruct sc.
  - by intros [= -> -> -> -> -> -> -> -> -> -> -> -> -> ->].
Qed.

Lemma LocalResult_isZero_true (l : LocalResult) :
  result.LocalResult.isZero l = true ↔ l = result.LocalResult.zero.
Proof.
  destruct l. unfold result.LocalResult.isZero, result.LocalResult.zero. cbn.
  rewrite !andb_true_iff, !negb_true_iff, !isNil_true.
  split; [intros H; decompose [and] H; subst; done | by intros [= -> -> -> -> -> -> -> -> ->]].
Qed.

(** ** The proposal builder *)

(** C5: a batch with a timestamp whose evaluation ends without error comes
    back with [needConsensus] set exactly when the write batch is not empty,
    or the statistics delta is not zero, or the replicated result is not
    zero, or the maximum clock offset is the clockless sentinel. *)
Theorem evaluateProposal_needConsensus (env : Env) (ba : roachpb.BatchRequest) (w : World)
  (Hts : roachpb.baTimestamp ba ≠ hlc.zero)
  (Hok : pErr (evaluateWriteBatch env ba) = None) :
  let ev := evaluateWriteBatch env ba in
  ∃ out needConsensus w',
    evaluateProposal env ba w = Ok ((Some out, needConsensus, None), w')
    ∧ (needConsensus = true
       ↔ Empty (batch ev) = false
         ∨ ms ev ≠ enginepb.zeroStats
         ∨ result.Result.Replicated (res ev) ≠ storagepb.ReplicatedEvalResult.zero
         ∨ MaxOffset env = ClocklessMaxOffset env).
Proof.
  intros ev. unfold evaluateProposal.
  assert (Hz : hlc.eqb (roachpb.baTimestamp ba) hlc.zero = false).
  { apply not_true_is_false. intros H. by apply hlc_isZero_true in H. }
  rewrite Hz. cbv zeta. rewrite Hok. fold ev.
  set (nc := negb (Empty (batch ev)) || _ || _ || _).
  assert (Hnc : nc = true
                ↔ Empty (batch ev) = false
                  ∨ ms ev ≠ enginepb.zeroStats
                  ∨ result.Result.Replicated (res ev)
                    ≠ storagepb.ReplicatedEvalResult.zero
                  ∨ MaxOffset env = ClocklessMaxOffset env).
  { unfold nc. rewrite !orb_true_iff, !negb_true_iff, Z.eqb_eq.
    rewrite <- !not_true_iff_false, isZeroStats_true, EqualZero_true.
    destruct (Empty (batch ev)); intuition congruence. }
  destruct nc; run_unfold; cbn; eexists _, _, _; (split; [reflexivity|exact Hnc]).
Qed.


Lemma evaluateProposal_needConsensus_witness :
  roachpb.baTimestamp baRead ≠ hlc.zero
  ∧ pErr (evaluateWriteBatch env0 baRead) = None
  ∧ ∃ out needConsensus w',
      evaluateProposal env0 baRead world0 = Ok ((Some out, needConsensus, None), w')
      ∧ (needConsensus = true
         ↔ Empty (batch (evaluateWriteBatch env0 baRead)) = false
           ∨ ms (evaluateWriteBatch env0 baRead) ≠ enginepb.zeroStats
           ∨ result.Result.Replicated (res (evaluateWriteBatch env0 baRead))
             ≠ storagepb.ReplicatedEvalResult.zero
           ∨ MaxOffset env0 = ClocklessMaxOffset env0).
Proof.
  assert (Hts : roachpb.baTimestamp baRead ≠ hlc.zero) by discriminate.
  split; [exact Hts|]. split; [reflexivity|].
  exact (evaluateProposal_needConsensus env0 baRead world0 Hts eq_refl).
Defined.

(** C6, as the code has it: when the evaluation of a batch with a timestamp
    ends with an error, the error that counts is the one [maybeSetCorrupt]
    hands back.  If it carries a transaction and the batch has none, the
    process ends.  Otherwise [evaluateProposal] returns that error with
    [needConsensus] unset and a result whose replicated half is the zero
    value and whose local half holds the detached intents, the detached
    ended transactions that are always resolved and the metrics, every
    other field being zero. *)
Theorem evaluateProposal_error (env : Env) (ba : roachpb.BatchRequest) (w : World)
  (e : roachpb.Error)
  (Hts : roachpb.baTimestamp ba ≠ hlc.zero)
  (Herr : pErr (evaluateWriteBatch env ba) = Some e) :
  let l := result.Result.Local (res (evaluateWriteBatch env ba)) in
  let e' := maybeSetCorrupt env e in
  if negb (isNil (roachpb.GetTxn e')) && isNil (roachpb.baTxn ba) then
    evaluateProposal env ba w = Fatal "error had a txn but batch is non-transactional"
  else
    ∃ out w',
      evaluateProposal env ba w = Ok ((Some out, false, Some e'), w')
      ∧ result.Result.Replicated out = storagepb.ReplicatedEvalResult.zero
      ∧ result.Result.Local out
        = result.LocalResult.mk None
            (Some (default [] (result.LocalResult.Intents l)))
            (Some (filter (λ eti, result.Always eti = true)
                          (default [] (result.LocalResult.EndTxns l))))
            (result.LocalResult.Metrics l)
            false false false None None.
Proof.
  intros l e'. unfold evaluateProposal.
  assert (Hz : hlc.eqb (roachpb.baTimestamp ba) hlc.zero = false).
  { apply not_true_is_false. intros H. by apply hlc_isZero_true in H. }
  rewrite Hz. cbv zeta. rewrite Herr. fold e'.
  destruct (negb (isNil (roachpb.GetTxn e')) && isNil (roachpb.baTxn ba)); [done|].
  run_unfold. cbn. eexists _, _. split; [reflexivity|]. cbn.
  split; [done|]. subst l. by destruct (result.Result.Local _).
Qed.

Lemma evaluateProposal_error_witness :
  roachpb.baTimestamp baTxn9 ≠ hlc.zero
  ∧ pErr (evaluateWriteBatch envFailed baTxn9) = Some errTxn9
  ∧ ∃ out w',
      evaluateProposal envFailed baTxn9 world0 = Ok ((Some out, false, Some errTxn9), w')
      ∧ result.Result.Replicated out = storagepb.ReplicatedEvalResult.zero
      ∧ result.Result.Local out
        = result.LocalResult.mk None (Some [result.mkIntentsWithArg [] []])
            (Some [result.mkEndTxnIntents txn9 true])
            (Some (result.mkMetrics 1 0 0 0)) false false false None None.
Proof.
  assert (Hts : roachpb.baTimestamp baTxn9 ≠ hlc.zero) by discriminate.
  split; [exact Hts|]. split; [reflexivity|].
  exact (evaluateProposal_error envFailed baTxn9 world0 errTxn9 Hts eq_refl).
Defined.

(** C6, as stated, fails: the evaluation of a batch outside any transaction
    ends with an error that carries a transaction, and [evaluateProposal]
    returns nothing: the process ends. *)
Lemma evaluateProposal_error_counterexample :
  pErr (evaluateWriteBatch envFailed baNoTxn) = Some errTxn9
  ∧ evaluateProposal envFailed baNoTxn world0
    = Fatal "error had a txn but batch is non-transactional"
  ∧ ¬ ∃ out w', evaluateProposal envFailed baNoTxn world0 = Ok (out, w').
Proof.
  split; [reflexivity|]. split; [reflexivity|]. intros (out & w' & H). discriminate H.
Qed.

(** ** The Raft log size *)

Create HintDb size discriminated.

Lemma size_emit R e : preserves (sizeInv R) (emit e).
Proof. by intros w Hw. Qed.

Lemma size_makeChan R : preserves (sizeInv R) makeChan.
Proof. by intros w Hw. Qed.

Lemma size_modifyMu R f :
  (∀ m, ReplicaMu.raftLogSize (f m) = ReplicaMu.raftLogSize m) →
  preserves (sizeInv R) (modifyMu f).
Proof. intros Hf w Hw. unfold wp, modifyMu, sizeInv in *. cbn. by rewrite Hf. Qed.

Lemma size_modifyState R f : preserves (sizeInv R) (modifyState f).
Proof. apply size_modifyMu. by intros []. Qed.

(** Structural steps of a proof that a run keeps [raftLogSize]. *)
Ltac size_step :=
  lazymatch goal with
  | |- preserves _ (mbind _ _) => apply preserves_bind; [|intros ?]
  | |- preserves _ (mret _) => apply preserves_ret
  | |- preserves _ (fatalf _) => apply preserves_fatalf
  | |- preserves _ (panic _) => apply preserves_panic
  | |- preserves _ getMu => apply preserves_getMu
  | |- preserves _ (emit _) => apply size_emit
  | |- preserves _ makeChan => apply size_makeChan
  | |- preserves _ (modifyState _) => apply size_modifyState
  | |- preserves _ (modifyMu _) => apply size_modifyMu; intros []; reflexivity
  | |- preserves _ (when _ _) => apply preserves_when
  | |- preserves _ (forEach _ _) => apply preserves_forEach; intros ?
  | |- preserves _ (let _ := _ in _) => cbv zeta
  | |- preserves _ (match ?x with _ => _ end) => destruct x
  | |- preserves _ _ => solve [auto 1 with size nocore]
  end.
Ltac size_tac := repeat size_step.

Lemma computeChecksumPostApply_size R env cc :
  preserves (sizeInv R) (computeChecksumPostApply env cc).
Proof.
  unfold computeChecksumPostApply, computeChecksumPostApply_locked. size_tac.
Qed.
#[local] Hint Resolve computeChecksumPostApply_size : size.

Lemma leasePostApply_size R env newLease permitJump :
  preserves (sizeInv R) (leasePostApply env newLease permitJump).
Proof.
  unfold leasePostApply, leasePostApply_takeover, leaseSequenceCheck, installLease,
    leasePostApply_notify.
  size_tac.
Qed.
#[local] Hint Resolve leasePostApply_size : size.

Lemma applyStats_size R env rResult i j : preserves (sizeInv R) (applyStats env rResult i j).
Proof. unfold applyStats. size_tac. Qed.
#[local] Hint Resolve applyStats_size : size.

Lemma applyStateTrivial_size R env rResult :
  preserves (sizeInv R) (applyStateTrivial env rResult).
Proof. unfold applyStateTrivial. size_tac. Qed.
#[local] Hint Resolve applyStateTrivial_size : size.

Lemma applyNontrivial_size R env rResult :
  preserves (sizeInv R) (applyNontrivial env rResult).
Proof. unfold applyNontrivial, applyStateRest, setDesc. size_tac. Qed.
#[local] Hint Resolve applyNontrivial_size : size.

(** The accounting itself: a delta is added and the sum clamped; without a
    delta the size stays. *)
Lemma applyRaftLogDelta_run env (rResult : RER) w :
  ∃ w',
    applyRaftLogDelta env rResult w
    = Ok (storagepb.ReplicatedEvalResult.set_RaftLogDelta 0 rResult, w')
    ∧ ReplicaMu.raftLogSize (mu w')
      = (if storagepb.ReplicatedEvalResult.RaftLogDelta rResult =? 0
         then ReplicaMu.raftLogSize (mu w)
         else Z.max 0 (add64 (ReplicaMu.raftLogSize (mu w))
                             (storagepb.ReplicatedEvalResult.RaftLogDelta rResult))).
Proof.
  unfold applyRaftLogDelta.
  destruct (storagepb.ReplicatedEvalResult.RaftLogDelta rResult =? 0) eqn:E; cbn [negb].
  - apply Z.eqb_eq in E. run_unfold.
    assert (storagepb.ReplicatedEvalResult.set_RaftLogDelta 0 rResult = rResult) as ->.
    { destruct rResult; cbn in *. by subst. }
    destruct (RaftLogQueueStaleSize env <=? _); cbn; eexists; (split; [reflexivity|]);
      by destruct w as [[] ? ?].
  - run_unfold. eexists. split; [reflexivity|].
    destruct w as [[rid cs st sz chk] t n]. cbn.
    set (s := add64 sz (storagepb.ReplicatedEvalResult.RaftLogDelta rResult)).
    destruct (s <? 0) eqn:Es; cbn.
    + apply Z.ltb_lt in Es. destruct (add64 chk _ <? 0); cbn; lia.
    + apply Z.ltb_ge in Es. destruct (add64 chk _ <? 0); cbn; lia.
Qed.

Lemma applyRaftLogDelta_size env rResult :
  preserves (sizeInv (λ z, 0 ≤ z)) (applyRaftLogDelta env rResult).
Proof.
  intros w Hw. destruct (applyRaftLogDelta_run env rResult w) as (w' & E & Hsz).
  unfold wp, sizeInv in *. rewrite E, Hsz.
  destruct (_ =? 0); lia.
Qed.
#[local] Hint Resolve applyRaftLogDelta_size : size.

Lemma handleReplicatedEvalResult_size env rResult i j :
  preserves (sizeInv (λ z, 0 ≤ z)) (handleReplicatedEvalResult env rResult i j).
Proof.
  unfold handleReplicatedEvalResult, handleReplicatedEvalResult_apply, applyTrivial.
  size_tac.
Qed.

(** C8: from a replica whose Raft log size is not negative, the size is not
    negative after any command of any sequence applied by
    [handleReplicatedEvalResult]; whenever a command carries a delta, the
    new size is the [int64] sum clamped from below at zero. *)
Theorem raftLogSize_nonnegative (cmds : list Command) (w : World)
  (Hw : 0 ≤ ReplicaMu.raftLogSize (mu w)) :
  Forall (λ w', 0 ≤ ReplicaMu.raftLogSize (mu w')) (applyAll cmds w)
  ∧ ∀ env (rResult : RER) w0,
      storagepb.ReplicatedEvalResult.RaftLogDelta rResult ≠ 0 →
      ∃ w', applyRaftLogDelta env rResult w0
            = Ok (storagepb.ReplicatedEvalResult.set_RaftLogDelta 0 rResult, w')
            ∧ ReplicaMu.raftLogSize (mu w')
              = Z.max 0 (add64 (ReplicaMu.raftLogSize (mu w0))
                               (storagepb.ReplicatedEvalResult.RaftLogDelta rResult)).
Proof.
  split.
  - revert w Hw. induction cmds as [|c cmds IH]; intros w Hw; cbn [applyAll]; [constructor|].
    pose proof (handleReplicatedEvalResult_size (cmdEnv c) (cmdResult c)
                  (cmdRaftAppliedIndex c) (cmdLeaseAppliedIndex c) w Hw) as Hstep.
    unfold wp in Hstep.
    destruct (handleReplicatedEvalResult _ _ _ _ w) as [[b w']|msg|msg]; [|constructor..].
    constructor; [exact Hstep|]. by apply IH.
  - intros env rResult w0 Hd.
    destruct (applyRaftLogDelta_run env rResult w0) as (w' & E & Hsz).
    exists w'. split; [done|]. by rewrite (proj2 (Z.eqb_neq _ _) Hd) in Hsz.
Qed.

Lemma raftLogSize_nonnegative_witness :
  0 ≤ ReplicaMu.raftLogSize (mu world0)
  ∧ Forall (λ w', 0 ≤ ReplicaMu.raftLogSize (mu w')) (applyAll cmds3 world0).
Proof.
  assert (Hw : 0 ≤ ReplicaMu.raftLogSize (mu world0)) by (cbn; lia).
  split; [exact Hw|]. exact (proj1 (raftLogSize_nonnegative cmds3 world0 Hw)).
Defined.

Example applyAll_cmds3_sizes :
  map (λ w, ReplicaMu.raftLogSize (mu w)) (applyAll cmds3 world0) = [100; 0; 7].
Proof. vm_compute. reflexivity. Qed.

(** ** What the appliers leave of a result *)

(** Case analysis on the innermost scrutinee of the goal. *)
Ltac case_inner :=
  match goal with
  | |- context [match ?x with _ => _ end] =>
      lazymatch x with
      | context [match _ with _ => _ end] => fail
      | _ => destruct x eqn:?
      end
  end.

Lemma applyStats_wp env (r : RER) i j w :
  wp (applyStats env r i j)
     (λ r' w', r' = storagepb.ReplicatedEvalResult.set_Delta enginepb.zeroDelta r
               ∧ usingKey w' = usingKey w) w.
Proof.
  unfold wp, applyStats, modifyState, usingKey. run_unfold.
  destruct w as [[rid cs st sz chk] t n]. cbn [mu trace chans ReplicaMu.state].
  destruct (storagepb.ReplicaState.Stats st); [|done].
  destruct st; cbn.
  repeat (case_inner; cbn); done.
Qed.

Lemma applyStateTrivial_wp env (r : RER) w :
  wp (applyStateTrivial env r)
     (λ r' w',
        ∃ d, r' = storagepb.ReplicatedEvalResult.set_RaftLogDelta d
                    (storagepb.ReplicatedEvalResult.set_State
                       (match storagepb.ReplicatedEvalResult.State r with
                        | Some st => packState (trivialState (usingKey w) st)
                        | None => None
                        end) r)) w.
Proof.
  unfold applyStateTrivial.
  destruct (storagepb.ReplicatedEvalResult.State r) as [st|] eqn:Est.
  2: { apply wp_ret. exists (storagepb.ReplicatedEvalResult.RaftLogDelta r).
       destruct r; cbn in *. by subst. }
  apply wp_bind.
  apply (wp_mono _ (λ p w1,
           fst p = storagepb.ReplicaState.set_TruncatedState None st
           ∧ (∃ d, snd p = storagepb.ReplicatedEvalResult.set_RaftLogDelta d r)
           ∧ usingKey w1 = usingKey w)).
  2: { destruct (storagepb.ReplicaState.TruncatedState st) as [tr|] eqn:Etr.
       - unfold wp, modifyState, usingKey. run_unfold.
         destruct (TruncateTo env (succU64 (storagepb.Index tr))) as [size [err|]];
           cbn; (split; [done|]); (split; [|by destruct w as [[? ? [] ? ?] ? ?]]).
         + exists (storagepb.ReplicatedEvalResult.RaftLogDelta r). by destruct r.
         + by eexists.
       - apply wp_ret. cbn. split; [|split; [|done]].
         + destruct st; cbn in *. by subst.
         + exists (storagepb.ReplicatedEvalResult.RaftLogDelta r). by destruct r. }
  intros [st1 r1] w1 (Hst1 & [d Hr1] & Hu). cbn in Hst1, Hr1. subst st1 r1.
  apply wp_bind.
  set (st2 := match storagepb.ReplicaState.Stats _ with Some _ => _ | None => _ end).
  apply (wp_mono _ (λ st3 _,
           st3 = if storagepb.ReplicaState.UsingAppliedStateKey st2 && usingKey w
                 then storagepb.ReplicaState.set_UsingAppliedStateKey false st2 else st2)).
  2: { unfold wp, usingKey in *. run_unfold. rewrite <- Hu.
       destruct (storagepb.ReplicaState.UsingAppliedStateKey st2); cbn; [|done].
       by destruct (storagepb.ReplicaState.UsingAppliedStateKey (ReplicaMu.state (mu w1))). }
  intros st3 w2 ->.
  change (if storagepb.ReplicaState.UsingAppliedStateKey st2 && usingKey w
          then storagepb.ReplicaState.set_UsingAppliedStateKey false st2 else st2)
    with (trivialState (usingKey w) st).
  unfold packState.
  destruct (storagepb.ReplicaState.isZero (trivialState (usingKey w) st));
    apply wp_ret; exists d; by destruct r.
Qed.


Lemma returns_if_set {A} (c : bool) (m : Exec unit) (x y : A) :
  returns (if c then m;; mret x else mret y) (λ a, a = if c then x else y).
Proof. destruct c; [apply returns_seq|]; by apply returns_ret. Qed.

Lemma returns_match_set {A B} (o : option B) (m : B → Exec unit) (x : B → A) (y : A) :
  returns (match o with Some b => m b;; mret (x b) | None => mret y end)
          (λ a, a = match o with Some b => x b | None => y end).
Proof. destruct o; [apply returns_seq|]; by apply returns_ret. Qed.

Lemma returns_when_fatalf (c : bool) msg :
  returns (when c (fatalf msg)) (λ _, c = false).
Proof. by destruct c. Qed.

Lemma applyTrivial_wp env (r : RER) i j w :
  wp (applyTrivial env r i j) (λ r' _, r' = afterTrivial (usingKey w) r) w.
Proof.
  unfold applyTrivial. apply wp_bind.
  apply (wp_mono _ (λ r1 w1,
           r1 = storagepb.ReplicatedEvalResult.set_BlockReads false (zeroUnhandled r)
           ∧ usingKey w1 = usingKey w)).
  2: { destruct (storagepb.ReplicatedEvalResult.BlockReads (zeroUnhandled r)) eqn:E;
         unfold wp; run_unfold; cbn; (split; [|done]); [done|].
       destruct r; cbn in *. by subst. }
  intros r1 w1 [-> Hu1]. apply wp_bind.
  eapply wp_mono; [|apply applyStats_wp]. intros r2 w2 [-> Hu2]. cbn beta.
  apply wp_bind. eapply wp_mono; [|apply applyStateTrivial_wp]. intros r3 w3 [d ->].
  cbn beta. apply wp_bind.
  match goal with |- wp (applyRaftLogDelta env ?x) _ ?ww =>
    destruct (applyRaftLogDelta_run env x ww) as (w4 & E & _) end.
  unfold wp at 1. rewrite E.
  apply wp_bind. eapply wp_mono; [|apply wp_true]. intros _ w5 _. apply wp_ret.
  rewrite Hu2, Hu1. by destruct r.
Qed.

Lemma applyStateRest_returns env (r : RER) :
  returns (applyStateRest env r)
          (λ r', r' = storagepb.ReplicatedEvalResult.set_State
                        (match storagepb.ReplicatedEvalResult.State r with
                         | Some st => packState (restState st)
                         | None => None
                         end) r).
Proof.
  unfold applyStateRest.
  destruct (storagepb.ReplicatedEvalResult.State r) as [st|] eqn:E.
  2: { apply returns_ret. destruct r; cbn in *. by subst. }
  eapply returns_bind; [apply returns_match_set|]. intros st1 ->.
  eapply returns_bind; [apply returns_match_set|]. intros st2 ->.
  eapply returns_bind; [apply returns_match_set|]. intros st3 ->.
  eapply returns_bind; [apply returns_match_set|]. intros st4 ->.
  eapply returns_bind; [apply returns_if_set|]. intros st5 ->.
  match goal with
  | |- returns (if storagepb.ReplicaState.isZero ?X then _ else _) _ =>
      replace X with (restState st)
        by (destruct st as [rai lai [de|] [le|] tr [gc|] sts [tx|] [|]]; reflexivity)
  end.
  unfold packState.
  destruct (storagepb.ReplicaState.isZero (restState st)); by apply returns_ret.
Qed.

Lemma returns_match_const {A B} (o : option B) (m : B → Exec A) (x : B → A) (y : A) :
  (∀ b, returns (m b) (λ a, a = x b)) →
  returns (match o with Some b => m b | None => mret y end)
          (λ a, a = match o with Some b => x b | None => y end).
Proof. intros Hm. destruct o; [apply Hm | by apply returns_ret]. Qed.

(** Skips the calls made for their effects in front of a returned value. *)
Ltac returns_skip :=
  repeat lazymatch goal with
         | |- returns (mbind _ _) _ => apply returns_seq
         end;
  apply returns_ret; reflexivity.

Lemma applyNontrivial_returns env (r : RER) :
  returns (applyNontrivial env r) (λ r', r' = afterNontrivial r).
Proof.
  unfold applyNontrivial.
  eapply returns_bind; [apply returns_match_const; intros ?; returns_skip|].
  intros r1 ->.
  eapply returns_bind; [apply returns_match_const; intros ?; returns_skip|].
  intros r2 ->.
  eapply returns_bind; [apply applyStateRest_returns|]. intros r3 ->.
  eapply returns_bind; [apply returns_match_const; intros ?; returns_skip|].
  intros r4 ->.
  intros w. eapply wp_mono.
  2: { apply returns_match_const. intros ?; returns_skip. }
  cbn beta. intros r5 _ ->.
  destruct r as [br st [sp|] [mg|] [cc|] lr ts dd d [cr|] rl sst sc pl]; reflexivity.
Qed.


Lemma isNil_packState st : isNil (packState st) = storagepb.ReplicaState.isZero st.
Proof. unfold packState. by destruct (storagepb.ReplicaState.isZero st). Qed.

Lemma restState_trivialState u st : restState (trivialState u st) = unhandledState st.
Proof.
  destruct st as [rai lai de le tr gc [stats|] tx us]; unfold trivialState, restState,
    unhandledState; cbn.
  - destruct (enginepb.isZeroStats stats); cbn; by destruct us, u.
  - by destruct us, u.
Qed.

Lemma restState_zero : restState storagepb.ReplicaState.zero = storagepb.ReplicaState.zero.
Proof. reflexivity. Qed.

Lemma packState_restState u st :
  match packState (trivialState u st) with
  | Some st' => packState (restState st')
  | None => None
  end = packState (unhandledState st).
Proof.
  unfold packState at 1.
  destruct (storagepb.ReplicaState.isZero (trivialState u st)) eqn:E.
  - apply ReplicaState_isZero_true in E.
    by rewrite <- (restState_trivialState u st), E, restState_zero.
  - by rewrite restState_trivialState.
Qed.

(** What both blocks together leave of a result. *)
Lemma afterNontrivial_afterTrivial u (r : RER) :
  afterNontrivial (afterTrivial u r) = unhandled r.
Proof.
  destruct r as [br [st|] sp mg cc lr ts dd d cr rl sst sc pl];
    unfold afterNontrivial, afterTrivial, unhandled;
    cbn -[packState restState trivialState unhandledState]; [|done].
  by rewrite packState_restState.
Qed.

Lemma isZero_trivialState u st :
  storagepb.ReplicaState.isZero (trivialState u st) = negb (nontrivialState u st).
Proof.
  destruct st as [rai lai de le tr gc sts tx us].
  unfold trivialState, nontrivialState, storagepb.ReplicaState.isZero.
  destruct sts as [stats|]; cbn;
    [destruct (enginepb.isZeroStats stats) eqn:E; cbn; rewrite ?E|];
    destruct us, u; cbn; rewrite ?E;
    destruct (rai =? 0), (lai =? 0), de, le, gc, tx; reflexivity.
Qed.

Lemma shouldAssert_afterTrivial u (r : RER) :
  negb (storagepb.ReplicatedEvalResult.EqualZero (afterTrivial u r)) = nontrivial u r.
Proof.
  destruct r as [br st sp mg cc lr ts dd d cr rl sst sc pl].
  unfold afterTrivial, nontrivial, storagepb.ReplicatedEvalResult.EqualZero. cbn.
  assert (Hst : isNil (match st with
                       | Some st => packState (trivialState u st)
                       | None => None
                       end)
                = negb (match st with Some st => nontrivialState u st | None => false end)).
  { destruct st as [st|]; [|done]. by rewrite isNil_packState, isZero_trivialState. }
  rewrite Hst.
  destruct (match st with Some st => nontrivialState u st | None => false end),
    sp, mg, cc, dd, cr, sst; reflexivity.
Qed.

(** The run of [handleReplicatedEvalResult] up to its final check: the value
    of [shouldAssert] and what is left of the result. *)
Lemma handleReplicatedEvalResult_apply_wp env (r : RER) i j w :
  wp (handleReplicatedEvalResult_apply env r i j)
     (λ '(shouldAssert, rest) _,
        shouldAssert = nontrivial (usingKey w) r ∧ rest = unhandled r) w.
Proof.
  unfold handleReplicatedEvalResult_apply. apply wp_bind.
  eapply wp_mono; [|apply applyTrivial_wp]. intros r1 w1 ->. cbn beta.
  apply wp_bind. eapply wp_mono; [|apply applyNontrivial_returns].
  intros r2 w2 ->. apply wp_ret.
  by rewrite shouldAssert_afterTrivial, afterNontrivial_afterTrivial.
Qed.

Lemma updateTxns_returns txns (l : LocalResult) :
  returns (updateTxns txns l)
          (λ l', l' = match txns with
                      | [] => l
                      | _ :: _ => result.LocalResult.set_UpdatedTxns None l
                      end).
Proof.
  revert l. induction txns as [|txn txns IH]; intros l; cbn.
  - by apply returns_ret.
  - apply returns_seq. intros w. eapply wp_mono; [|apply IH].
    intros l' _ ->. by destruct txns.
Qed.

Lemma handleLocalEvalResult_apply_returns env (l : LocalResult) :
  returns (handleLocalEvalResult_apply env l)
          (λ rest, rest = unhandledLocal l
                   ∧ result.LocalResult.Intents l = None
                   ∧ result.LocalResult.EndTxns l = None).
Proof.
  unfold handleLocalEvalResult_apply.
  eapply returns_bind; [apply returns_when_fatalf|]. intros [] HI.
  eapply returns_bind; [apply returns_when_fatalf|]. intros [] HE.
  apply negb_false_iff, isNil_true in HI, HE. cbn in HI, HE.
  eapply returns_bind; [apply returns_if_set|]. intros l1 ->.
  eapply returns_bind; [apply returns_if_set|]. intros l2 ->.
  eapply returns_bind; [apply returns_if_set|]. intros l3 ->.
  eapply returns_bind; [apply returns_match_set|]. intros l4 ->.
  eapply returns_bind; [apply returns_match_set|]. intros l5 ->.
  match goal with |- returns (match ?o with _ => _ end) _ => destruct o as [txns|] eqn:EU end.
  - intros w. eapply wp_mono; [|apply updateTxns_returns]. intros l' _ ->.
    destruct l as [rp it et [me|] [|] [|] [|] [nl|] ut]; cbn in *; subst;
      destruct txns; done.
  - apply returns_ret.
    destruct l as [rp it et [me|] [|] [|] [|] [nl|] ut]; cbn in *; subst; done.
Qed.


(** ** Exhaustion *)

(** C1: when the replicated-result applier reaches its last statement, what
    is left of the result is the part it has no action for; if that is the
    zero value, every field is zero and the applier returns, and if not the
    process ends with a fatal error.  The same holds of the local-result
    applier, whose reply field is zeroed up front. *)
Theorem exhaustion_enforced (env : Env) (w : World) (rResult : RER) (i j : Z)
  (lResult : LocalResult) :
  match handleReplicatedEvalResult_apply env rResult i j w with
  | Ok ((shouldAssert, rest), w') =>
      rest = unhandled rResult
      ∧ if storagepb.ReplicatedEvalResult.EqualZero rest then
          rest = storagepb.ReplicatedEvalResult.zero
          ∧ ∃ w'', handleReplicatedEvalResult env rResult i j w = Ok (shouldAssert, w'')
        else
          handleReplicatedEvalResult env rResult i j w
          = Fatal "unhandled field in ReplicatedEvalResult"
  | Fatal msg => handleReplicatedEvalResult env rResult i j w = Fatal msg
  | Panic msg => handleReplicatedEvalResult env rResult i j w = Panic msg
  end
  ∧ match handleLocalEvalResult_apply env lResult w with
    | Ok (rest, w') =>
        rest = unhandledLocal lResult
        ∧ if result.LocalResult.isZero rest then
            rest = result.LocalResult.zero
            ∧ handleLocalEvalResult env lResult w = Ok (tt, w')
          else
            handleLocalEvalResult env lResult w = Fatal "unhandled field in LocalEvalResult"
    | Fatal msg => handleLocalEvalResult env lResult w = Fatal msg
    | Panic msg => handleLocalEvalResult env lResult w = Panic msg
    end.
Proof.
  split.
  - pose proof (handleReplicatedEvalResult_apply_wp env rResult i j w) as Hwp.
    unfold handleReplicatedEvalResult, mbind, Exec_bind. unfold wp in Hwp.
    destruct (handleReplicatedEvalResult_apply env rResult i j w)
      as [[[sa rest] w']|msg|msg]; [|done..].
    destruct Hwp as [_ Hrest]. split; [done|].
    destruct (storagepb.ReplicatedEvalResult.EqualZero rest) eqn:E; cbn [negb]; [|done].
    split; [by apply EqualZero_true|].
    destruct (storagepb.ReplicatedEvalResult.BlockReads rResult); run_unfold; by eexists.
  - pose proof (handleLocalEvalResult_apply_returns env lResult w) as Hwp.
    unfold handleLocalEvalResult, mbind, Exec_bind. unfold wp in Hwp.
    destruct (handleLocalEvalResult_apply env lResult w) as [[rest w']|msg|msg]; [|done..].
    destruct Hwp as [Hrest _]. split; [done|].
    destruct (result.LocalResult.isZero rest) eqn:E; cbn [negb]; [|done].
    split; [by apply LocalResult_isZero_true|done].
Qed.

(** A result that only carries statistics is exhausted. *)
Example handleReplicatedEvalResult_delta10 :
  handleReplicatedEvalResult_apply env0 rDelta10 6 6 world0
  = Ok ((false, storagepb.ReplicatedEvalResult.zero), worldDelta10)
  ∧ handleReplicatedEvalResult env0 rDelta10 6 6 world0 = Ok (false, worldDelta10).
Proof. split; vm_compute; reflexivity. Qed.

(** A result that still carries its SSTable ends the process. *)
Example handleReplicatedEvalResult_sstable :
  handleReplicatedEvalResult env0 rSSTable 6 6 world0
  = Fatal "unhandled field in ReplicatedEvalResult".
Proof. vm_compute. reflexivity. Qed.

(** A list of updated transactions that is set and empty is not cleared. *)
Example handleLocalEvalResult_empty_UpdatedTxns :
  handleLocalEvalResult env0 lEmptyUpdatedTxns world0
  = Fatal "unhandled field in LocalEvalResult".
Proof. vm_compute. reflexivity. Qed.

(** ** The state assertion *)

Lemma nontrivial_nonZeroExceptTrivial u (r : RER) :
  nontrivial u r = true → nonZeroExceptTrivial r = true.
Proof.
  intros Hn. unfold nonZeroExceptTrivial. apply negb_true_iff, not_true_is_false.
  intros E. apply EqualZero_true in E. revert Hn.
  destruct r as [br st sp mg cc lr ts dd d cr rl sst sc pl].
  unfold excludeTrivial, storagepb.ReplicatedEvalResult.zero in E. cbn in E.
  injection E as -> Hst -> -> -> -> -> -> -> -> -> ->.
  unfold nontrivial. cbn. rewrite !orb_false_r.
  destruct st as [st|]; [|done].
  assert (Hz : storagepb.ReplicaState.isZero
                 (storagepb.ReplicaState.set_TruncatedState None st) = true).
  { unfold packState in Hst. by destruct (storagepb.ReplicaState.isZero _). }
  apply ReplicaState_isZero_true in Hz.
  destruct st as [rai lai de le tr gc sts tx us].
  injection Hz as -> -> -> -> -> -> -> ->. by destruct u.
Qed.

(** C4, as the code has it: the boolean that [handleReplicatedEvalResult]
    returns is set exactly when the result, once the fields without action
    (lease request marker, timestamp, previous lease proposal), the block
    of reads, the statistics delta, the truncated state, statistics that
    are zero, the applied state key flag of a replica that uses the key
    already, the Raft log delta and the suggested compactions are taken out,
    is not zero.  A result that is zero without its statistics delta, its
    truncated state and its Raft log delta yields [false]. *)
Theorem shouldAssert_nontrivial (env : Env) (rResult : RER) (i j : Z) (w w' : World)
  (shouldAssert : bool)
  (Hrun : handleReplicatedEvalResult env rResult i j w = Ok (shouldAssert, w')) :
  shouldAssert = nontrivial (usingKey w) rResult
  ∧ shouldAssert
    = negb (storagepb.ReplicatedEvalResult.EqualZero (afterTrivial (usingKey w) rResult))
  ∧ (nonZeroExceptTrivial rResult = false → shouldAssert = false).
Proof.
  pose proof (handleReplicatedEvalResult_apply_wp env rResult i j w) as Hwp.
  unfold handleReplicatedEvalResult, mbind, Exec_bind in Hrun. unfold wp in Hwp.
  destruct (handleReplicatedEvalResult_apply env rResult i j w)
    as [[[sa rest] w1]|msg|msg]; [|done..].
  destruct Hwp as [Hsa _].
  assert (sa = shouldAssert) as <-.
  { destruct (negb (storagepb.ReplicatedEvalResult.EqualZero rest)); [done|].
    revert Hrun. destruct (storagepb.ReplicatedEvalResult.BlockReads rResult);
      run_unfold; by intros [= -> _]. }
  split; [done|]. split; [by rewrite shouldAssert_afterTrivial|].
  intros Hz. rewrite Hsa. apply not_true_is_false. intros Hn.
  apply nontrivial_nonZeroExceptTrivial in Hn. congruence.
Qed.

Lemma shouldAssert_nontrivial_witness :
  handleReplicatedEvalResult env0 rDelta10 6 6 world0 = Ok (false, worldDelta10)
  ∧ false = nontrivial (usingKey world0) rDelta10.
Proof.
  assert (H : handleReplicatedEvalResult env0 rDelta10 6 6 world0 = Ok (false, worldDelta10))
    by (vm_compute; reflexivity).
  split; [exact H|].
  exact (proj1 (shouldAssert_nontrivial env0 rDelta10 6 6 world0 worldDelta10 false H)).
Defined.

(** C4, as stated, fails: a result whose only update is a suggested
    compaction is not zero once the statistics delta, the truncated state
    and the Raft log delta are excluded, and the applier returns [false]. *)
Lemma shouldAssert_counterexample :
  nonZeroExceptTrivial rCompaction = true
  ∧ ∃ w', handleReplicatedEvalResult env0 rCompaction 6 6 world0 = Ok (false, w').
Proof.
  split; [reflexivity|]. eexists. vm_compute. reflexivity.
Qed.

(** * Further properties *)

(** ** Proposal completion, continued *)

Lemma signalProposalResult_run p pr w :
  signalProposalResult p pr w =
  Ok (ProposalData.set_doneCh None p,
      mkWorld (mu w) (trace w ++ sendEvents p pr) (chans w)).
Proof.
  destruct p as [sp idKey ticks cmd ec ch loc req], w as [m t n].
  unfold signalProposalResult, sendEvents.
  destruct ch; run_unfold; cbn; rewrite ?app_nil_r; reflexivity.
Qed.

(** X1: when the result was signalled ahead of the completion,
    [finishApplication] still runs the latch-release hook with its own
    result and finishes the span, but sends nothing more: the waiter gets
    the first result only. *)
Theorem signal_then_finish (p : ProposalData.t) (pr1 pr2 : proposalResult) (w : World) :
  signalThenFinish p pr1 pr2 w =
  Ok (ProposalData.set_doneCh None (ProposalData.set_endCmds None p),
      mkWorld (mu w)
              (trace w ++ sendEvents p pr1 ++ hookEvents p pr2 ++ spanEvents p)
              (chans w)).
Proof.
  unfold signalThenFinish, mbind, Exec_bind.
  rewrite signalProposalResult_run, finishApplication_run.
  destruct p as [sp idKey ticks cmd ec ch loc req], w as [m t n].
  unfold hookEvents, spanEvents, sendEvents.
  destruct ec, sp, ch; cbn; rewrite <- ?app_assoc, ?app_nil_r; reflexivity.
Qed.

(** ** The checksum map, continued *)

Lemma expired_max now1 now2 val :
  expired (Z.max now1 now2) val = expired now1 val || expired now2 val.
Proof.
  unfold expired, time.After. destruct (negb (time.IsZero (gcTimestamp val))); cbn; [|done].
  destruct (gcTimestamp val <? now1) eqn:E1, (gcTimestamp val <? now2) eqn:E2;
    rewrite ?Z.ltb_lt, ?Z.ltb_ge in *; cbn;
    [apply Z.ltb_lt|apply Z.ltb_lt|apply Z.ltb_lt|apply Z.ltb_ge]; lia.
Qed.

(** X2: the collection never adds or changes an entry, and collecting at
    two instants is collecting once at the later of the two; in particular
    a second collection at the same instant changes nothing. *)
Theorem gc_submap_and_compose (now1 now2 : time.Time) (m : gmap UUID ReplicaChecksum) :
  gcOldChecksumEntriesLocked now1 m ⊆ m
  ∧ gcOldChecksumEntriesLocked now2 (gcOldChecksumEntriesLocked now1 m)
    = gcOldChecksumEntriesLocked (Z.max now1 now2) m
  ∧ gcOldChecksumEntriesLocked now1 (gcOldChecksumEntriesLocked now1 m)
    = gcOldChecksumEntriesLocked now1 m.
Proof.
  assert (Hcomp : ∀ a b,
            gcOldChecksumEntriesLocked b (gcOldChecksumEntriesLocked a m)
            = gcOldChecksumEntriesLocked (Z.max a b) m).
  { intros a b. apply map_eq. intros id.
    rewrite !gcOldChecksumEntriesLocked_lookup.
    destruct (m !! id) as [val|]; [|done]. rewrite expired_max.
    destruct (expired a val); [done|]. cbn. by destruct (expired b val). }
  split; [|split].
  - apply map_subseteq_spec. intros id val.
    rewrite gcOldChecksumEntriesLocked_lookup.
    destruct (m !! id) as [val'|]; [|done]. by destruct (expired now1 val').
  - apply Hcomp.
  - rewrite Hcomp. by rewrite Z.max_id.
Qed.

(** X3: whatever the part of [computeChecksumPostApply] under the mutex
    returns, it has installed the in-progress entry at the id of the command
    and has left any other id as the collection leaves it: untouched, or
    deleted when expired. *)
Theorem computeChecksum_other_entries (now : time.Time) (cc : storagepb.ComputeChecksum)
  (w w' : World) (desc : roachpb.RangeDescriptor) (id : UUID)
  (Hrun : computeChecksumPostApply_locked now cc w = Ok (desc, w'))
  (Hid : id ≠ storagepb.ChecksumID cc) :
  ReplicaMu.checksums (mu w') !! id
  = match ReplicaMu.checksums (mu w) !! id with
    | Some val => if expired now val then None else Some val
    | None => None
    end
  ∧ (∃ n, ReplicaMu.checksums (mu w') !! storagepb.ChecksumID cc = Some (inProgress n))
  ∧ ReplicaMu.state (mu w') = ReplicaMu.state (mu w)
  ∧ trace w' = trace w.
Proof.
  assert (HD : ∃ d, storagepb.ReplicaState.Desc (ReplicaMu.state (mu w)) = Some d).
  { revert Hrun. unfold computeChecksumPostApply_locked. run_unfold.
    destruct w as [m t n]. cbn [mu trace chans].
    destruct (ReplicaMu.checksums m !! storagepb.ChecksumID cc) as [c|];
      [destruct (started c); cbn; [done|]|cbn];
      destruct m as [? ? st ? ?]; cbn;
      destruct (storagepb.ReplicaState.Desc st); eauto; done. }
  destruct HD as [d HD].
  rewrite (computeChecksumPostApply_locked_run now cc w d HD) in Hrun.
  rewrite <- gcOldChecksumEntriesLocked_lookup.
  destruct (ReplicaMu.checksums (mu w) !! storagepb.ChecksumID cc) as [c|];
    [destruct (started c); [done|]|];
    injection Hrun as <- <-; cbn;
    rewrite lookup_insert_ne by done; rewrite lookup_insert_eq;
    (split; [done|]); (split; [by eexists|]); by destruct (mu w).
Qed.

Lemma computeChecksum_other_entries_witness :
  computeChecksumPostApply_locked 101 cc42 worldWaiting
  = Ok (desc0,
        mkWorld (ReplicaMu.set_checksums
                   (<[42%N := inProgress (Some 3%nat)]>
                      (gcOldChecksumEntriesLocked 101 (ReplicaMu.checksums muWaiting)))
                   muWaiting) [] 4)
  ∧ 41%N ≠ storagepb.ChecksumID cc42
  ∧ ReplicaMu.checksums
      (ReplicaMu.set_checksums
         (<[42%N := inProgress (Some 3%nat)]>
            (gcOldChecksumEntriesLocked 101 (ReplicaMu.checksums muWaiting)))
         muWaiting) !! 41%N = None.
Proof.
  assert (Hrun : computeChecksumPostApply_locked 101 cc42 worldWaiting
                 = Ok (desc0,
                       mkWorld (ReplicaMu.set_checksums
                                  (<[42%N := inProgress (Some 3%nat)]>
                                     (gcOldChecksumEntriesLocked 101
                                        (ReplicaMu.checksums muWaiting)))
                                  muWaiting) [] 4)) by reflexivity.
  assert (Hid : 41%N ≠ storagepb.ChecksumID cc42) by discriminate.
  split; [exact Hrun|]. split; [exact Hid|].
  exact (proj1 (computeChecksum_other_entries 101 cc42 worldWaiting _ desc0 41%N Hrun Hid)).
Defined.



(** ** What a run appends to the trace *)

Lemma appends_mono {A} (m : Exec A) (Q Q' : A → list Event → Prop) :
  (∀ a t, Q a t → Q' a t) → appends m Q → appends m Q'.
Proof.
  intros HQ Hm w. eapply wp_mono; [|apply Hm].
  intros a w' (t & Ht & Hq). eauto.
Qed.

Lemma appends_bind {A B} (m : Exec A) (k : A → Exec B) (Q1 : A → list Event → Prop)
  (Q : B → list Event → Prop) :
  appends m Q1 →
  (∀ a t1, Q1 a t1 → appends (k a) (λ b t2, Q b (t1 ++ t2)%list)) →
  appends (m ≫= k) Q.
Proof.
  intros Hm Hk w. apply wp_bind. eapply wp_mono; [|apply Hm].
  intros a w1 (t1 & Ht1 & H1). eapply wp_mono; [|by apply (Hk a t1)].
  intros b w2 (t2 & Ht2 & H2). exists (t1 ++ t2)%list.
  split; [|done]. by rewrite Ht2, Ht1, app_assoc.
Qed.

Lemma appends_ret {A} (a : A) (Q : A → list Event → Prop) : Q a [] → appends (mret a) Q.
Proof. intros HQ w. exists []. by rewrite app_nil_r. Qed.

Lemma appends_emit e (Q : unit → list Event → Prop) : Q tt [e] → appends (emit e) Q.
Proof. intros HQ w. by exists [e]. Qed.

Lemma never_ret {A} p (a : A) : never p (mret a).
Proof. by apply appends_ret. Qed.

Lemma never_emit p e : p e = false → never p (emit e).
Proof. intros Hp. apply appends_emit. by constructor. Qed.

Lemma never_fatalf {A} p msg : never p (fatalf (A:=A) msg).
Proof. by intros w. Qed.

Lemma never_panic {A} p msg : never p (panic (A:=A) msg).
Proof. by intros w. Qed.

Lemma never_getMu p : never p getMu.
Proof. intros w. exists []. by rewrite app_nil_r. Qed.

Lemma never_modifyMu p f : never p (modifyMu f).
Proof. intros w. exists []. cbn. by rewrite app_nil_r. Qed.

Lemma never_makeChan p : never p makeChan.
Proof. intros w. exists []. cbn. by rewrite app_nil_r. Qed.

Lemma never_bind {A B} p (m : Exec A) (k : A → Exec B) :
  never p m → (∀ a, never p (k a)) → never p (m ≫= k).
Proof.
  intros Hm Hk. eapply appends_bind; [exact Hm|].
  intros a t1 H1. eapply appends_mono; [|apply Hk].
  intros b t2 H2. by apply Forall_app.
Qed.

Lemma never_when p c body : never p body → never p (when c body).
Proof. destruct c; [done|]. intros _. apply never_ret. Qed.

Lemma never_forEach {A} p (l : list A) body :
  (∀ x, never p (body x)) → never p (forEach l body).
Proof.
  intros Hb. induction l as [|x l IH]; simpl.
  - apply never_ret.
  - apply never_bind; [apply Hb | intros _; apply IH].
Qed.

Lemma never_updateTxns p txns l :
  (∀ txn, p (EvTxnWaitQueueUpdateTxn txn) = false) → never p (updateTxns txns l).
Proof.
  intros Hp. revert l. induction txns as [|txn txns IH]; intros l; simpl.
  - apply never_ret.
  - apply never_bind; [by apply never_emit | intros _; apply IH].
Qed.

(** Structural steps of a proof that a run never appends a kind of event. *)
Ltac never_step :=
  lazymatch goal with
  | |- never _ (mbind _ _) => apply never_bind; [|intros ?]
  | |- never _ (mret _) => apply never_ret
  | |- never _ (fatalf _) => apply never_fatalf
  | |- never _ (panic _) => apply never_panic
  | |- never _ getMu => apply never_getMu
  | |- never _ (emit _) => apply never_emit; reflexivity
  | |- never _ makeChan => apply never_makeChan
  | |- never _ (modifyState _) => apply never_modifyMu
  | |- never _ (modifyMu _) => apply never_modifyMu
  | |- never _ (when _ _) => apply never_when
  | |- never _ (forEach _ _) => apply never_forEach; intros ?
  | |- never _ (updateTxns _ _) => apply never_updateTxns; reflexivity
  | |- never _ (let _ := _ in _) => cbv zeta
  | |- never _ (match ?x with _ => _ end) => destruct x
  end.
Ltac never_tac := repeat never_step.

(** Unfolds the call tree of the appliers. *)
Ltac unfold_appliers :=
  unfold handleEvalResultRaftMuLocked, handleReplicatedEvalResult, handleLocalEvalResult,
    handleReplicatedEvalResult_apply, handleLocalEvalResult_apply, applyTrivial,
    applyNontrivial, applyStats, applyStateTrivial, applyRaftLogDelta, applyStateRest,
    setDesc, leasePostApply, leasePostApply_takeover, leaseSequenceCheck, installLease,
    leasePostApply_notify, computeChecksumPostApply, computeChecksumPostApply_locked.

(** ** Lease installation, continued *)

(** X5: the sequence check lets a new lease through in four cases only: the
    previous sequence is zero, the sequences are equal and the leases
    equivalent, the new sequence is the successor, or it is further ahead
    and the caller permits the jump.  In every other case the process
    ends. *)
Theorem leaseSequenceCheck_passes_iff (env : Env) (prevLease newLease : roachpb.Lease.t)
  (permitJump : bool) (w : World)
  (H1 : int64 (roachpb.Lease.Sequence prevLease))
  (H2 : int64 (roachpb.Lease.Sequence newLease)) :
  let s1 := roachpb.Lease.Sequence prevLease in
  let s2 := roachpb.Lease.Sequence newLease in
  let passes :=
    s1 = 0 ∨ (s2 = s1 ∧ Equivalent env prevLease newLease = true)
    ∨ s2 = s1 + 1 ∨ (s1 + 1 < s2 ∧ permitJump = true) in
  (leaseSequenceCheck env prevLease newLease permitJump w = Ok (tt, w) ↔ passes)
  ∧ (crashes (leaseSequenceCheck env prevLease newLease permitJump) w ↔ ¬ passes).
Proof.
  intros s1 s2 passes.
  rewrite (leaseSequenceCheck_run env prevLease newLease permitJump w H1 H2).
  unfold crashes.
  rewrite (leaseSequenceCheck_run env prevLease newLease permitJump w H1 H2).
  cbn zeta. fold s1 s2.
  assert (Hpass : passes →
            (Ok (tt, w) = Ok (tt, w) ↔ passes)
            ∧ ((∃ msg, Ok (tt, w) = Fatal (A:=unit * World) msg) ↔ ¬ passes)).
  { intros HP. split; [done|]. split; [by intros [? ?]|done]. }
  assert (Hcrash : ∀ m, ¬ passes →
            (Fatal m = Ok (tt, w) ↔ passes)
            ∧ ((∃ msg, Fatal (A:=unit * World) m = Fatal msg) ↔ ¬ passes)).
  { intros m HN. split; [done|]. split; [done|]. intros _. by eexists. }
  subst passes. clear H1 H2. clearbody s1 s2.
  generalize dependent (Equivalent env prevLease newLease). intros eqv Hpass Hcrash.
  destruct (decide (s1 = 0)); [apply Hpass; by left|].
  destruct (decide (s2 < s1)).
  { apply Hcrash. intros [?|[[? ?]|[?|[? ?]]]]; lia. }
  destruct (decide (s2 = s1)).
  { destruct eqv; [apply Hpass; right; left; done|].
    apply Hcrash. intros [?|[[? ?]|[?|[? ?]]]]; (done || lia). }
  destruct (decide (s2 = s1 + 1)); [apply Hpass; right; right; left; done|].
  destruct permitJump.
  - apply Hpass. right; right; right. split; [lia|done].
  - apply Hcrash. intros [?|[[? ?]|[?|[? ?]]]]; (done || lia).
Qed.

Lemma leaseSequenceCheck_passes_iff_witness :
  int64 (roachpb.Lease.Sequence lease0)
  ∧ int64 (roachpb.Lease.Sequence lease1)
  ∧ (leaseSequenceCheck env0 lease0 lease1 false world0 = Ok (tt, world0)
     ↔ roachpb.Lease.Sequence lease0 = 0
       ∨ (roachpb.Lease.Sequence lease1 = roachpb.Lease.Sequence lease0
          ∧ Equivalent env0 lease0 lease1 = true)
       ∨ roachpb.Lease.Sequence lease1 = roachpb.Lease.Sequence lease0 + 1
       ∨ (roachpb.Lease.Sequence lease0 + 1 < roachpb.Lease.Sequence lease1
          ∧ false = true)).
Proof.
  assert (H1 : int64 (roachpb.Lease.Sequence lease0)) by (unfold int64; cbn; lia).
  assert (H2 : int64 (roachpb.Lease.Sequence lease1)) by (unfold int64; cbn; lia).
  split; [exact H1|]. split; [exact H2|].
  exact (proj1 (leaseSequenceCheck_passes_iff env0 lease0 lease1 false world0 H1 H2)).
Defined.

(** A run of [leasePostApply] that returns found a previous lease and
    changed one field of the replica: the lease. *)
Lemma leasePostApply_ok_inv env newLease permitJump w w1 :
  leasePostApply env newLease permitJump w = Ok (tt, w1) →
  ∃ prevLease t,
    storagepb.ReplicaState.Lease (ReplicaMu.state (mu w)) = Some prevLease
    ∧ w1 = mkWorld (withLease newLease (mu w)) (trace w ++ t) (chans w).
Proof.
  intros Hrun.
  destruct (storagepb.ReplicaState.Lease (ReplicaMu.state (mu w))) as [prevLease|] eqn:E.
  - destruct (leasePostApply_run env newLease permitJump w prevLease E) as [t Ht].
    rewrite Ht in Hrun. exists prevLease, t. split; [done|].
    destruct (if takesOver _ _ _ then _ else _); [done|].
    destruct (leaseSequenceCheck env prevLease newLease permitJump w) as [[[] ?]|?|?];
      [|done..].
    by injection Hrun as <-.
  - revert Hrun. unfold leasePostApply.
    unfold mbind at 1, Exec_bind at 1, getMu.
    unfold mbind at 1, Exec_bind at 1. by rewrite E.
Qed.

(** X6: [leasePostApply] can be called again for the lease it has just
    installed, as long as the lease is equivalent to itself or has sequence
    zero: the second call returns, whatever [permitJump] and the
    collaborators are, and leaves the fields of the replica as they are. *)
Theorem leasePostApply_reapply (env env' : Env) (newLease : roachpb.Lease.t)
  (permitJump permitJump' : bool) (w w1 : World)
  (Hrun : leasePostApply env newLease permitJump w = Ok (tt, w1))
  (Hrefl : roachpb.Lease.Sequence newLease = 0 ∨ Equivalent env' newLease newLease = true) :
  ∃ t, leasePostApply env' newLease permitJump' w1
       = Ok (tt, mkWorld (mu w1) (trace w1 ++ t) (chans w1)).
Proof.
  destruct (leasePostApply_ok_inv _ _ _ _ _ Hrun) as (prev & t0 & _ & ->).
  assert (HL : storagepb.ReplicaState.Lease
                 (ReplicaMu.state (withLease newLease (mu w))) = Some newLease).
  { by destruct (mu w) as [? ? [] ? ?]. }
  set (w1 := mkWorld (withLease newLease (mu w)) (trace w ++ t0) (chans w)).
  destruct (leasePostApply_run env' newLease permitJump' w1 newLease HL) as [t Ht].
  exists t. rewrite Ht.
  assert (takesOver (mu w1) newLease newLease = false) as ->.
  { unfold takesOver. by rewrite !Z.eqb_refl. }
  assert (leaseSequenceCheck env' newLease newLease permitJump' w1 = Ok (tt, w1)) as ->.
  { unfold leaseSequenceCheck.
    destruct (roachpb.Lease.Sequence newLease =? 0) eqn:E0; [done|]. cbn [negb].
    rewrite Z.ltb_irrefl, Z.eqb_refl.
    destruct Hrefl as [H0|H0]; [by apply Z.eqb_neq in E0|]. by rewrite H0. }
  replace (withLease newLease (mu w1)) with (mu w1); [done|].
  subst w1. cbn. by destruct (mu w) as [? ? [] ? ?].
Qed.

Lemma leasePostApply_reapply_witness :
  (∃ w1, leasePostApply env0 lease1 false world0 = Ok (tt, w1)
         ∧ ∃ t, leasePostApply env0 lease1 false w1
                = Ok (tt, mkWorld (mu w1) (trace w1 ++ t) (chans w1))).
Proof.
  assert (Hrun : leasePostApply env0 lease1 false world0
                 = Ok (tt, match leasePostApply env0 lease1 false world0 with
                           | Ok (_, w1) => w1
                           | _ => world0
                           end)) by (vm_compute; reflexivity).
  eexists. split; [exact Hrun|].
  exact (leasePostApply_reapply env0 env0 lease1 false false world0 _ Hrun
           (or_intror eq_refl)).
Defined.

Lemma never_to_wp {A} p (m : Exec A) w :
  never p m →
  wp m (λ _ w', ∃ t, trace w' = (trace w ++ t)%list ∧ Forall (λ e, p e = false) t) w.
Proof. intros H. apply H. Qed.

(** Steps that also drop the [if] blocks whose condition is [false]. *)
Ltac never_step' :=
  lazymatch goal with
  | |- never ?p (when false ?b) => change (never p (mret tt)); apply never_ret
  | |- never ?p (when true ?b) => change (never p b)
  | |- _ => never_step
  end.
Ltac never_tac' := repeat never_step'.

Lemma leasePostApply_never_clear env newLease permitJump w :
  holds w newLease = true →
  wp (leasePostApply env newLease permitJump)
     (λ _ w', ∃ t, trace w' = (trace w ++ t)%list
                   ∧ Forall (λ e, isTxnWaitQueueClear e = false) t) w.
Proof.
  intros E. unfold leasePostApply. apply wp_bind, wp_getMu. cbv zeta.
  unfold holds in E. rewrite E. apply never_to_wp.
  apply never_bind; [never_tac|]. intros prevLease.
  match goal with
  | |- context [negb (?a =? ?b) || negb (?c =? ?d)] =>
      destruct (negb (a =? b) || negb (c =? d))
  end;
    unfold leasePostApply_takeover, leaseSequenceCheck, installLease, leasePostApply_notify;
    cbn [andb negb]; never_tac'.
Qed.

Lemma leasePostApply_never_enable env newLease permitJump w :
  holds w newLease = false →
  wp (leasePostApply env newLease permitJump)
     (λ _ w', ∃ t, trace w' = (trace w ++ t)%list
                   ∧ Forall (λ e, isTxnWaitQueueEnable e = false) t) w.
Proof.
  intros E. unfold leasePostApply. apply wp_bind, wp_getMu. cbv zeta.
  unfold holds in E. rewrite E. apply never_to_wp.
  apply never_bind; [never_tac|]. intros prevLease.
  match goal with
  | |- context [negb (?a =? ?b) || negb (?c =? ?d)] =>
      destruct (negb (a =? b) || negb (c =? d))
  end;
    unfold leasePostApply_takeover, leaseSequenceCheck, installLease, leasePostApply_notify;
    cbn [andb negb]; never_tac'.
Qed.

Lemma happens_here {A B} e (m : Exec A) (k : A → Exec B) :
  appends m (λ _ t, In e t) → (∀ a, never (λ _, false) (k a)) →
  appends (m ≫= k) (λ _ t, In e t).
Proof.
  intros Hm Hk. eapply appends_bind; [exact Hm|].
  intros a t1 H1. eapply appends_mono; [|apply Hk].
  intros b t2 _. apply in_app_iff. by left.
Qed.

Lemma happens_later {A B} e (m : Exec A) (k : A → Exec B) :
  never (λ _, false) m → (∀ a, appends (k a) (λ _ t, In e t)) →
  appends (m ≫= k) (λ _ t, In e t).
Proof.
  intros Hm Hk. eapply appends_bind; [exact Hm|].
  intros a t1 _. eapply appends_mono; [|apply Hk].
  intros b t2 H2. apply in_app_iff. by right.
Qed.

Lemma leasePostApply_notify_enables env prevLease newLease lch expiring :
  appends (leasePostApply_notify env prevLease newLease lch true expiring)
          (λ _ t, In EvTxnWaitQueueEnable t).
Proof.
  unfold leasePostApply_notify.
  do 5 (apply happens_later; [never_tac|intros ?]).
  apply happens_here; [|intros ?; never_tac].
  change (when true ?b) with b.
  do 2 (apply happens_later; [never_tac|intros ?]).
  apply happens_here; [|intros ?; never_tac].
  apply appends_emit. by left.
Qed.

Lemma leasePostApply_enables env newLease permitJump w :
  holds w newLease = true →
  wp (leasePostApply env newLease permitJump)
     (λ _ w', ∃ t, trace w' = (trace w ++ t)%list ∧ In EvTxnWaitQueueEnable t) w.
Proof.
  intros E. unfold leasePostApply. apply wp_bind, wp_getMu. cbv zeta.
  unfold holds in E. rewrite E.
  match goal with |- wp ?m _ _ =>
    cut (appends m (λ _ t, In EvTxnWaitQueueEnable t)); [intros H; apply H|] end.
  apply happens_later; [never_tac|intros prevLease].
  do 3 (apply happens_later;
        [unfold leasePostApply_takeover, leaseSequenceCheck, installLease; never_tac
        |intros ?]).
  apply leasePostApply_notify_enables.
Qed.

(** X7: a run of [leasePostApply] that returns on the replica that holds
    the new lease has enabled the transaction wait queue and never cleared
    it; on any other replica it never enabled the queue. *)
Theorem leasePostApply_txnWaitQueue (env : Env) (newLease : roachpb.Lease.t)
  (permitJump : bool) (w w' : World)
  (Hrun : leasePostApply env newLease permitJump w = Ok (tt, w')) :
  ∃ t, trace w' = (trace w ++ t)%list
       ∧ if holds w newLease
         then In EvTxnWaitQueueEnable t ∧ Forall (λ e, isTxnWaitQueueClear e = false) t
         else Forall (λ e, isTxnWaitQueueEnable e = false) t.
Proof.
  destruct (holds w newLease) eqn:E.
  - pose proof (wp_ok _ _ _ _ _ (leasePostApply_never_clear env newLease permitJump w E) Hrun)
      as (t & Ht & Hclear).
    pose proof (wp_ok _ _ _ _ _ (leasePostApply_enables env newLease permitJump w E) Hrun)
      as (t' & Ht' & Hen).
    assert (t' = t) as -> by (rewrite Ht in Ht'; by apply app_inv_head in Ht').
    by exists t.
  - exact (wp_ok _ _ _ _ _ (leasePostApply_never_enable env newLease permitJump w E) Hrun).
Qed.

Lemma leasePostApply_txnWaitQueue_witness :
  ∃ w', leasePostApply env0 lease1 false world0 = Ok (tt, w')
        ∧ ∃ t, trace w' = (trace world0 ++ t)%list
               ∧ Forall (λ e, isTxnWaitQueueEnable e = false) t.
Proof.
  assert (Hrun : leasePostApply env0 lease1 false world0
                 = Ok (tt, match leasePostApply env0 lease1 false world0 with
                           | Ok (_, w1) => w1
                           | _ => world0
                           end)) by (vm_compute; reflexivity).
  eexists. split; [exact Hrun|].
  exact (leasePostApply_txnWaitQueue env0 lease1 false world0 _ Hrun).
Defined.

(** ** SSTable pre-apply, continued *)

(** X8: the last thing a returning run of [addSSTablePreApply] did is a
    successful ingestion of one file.  Either the engine may not modify the
    file: then it is the hard link made from the sideloaded file, and
    nothing was copied.  Or the engine may modify it: then this run wrote
    the payload to that file before, in memory with [copied = false] or
    through [writeFileSyncing] on disk with [copied = true]. *)
Theorem addSSTablePreApply_ingests_own_file (env : Env) (index term : Z)
  (sst : storagepb.AddSSTable) (w w' : World) (copied : bool)
  (Hrun : addSSTablePreApply env index term sst w = Ok (copied, w')) :
  let skip := VersionIsActive env VersionUnreplicatedRaftTruncatedState in
  let sideloaded := fst (sideloaded_Filename env index term) in
  ∃ t, trace w' = (trace w ++ t)%list
       ∧ ∃ t0 path allowModify,
           t = (t0 ++ [EvIngestExternalFiles [path] skip allowModify])%list
           ∧ IngestExternalFiles env [path] skip allowModify = None
           ∧ if allowModify then
               if engineIsInMem env
               then In (EvInMemWriteFile path (storagepb.Data sst)) t0 ∧ copied = false
               else In (EvWriteFileSyncing path (storagepb.Data sst)) t0 ∧ copied = true
             else
               In (EvLinkFile sideloaded path) t0 ∧ copied = false
               ∧ engineIsInMem env = false.
Proof.
  intros skip sideloaded. subst skip sideloaded. revert Hrun.
  unfold addSSTablePreApply.
  destruct (negb (CRC32 env (storagepb.Data sst) =? storagepb.CRC32 sst)); [done|].
  unfold addSSTablePreApply_ingest, addSSTablePreApply_onDisk. run_unfold.
  destruct w as [m t n]. cbn [mu trace chans].
  unfold modify, noModify.
  repeat match goal with
         | |- context [match ?x with _ => _ end] =>
             lazymatch x with
             | context [match _ with _ => _ end] => fail
             | _ => destruct x eqn:?
             end; cbn [mu trace chans fst]
         end;
    try discriminate;
    intros [= <- <-]; cbn [trace]; rewrite <- ?app_assoc; cbn [app];
    (eexists; split; [reflexivity|]);
    match goal with
    | |- ∃ t0, ∃ _, ∃ _, ?l = _ ∧ _ => exists (removelast l)
    end; cbn [removelast];
    eexists _, _; (split; [reflexivity|]); (split; [eassumption|]);
    cbn; tauto.
Qed.

Lemma addSSTablePreApply_ingests_own_file_witness :
  addSSTablePreApply env0 5 1 sst0 world0
  = Ok (false,
        mkWorld mu0 [EvSideloadedFilename 5 1; EvPreIngestDelay;
                     EvInMemWriteFile "2" (storagepb.Data sst0);
                     EvIngestExternalFiles ["2"] true true] 0)
  ∧ ∃ t, [EvSideloadedFilename 5 1; EvPreIngestDelay;
          EvInMemWriteFile "2" (storagepb.Data sst0);
          EvIngestExternalFiles ["2"] true true] = ([] ++ t)%list
         ∧ ∃ t0 path allowModify,
             t = (t0 ++ [EvIngestExternalFiles [path] true allowModify])%list
             ∧ IngestExternalFiles env0 [path] true allowModify = None
             ∧ if allowModify then
                 In (EvInMemWriteFile path (storagepb.Data sst0)) t0 ∧ false = false
               else
                 In (EvLinkFile "sst" path) t0 ∧ false = false ∧ true = false.
Proof.
  assert (Hrun : addSSTablePreApply env0 5 1 sst0 world0
                 = Ok (false,
                       mkWorld mu0 [EvSideloadedFilename 5 1; EvPreIngestDelay;
                                    EvInMemWriteFile "2" (storagepb.Data sst0);
                                    EvIngestExternalFiles ["2"] true true] 0))
    by (vm_compute; reflexivity).
  split; [exact Hrun|].
  exact (addSSTablePreApply_ingests_own_file env0 5 1 sst0 world0 _ false Hrun).
Defined.

(** ** The fields of the replica across an application *)

Lemma muInv_emit R e : preserves (muInv R) (emit e).
Proof. by intros w Hw. Qed.

Lemma muInv_makeChan R : preserves (muInv R) makeChan.
Proof. by intros w Hw. Qed.

Lemma muInv_modifyMu (R : ReplicaMu.t → Prop) f :
  (∀ m, R m → R (f m)) → preserves (muInv R) (modifyMu f).
Proof. intros Hf w Hw. unfold wp, modifyMu, muInv in *. cbn. by apply Hf. Qed.

Lemma muInv_updateTxns R txns l : preserves (muInv R) (updateTxns txns l).
Proof.
  revert l. induction txns as [|txn txns IH]; intros l; simpl.
  - apply preserves_ret.
  - apply preserves_bind; [apply muInv_emit | intros _; apply IH].
Qed.

(** Structural steps of a proof that a run keeps a property of the replica;
    [side] proves that an assignment keeps it. *)
Ltac mu_step side :=
  lazymatch goal with
  | |- preserves _ (mbind _ _) => apply preserves_bind; [|intros ?]
  | |- preserves _ (mret _) => apply preserves_ret
  | |- preserves _ (fatalf _) => apply preserves_fatalf
  | |- preserves _ (panic _) => apply preserves_panic
  | |- preserves _ getMu => apply preserves_getMu
  | |- preserves _ (emit _) => apply muInv_emit
  | |- preserves _ makeChan => apply muInv_makeChan
  | |- preserves _ (modifyState _) => unfold modifyState; apply muInv_modifyMu; side
  | |- preserves _ (modifyMu _) => apply muInv_modifyMu; side
  | |- preserves _ (when _ _) => apply preserves_when
  | |- preserves _ (forEach _ _) => apply preserves_forEach; intros ?
  | |- preserves _ (updateTxns _ _) => apply muInv_updateTxns
  | |- preserves _ (let _ := _ in _) => cbv zeta
  | |- preserves _ (match ?x with _ => _ end) => destruct x
  end.

(** An assignment to another field keeps the property. *)
Ltac side_frame :=
  let m := fresh "m" in
  intros m; destruct m as [? ? [] ? ?]; cbn;
  repeat case_inner; cbn; intros; assumption.

(** The statistics and the applied indices are written once, by the update
    at the head of [handleReplicatedEvalResult]. *)
Lemma applyStats_state env (r : RER) i j w :
  wp (applyStats env r i j)
     (λ _ w', ∃ stats,
        storagepb.ReplicaState.Stats (ReplicaMu.state (mu w)) = Some stats
        ∧ ReplicaMu.state (mu w')
          = statsApplied (storagepb.ReplicatedEvalResult.Delta r) i j stats
              (ReplicaMu.state (mu w))) w.
Proof.
  unfold wp, applyStats, modifyState, statsApplied. run_unfold.
  destruct w as [[rid cs st sz chk] t n]. cbn [mu trace chans ReplicaMu.state].
  destruct (storagepb.ReplicaState.Stats st) as [stats|] eqn:E; [|done].
  destruct st; cbn in *.
  destruct (i =? 0), (j =? 0); cbn; repeat (case_inner; cbn); eexists; split; done.
Qed.

Lemma after_applyStats_keeps env (r : RER) a b c :
  let R := λ m, storagepb.ReplicaState.RaftAppliedIndex (ReplicaMu.state m) = a
                ∧ storagepb.ReplicaState.LeaseAppliedIndex (ReplicaMu.state m) = b
                ∧ storagepb.ReplicaState.Stats (ReplicaMu.state m) = c in
  preserves (muInv R) (applyStateTrivial env r)
  ∧ preserves (muInv R) (applyRaftLogDelta env r)
  ∧ preserves (muInv R) (applyNontrivial env r).
Proof.
  intros R. subst R. split; [|split]; unfold_appliers; repeat mu_step side_frame.
Qed.

Lemma wp_preserves_bind {A B} P (m : Exec A) (k : A → Exec B) Q w :
  P w → preserves P m → (∀ a w1, P w1 → wp (k a) Q w1) → wp (m ≫= k) Q w.
Proof.
  intros Hw Hm Hk. apply wp_bind. eapply wp_mono; [|by apply Hm].
  intros a w1 H1. by apply Hk.
Qed.

Lemma wp_of_preserves {A} P (m : Exec A) (Q : A → World → Prop) w :
  preserves P m → P w → (∀ a w', P w' → Q a w') → wp m Q w.
Proof. intros Hm Hw HQ. eapply wp_mono; [|by apply Hm]. intros a w'. apply HQ. Qed.

(** Steps through a run that keeps a property of the replica; [pres] proves
    that a part of the run keeps it. *)
Ltac keep_wp pres :=
  repeat match goal with
         | |- wp (mbind _ _) _ _ => apply wp_bind
         | |- wp (let '(_, _) := ?a in _) _ _ => destruct a
         | HP : muInv ?R ?w |- wp ?m _ ?w =>
             eapply (wp_of_preserves (muInv R) m);
             [solve [pres] | exact HP | clear HP; intros ? ? HP; cbn beta]
         end.

(** The statistics and the applied indices after a returning run of
    [handleReplicatedEvalResult]. *)
Lemma handleReplicatedEvalResult_stats_wp env (rResult : RER) i j w :
  wp (handleReplicatedEvalResult env rResult i j)
     (λ _ w', statsTaken (storagepb.ReplicatedEvalResult.Delta rResult) i j w w') w.
Proof.
  unfold statsTaken.
  unfold handleReplicatedEvalResult. apply wp_bind.
  unfold handleReplicatedEvalResult_apply. apply wp_bind.
  unfold applyTrivial. cbv zeta. apply wp_bind.
  apply (wp_mono _ (λ r1 w1,
           mu w1 = mu w
           ∧ storagepb.ReplicatedEvalResult.Delta r1
             = storagepb.ReplicatedEvalResult.Delta rResult)).
  2: { destruct (storagepb.ReplicatedEvalResult.BlockReads (zeroUnhandled rResult));
         unfold wp; run_unfold; cbn; by destruct rResult. }
  intros r1 w1 [Hmu HD]. apply wp_bind.
  eapply wp_mono; [|apply applyStats_state].
  intros r2 w2 (stats & Hstats & Hst). cbn beta. rewrite Hmu in Hstats, Hst. rewrite HD in Hst.
  set (S := statsApplied (storagepb.ReplicatedEvalResult.Delta rResult) i j stats
              (ReplicaMu.state (mu w))) in *.
  assert (HP : muInv (λ m,
                 storagepb.ReplicaState.RaftAppliedIndex (ReplicaMu.state m)
                 = storagepb.ReplicaState.RaftAppliedIndex S
                 ∧ storagepb.ReplicaState.LeaseAppliedIndex (ReplicaMu.state m)
                   = storagepb.ReplicaState.LeaseAppliedIndex S
                 ∧ storagepb.ReplicaState.Stats (ReplicaMu.state m)
                   = storagepb.ReplicaState.Stats S) w2).
  { unfold muInv. by rewrite Hst. }
  clear Hst.
  keep_wp ltac:(unfold_appliers; repeat mu_step side_frame).
  destruct HP as (Ha & Hb & Hc). exists stats. rewrite Ha, Hb, Hc.
  split; [done|]. subst S. unfold statsApplied.
  destruct (ReplicaMu.state (mu w)); destruct (i =? 0), (j =? 0); done.
Qed.


(** X9: a returning run of [handleReplicatedEvalResult] on a command
    without split and merge triggers (these run in other files) has added
    the statistics delta of the command to the statistics of the replica,
    once, and has taken over each applied index that is not zero; an index
    of zero leaves the index of the replica as it was. *)
Theorem handleReplicatedEvalResult_stats_indices (env : Env) (rResult : RER) (i j : Z)
  (w w' : World) (shouldAssert : bool)
  (Hsplit : storagepb.ReplicatedEvalResult.Split rResult = None)
  (Hmerge : storagepb.ReplicatedEvalResult.Merge rResult = None)
  (Hrun : handleReplicatedEvalResult env rResult i j w = Ok (shouldAssert, w')) :
  ∃ stats,
    storagepb.ReplicaState.Stats (ReplicaMu.state (mu w)) = Some stats
    ∧ storagepb.ReplicaState.Stats (ReplicaMu.state (mu w'))
      = Some (enginepb.Add stats
                (enginepb.ToStats (storagepb.ReplicatedEvalResult.Delta rResult)))
    ∧ storagepb.ReplicaState.RaftAppliedIndex (ReplicaMu.state (mu w'))
      = (if i =? 0 then storagepb.ReplicaState.RaftAppliedIndex (ReplicaMu.state (mu w))
         else i)
    ∧ storagepb.ReplicaState.LeaseAppliedIndex (ReplicaMu.state (mu w'))
      = (if j =? 0 then storagepb.ReplicaState.LeaseAppliedIndex (ReplicaMu.state (mu w))
         else j).
Proof.
  exact (wp_ok _ _ _ _ _ (handleReplicatedEvalResult_stats_wp env rResult i j w) Hrun).
Qed.

Lemma handleReplicatedEvalResult_stats_indices_witness :
  handleReplicatedEvalResult env0 rDelta10 6 6 world0 = Ok (false, worldDelta10)
  ∧ ∃ stats,
      storagepb.ReplicaState.Stats (ReplicaMu.state (mu world0)) = Some stats
      ∧ storagepb.ReplicaState.Stats (ReplicaMu.state (mu worldDelta10))
        = Some (enginepb.Add stats
                  (enginepb.ToStats (storagepb.ReplicatedEvalResult.Delta rDelta10)))
      ∧ storagepb.ReplicaState.RaftAppliedIndex (ReplicaMu.state (mu worldDelta10)) = 6
      ∧ storagepb.ReplicaState.LeaseAppliedIndex (ReplicaMu.state (mu worldDelta10)) = 6.
Proof.
  assert (H : handleReplicatedEvalResult env0 rDelta10 6 6 world0 = Ok (false, worldDelta10))
    by (vm_compute; reflexivity).
  split; [exact H|].
  exact (handleReplicatedEvalResult_stats_indices env0 rDelta10 6 6 world0 worldDelta10
           false eq_refl eq_refl H).
Defined.

(** ** The local-result applier, continued *)

Ltac quiet_step' :=
  lazymatch goal with
  | |- quiet (mbind _ _) => apply quiet_bind; [|intros ?]
  | |- quiet (mret _) => apply quiet_ret
  | |- quiet (emit _) => apply quiet_emit
  | |- quiet (when false _) => apply quiet_ret
  | |- quiet (when _ _) => apply quiet_when
  | |- quiet (match ?x with _ => _ end) => destruct x
  end.

Lemma updateTxns_quiet txns l : quiet (updateTxns txns l).
Proof.
  revert l. induction txns as [|txn txns IH]; intros l; simpl.
  - apply quiet_ret.
  - apply quiet_bind; [apply quiet_emit | intros _; apply IH].
Qed.

Lemma handleLocalEvalResult_mu env l m0 :
  preserves (muInv (λ m, m = m0)) (handleLocalEvalResult env l).
Proof.
  unfold handleLocalEvalResult, handleLocalEvalResult_apply. repeat mu_step idtac.
Qed.

(** X10: [handleLocalEvalResult] returns exactly when the caller has
    detached the intents and the ended transactions, the list of updated
    transactions is not both set and empty, and a request for the split
    queue meets a store that has one.  It then leaves the fields of the
    replica as they are. *)
Theorem handleLocalEvalResult_returns_iff (env : Env) (lResult : LocalResult) (w : World) :
  ((∃ w', handleLocalEvalResult env lResult w = Ok (tt, w'))
   ↔ result.LocalResult.Intents lResult = None
    ∧ result.LocalResult.EndTxns lResult = None
    ∧ result.LocalResult.UpdatedTxns lResult ≠ Some []
    ∧ (result.LocalResult.MaybeAddToSplitQueue lResult = true → hasSplitQueue env = true))
  ∧ ∀ w', handleLocalEvalResult env lResult w = Ok (tt, w') → mu w' = mu w.
Proof.
  split.
  2: { intros w' Hrun.
       exact (wp_ok _ _ _ _ _ (handleLocalEvalResult_mu env lResult (mu w) w eq_refl) Hrun). }
  split.
  - intros [w' Hrun].
    pose proof (handleLocalEvalResult_apply_returns env lResult w) as Hwp.
    unfold handleLocalEvalResult, mbind, Exec_bind in Hrun. unfold wp in Hwp.
    destruct (handleLocalEvalResult_apply env lResult w) as [[rest w1]|msg|msg] eqn:E;
      [|done..].
    destruct Hwp as (Hrest & HI & HE).
    destruct (result.LocalResult.isZero rest) eqn:Ez; [|done].
    apply LocalResult_isZero_true in Ez. rewrite Hrest in Ez.
    split; [done|]. split; [done|]. split.
    + intros HU. destruct lResult; cbn in *. rewrite HU in Ez. discriminate Ez.
    + intros HS. destruct (hasSplitQueue env) eqn:Hq; [done|]. exfalso.
      revert E. unfold handleLocalEvalResult_apply.
      destruct lResult as [rp it et me gf sc sq nl ut]; cbn in HI, HE, HS. subst.
      cbn [result.LocalResult.set_Reply result.LocalResult.Intents
             result.LocalResult.EndTxns result.LocalResult.GossipFirstRange
             result.LocalResult.MaybeAddToSplitQueue isNil negb].
      rewrite Hq. run_unfold. destruct gf; cbn; discriminate.
  - intros (HI & HE & HU & HS).
    destruct lResult as [rp it et me gf sc sq nl ut]; cbn in HI, HE, HU, HS. subst it et.
    unfold handleLocalEvalResult, handleLocalEvalResult_apply. run_unfold.
    cbn [result.LocalResult.set_Reply result.LocalResult.Intents
           result.LocalResult.EndTxns result.LocalResult.GossipFirstRange
           result.LocalResult.MaybeAddToSplitQueue result.LocalResult.Metrics
           result.LocalResult.MaybeGossipSystemConfig result.LocalResult.UpdatedTxns
           result.LocalResult.MaybeGossipNodeLiveness isNil negb].
    assert (Hsq : sq = true → hasSplitQueue env = true) by exact HS. clear HS.
    destruct gf, sq, sc, nl as [span|], me as [metrics|];
      rewrite ?(Hsq eq_refl); cbn;
      (destruct ut as [txns|];
       [match goal with
        | |- context [updateTxns txns ?l ?w1] =>
            destruct (updateTxns_quiet txns l w1) as (rest & t & E);
            pose proof (updateTxns_returns txns l w1) as Hwp;
            unfold wp in Hwp; rewrite E in Hwp; rewrite E; subst rest
        end;
        destruct txns; [done|]; cbn; by eexists
       | by eexists]).
Qed.

(** ** The state assertion and the barrier for reads *)

Lemma handleReplicatedEvalResult_value env (r : RER) i j w sa w' :
  handleReplicatedEvalResult env r i j w = Ok (sa, w') → sa = nontrivial (usingKey w) r.
Proof.
  intros Hrun.
  pose proof (handleReplicatedEvalResult_apply_wp env r i j w) as Hwp.
  unfold handleReplicatedEvalResult, mbind, Exec_bind in Hrun. unfold wp in Hwp.
  destruct (handleReplicatedEvalResult_apply env r i j w) as [[[sa' rest] w1]|msg|msg];
    [|done..].
  destruct Hwp as [-> _].
  destruct (negb (storagepb.ReplicatedEvalResult.EqualZero rest)); [done|].
  revert Hrun. destruct (storagepb.ReplicatedEvalResult.BlockReads r);
    run_unfold; by intros [= -> _].
Qed.

Lemma handleReplicatedEvalResult_never_assert env r i j :
  never isAssertState (handleReplicatedEvalResult env r i j).
Proof. unfold_appliers. never_tac. Qed.

Lemma handleLocalEvalResult_never_assert env l :
  never isAssertState (handleLocalEvalResult env l).
Proof. unfold_appliers. never_tac. Qed.

(** X11: [handleEvalResultRaftMuLocked] asserts the state of the replica
    once, as the last thing it does, exactly when the replicated result is
    not trivial; otherwise it never asserts it. *)
Theorem assertState_iff_nontrivial (env : Env) (lResult : option LocalResult) (rResult : RER)
  (i j : Z) (w w' : World)
  (Hrun : handleEvalResultRaftMuLocked env lResult rResult i j w = Ok (tt, w')) :
  ∃ t, trace w'
       = (trace w ++ t
          ++ (if nontrivial (usingKey w) rResult then [EvAssertState] else []))%list
       ∧ Forall (λ e, isAssertState e = false) t.
Proof.
  revert Hrun. unfold handleEvalResultRaftMuLocked. unfold mbind at 1, Exec_bind at 1.
  destruct (handleReplicatedEvalResult env rResult i j w) as [[sa w1]|msg|msg] eqn:E1;
    [|done..].
  pose proof (handleReplicatedEvalResult_value _ _ _ _ _ _ _ E1) as ->.
  destruct (wp_ok _ _ _ _ _ (handleReplicatedEvalResult_never_assert env rResult i j w) E1)
    as (t1 & Ht1 & Hf1).
  unfold mbind, Exec_bind.
  assert (Hfin : ∀ w2 t2,
            trace w2 = (trace w1 ++ t2)%list →
            Forall (λ e, isAssertState e = false) t2 →
            when (nontrivial (usingKey w) rResult) (emit EvAssertState) w2 = Ok (tt, w') →
            ∃ t, trace w'
                 = (trace w ++ t
                    ++ (if nontrivial (usingKey w) rResult then [EvAssertState] else []))%list
                 ∧ Forall (λ e, isAssertState e = false) t).
  { intros w2 t2 Ht2 Hf2. exists (t1 ++ t2)%list. split; [|by apply Forall_app].
    revert H. destruct (nontrivial (usingKey w) rResult); run_unfold;
      intros [= <-]; cbn; rewrite Ht2, Ht1, <- ?app_assoc, ?app_nil_r; done. }
  destruct lResult as [l|].
  - destruct (handleLocalEvalResult env l w1) as [[[] w2]|msg|msg] eqn:E2; [|done..].
    destruct (wp_ok _ _ _ _ _ (handleLocalEvalResult_never_assert env l w1) E2)
      as (t2 & Ht2 & Hf2).
    by apply (Hfin w2 t2).
  - apply (Hfin w1 []); [by rewrite app_nil_r|constructor].
Qed.

Lemma assertState_iff_nontrivial_witness :
  handleEvalResultRaftMuLocked env0 None rDelta10 6 6 world0 = Ok (tt, worldDelta10)
  ∧ ∃ t, trace worldDelta10 = ([] ++ t ++ [])%list
         ∧ Forall (λ e, isAssertState e = false) t.
Proof.
  assert (H : handleEvalResultRaftMuLocked env0 None rDelta10 6 6 world0
              = Ok (tt, worldDelta10)) by (vm_compute; reflexivity).
  split; [exact H|].
  exact (assertState_iff_nontrivial env0 None rDelta10 6 6 world0 worldDelta10 H).
Defined.

Lemma appends_then_never {A B} p (m : Exec A) (k : A → Exec B)
  (Q1 : A → list Event → Prop) (Q : B → list Event → Prop) :
  appends m Q1 → (∀ a, never p (k a)) →
  (∀ a b t1 t2, Q1 a t1 → Forall (λ e, p e = false) t2 → Q b (t1 ++ t2)%list) →
  appends (m ≫= k) Q.
Proof.
  intros Hm Hk HQ. eapply appends_bind; [exact Hm|].
  intros a t1 H1. eapply appends_mono; [|apply Hk]. intros b t2 H2. by eapply HQ.
Qed.

Lemma applyTrivial_lock env (r : RER) i j :
  appends (applyTrivial env r i j)
          (λ _ t, ∃ t0, Forall (λ e, isReadOnlyCmdMu e = false) t0
                        ∧ t = if storagepb.ReplicatedEvalResult.BlockReads r
                              then EvReadOnlyCmdMuLock :: t0 else t0).
Proof.
  unfold applyTrivial. cbv zeta.
  eapply (appends_then_never isReadOnlyCmdMu _ _
            (λ _ t, t = if storagepb.ReplicatedEvalResult.BlockReads r
                        then [EvReadOnlyCmdMuLock] else [])).
  - replace (storagepb.ReplicatedEvalResult.BlockReads (zeroUnhandled r))
      with (storagepb.ReplicatedEvalResult.BlockReads r) by (by destruct r).
    destruct (storagepb.ReplicatedEvalResult.BlockReads r).
    + eapply appends_bind; [by apply (appends_emit _ (λ _ t, t = [EvReadOnlyCmdMuLock]))|].
      intros _ t1 ->. by apply appends_ret.
    + by apply appends_ret.
  - intros r1. unfold_appliers. never_tac.
  - intros _ _ t1 t2 -> Hf. exists t2. split; [done|].
    by destruct (storagepb.ReplicatedEvalResult.BlockReads r).
Qed.

(** X12: when a replicated result asks to block reads, a returning run of
    [handleReplicatedEvalResult] takes the mutex of the read-only commands
    first, releases it last and does not touch it in between; when the
    result does not ask for it, the run never touches the mutex. *)
Theorem blockReads_bracket (env : Env) (rResult : RER) (i j : Z) (w w' : World)
  (shouldAssert : bool)
  (Hrun : handleReplicatedEvalResult env rResult i j w = Ok (shouldAssert, w')) :
  ∃ t, Forall (λ e, isReadOnlyCmdMu e = false) t
       ∧ trace w'
         = (trace w
            ++ if storagepb.ReplicatedEvalResult.BlockReads rResult
               then EvReadOnlyCmdMuLock :: t ++ [EvReadOnlyCmdMuUnlock]
               else t)%list.
Proof.
  assert (Happ : appends (handleReplicatedEvalResult env rResult i j)
                   (λ _ t, ∃ t0, Forall (λ e, isReadOnlyCmdMu e = false) t0
                                 ∧ t = if storagepb.ReplicatedEvalResult.BlockReads rResult
                                       then EvReadOnlyCmdMuLock :: t0 ++ [EvReadOnlyCmdMuUnlock]
                                       else t0)).
  { unfold handleReplicatedEvalResult.
    eapply (appends_bind _ _
              (λ _ t, ∃ t0, Forall (λ e, isReadOnlyCmdMu e = false) t0
                            ∧ t = if storagepb.ReplicatedEvalResult.BlockReads rResult
                                  then EvReadOnlyCmdMuLock :: t0 else t0)).
    - unfold handleReplicatedEvalResult_apply.
      eapply (appends_then_never isReadOnlyCmdMu); [apply applyTrivial_lock| |].
      + intros r1. unfold_appliers. never_tac.
      + intros _ _ t1 t2 (t0 & Hf0 & ->) Hf2. exists (t0 ++ t2)%list.
        split; [by apply Forall_app|].
        by destruct (storagepb.ReplicatedEvalResult.BlockReads rResult).
    - intros [sa rest] t1 (t0 & Hf0 & ->).
      destruct (negb (storagepb.ReplicatedEvalResult.EqualZero rest)); [by intros ?|].
      destruct (storagepb.ReplicatedEvalResult.BlockReads rResult).
      + eapply appends_bind;
          [by apply (appends_emit _ (λ _ t, t = [EvReadOnlyCmdMuUnlock]))|].
        intros _ t2 ->. apply appends_ret. exists t0. by rewrite app_nil_r.
      + eapply appends_bind; [by apply (appends_ret _ (λ _ t, t = []))|].
        intros _ t2 ->. apply appends_ret. exists t0. by rewrite !app_nil_r. }
  destruct (wp_ok _ _ _ _ _ (Happ w) Hrun) as (t & Ht & t0 & Hf & ->).
  by exists t0.
Qed.

Lemma blockReads_bracket_witness :
  handleReplicatedEvalResult env0 rDelta10 6 6 world0 = Ok (false, worldDelta10)
  ∧ ∃ t, Forall (λ e, isReadOnlyCmdMu e = false) t
         ∧ trace worldDelta10 = ([] ++ t)%list.
Proof.
  assert (H : handleReplicatedEvalResult env0 rDelta10 6 6 world0 = Ok (false, worldDelta10))
    by (vm_compute; reflexivity).
  split; [exact H|].
  exact (blockReads_bracket env0 rDelta10 6 6 world0 worldDelta10 false H).
Defined.

(** ** The Raft log size, continued *)

Lemma applyRaftLogDelta_sizes env (r : RER) :
  preserves (muInv (λ m, 0 ≤ ReplicaMu.raftLogSize m ∧ 0 ≤ ReplicaMu.raftLogLastCheckSize m))
            (applyRaftLogDelta env r).
Proof.
  intros w [H1 H2]. unfold wp, muInv, applyRaftLogDelta.
  destruct w as [[rid cs st sz chk] t n]. cbn in H1, H2.
  destruct (storagepb.ReplicatedEvalResult.RaftLogDelta r =? 0); cbn [negb]; run_unfold; cbn.
  - destruct (RaftLogQueueStaleSize env <=? sub64 sz chk); cbn; lia.
  - destruct (add64 sz _ <? 0) eqn:E1; cbn;
      destruct (add64 chk _ <? 0) eqn:E2; cbn;
      rewrite ?Z.ltb_lt, ?Z.ltb_ge in *; lia.
Qed.

Lemma preserves_ok {A} P (m : Exec A) w a w' :
  preserves P m → P w → m w = Ok (a, w') → P w'.
Proof. intros Hm Hw E. exact (wp_ok _ _ _ _ _ (Hm w Hw) E). Qed.

(** X13: what this file does in an application of a command keeps both
    counters of the Raft log size accounting, the size and the size at the
    last check, from going negative, whatever the command and the local
    result are. *)
Theorem raftLog_counters_nonnegative (env : Env) (lResult : option LocalResult)
  (rResult : RER) (i j : Z) (w w' : World)
  (Hw : 0 ≤ ReplicaMu.raftLogSize (mu w) ∧ 0 ≤ ReplicaMu.raftLogLastCheckSize (mu w))
  (Hrun : handleEvalResultRaftMuLocked env lResult rResult i j w = Ok (tt, w')) :
  0 ≤ ReplicaMu.raftLogSize (mu w') ∧ 0 ≤ ReplicaMu.raftLogLastCheckSize (mu w').
Proof.
  refine (preserves_ok
            (muInv (λ m, 0 ≤ ReplicaMu.raftLogSize m ∧ 0 ≤ ReplicaMu.raftLogLastCheckSize m))
            _ w tt w' _ Hw Hrun).
  unfold handleEvalResultRaftMuLocked, handleReplicatedEvalResult, handleLocalEvalResult,
    handleReplicatedEvalResult_apply, handleLocalEvalResult_apply, applyTrivial,
    applyNontrivial, applyStats, applyStateTrivial, applyStateRest,
    setDesc, leasePostApply, leasePostApply_takeover, leaseSequenceCheck, installLease,
    leasePostApply_notify, computeChecksumPostApply, computeChecksumPostApply_locked.
  repeat first [ apply applyRaftLogDelta_sizes | mu_step side_frame ].
Qed.

Lemma raftLog_counters_nonnegative_witness :
  (0 ≤ ReplicaMu.raftLogSize (mu world0) ∧ 0 ≤ ReplicaMu.raftLogLastCheckSize (mu world0))
  ∧ handleEvalResultRaftMuLocked env0 None rDelta10 6 6 world0 = Ok (tt, worldDelta10)
  ∧ 0 ≤ ReplicaMu.raftLogSize (mu worldDelta10)
  ∧ 0 ≤ ReplicaMu.raftLogLastCheckSize (mu worldDelta10).
Proof.
  assert (Hw : 0 ≤ ReplicaMu.raftLogSize (mu world0)
               ∧ 0 ≤ ReplicaMu.raftLogLastCheckSize (mu world0)) by (cbn; lia).
  assert (H : handleEvalResultRaftMuLocked env0 None rDelta10 6 6 world0
              = Ok (tt, worldDelta10)) by (vm_compute; reflexivity).
  split; [exact Hw|]. split; [exact H|].
  exact (raftLog_counters_nonnegative env0 None rDelta10 6 6 world0 worldDelta10 Hw H).
Defined.

(** ** The proposal builder, continued *)

(** X14: [evaluateProposal] itself writes no field of the replica.  A
    batch with the zero timestamp is turned down before it reaches the
    evaluator; any other batch is evaluated once, and whenever
    [evaluateProposal] returns, with or without an error, it has closed the
    write batch, once and last. *)
Theorem evaluateProposal_closes_batch (env : Env) (ba : roachpb.BatchRequest) (w w' : World)
  (out : option result.Result.t * bool * option roachpb.Error)
  (Hrun : evaluateProposal env ba w = Ok (out, w')) :
  mu w' = mu w ∧ chans w' = chans w
  ∧ trace w'
    = (trace w ++ if hlc.eqb (roachpb.baTimestamp ba) hlc.zero then []
                  else [EvEvaluateWriteBatch ba; EvBatchClose])%list
  ∧ (hlc.eqb (roachpb.baTimestamp ba) hlc.zero = true →
     ∃ e, out = (None, false, Some e)).
Proof.
  revert Hrun. unfold evaluateProposal.
  destruct (hlc.eqb (roachpb.baTimestamp ba) hlc.zero).
  { run_unfold. intros [= <- <-]. rewrite app_nil_r. eauto. }
  cbv zeta. destruct w as [m t n].
  destruct (pErr (evaluateWriteBatch env ba)) as [e|].
  - destruct (negb (isNil (roachpb.GetTxn (maybeSetCorrupt env e)))
              && isNil (roachpb.baTxn ba)); run_unfold; [done|].
    cbn. intros [= <- <-]. cbn. rewrite <- app_assoc. done.
  - match goal with
    | |- context [if ?c then _ else _] => destruct c
    end; run_unfold; cbn; intros [= <- <-]; cbn; rewrite <- app_assoc; done.
Qed.

Lemma evaluateProposal_closes_batch_witness :
  ∃ out w', evaluateProposal env0 baRead world0 = Ok (out, w')
            ∧ mu w' = mu world0 ∧ chans w' = chans world0.
Proof.
  assert (Hrun : evaluateProposal env0 baRead world0
                 = Ok (fst match evaluateProposal env0 baRead world0 with
                           | Ok p => p
                           | _ => ((None, false, None), world0)
                           end,
                       snd match evaluateProposal env0 baRead world0 with
                           | Ok p => p
                           | _ => ((None, false, None), world0)
                           end)) by (vm_compute; reflexivity).
  eexists _, _. split; [exact Hrun|].
  split; [exact (proj1 (evaluateProposal_closes_batch env0 baRead world0 _ _ Hrun))
         |exact (proj1 (proj2 (evaluateProposal_closes_batch env0 baRead world0 _ _ Hrun)))].
Defined.

(** ** From a request to a proposal *)

(** What a returning [evaluateProposal] hands to its caller. *)
Lemma evaluateProposal_ok_inv env ba w out w' :
  evaluateProposal env ba w = Ok (out, w') →
  mu w' = mu w ∧ chans w' = chans w
  ∧ match out with
    | (None, needConsensus, pErr) =>
        hlc.eqb (roachpb.baTimestamp ba) hlc.zero = true
        ∧ needConsensus = false ∧ pErr ≠ None
    | (Some r, needConsensus, Some _) =>
        hlc.eqb (roachpb.baTimestamp ba) hlc.zero = false ∧ needConsensus = false
    | (Some r, needConsensus, None) =>
        hlc.eqb (roachpb.baTimestamp ba) hlc.zero = false
        ∧ result.LocalResult.Reply (result.Result.Local r) = br (evaluateWriteBatch env ba)
        ∧ (needConsensus = true →
           result.Result.WriteBatch r
           = Some (storagepb.mkWriteBatch (Repr (batch (evaluateWriteBatch env ba))))
           ∧ storagepb.ReplicatedEvalResult.Timestamp (result.Result.Replicated r)
             = roachpb.baTimestamp ba
           ∧ storagepb.ReplicatedEvalResult.IsLeaseRequest (result.Result.Replicated r)
             = roachpb.baIsLeaseRequest ba)
    end.
Proof.
  unfold evaluateProposal.
  destruct (hlc.eqb (roachpb.baTimestamp ba) hlc.zero).
  { run_unfold. intros [= <- <-]. done. }
  cbv zeta. destruct w as [m t n].
  destruct (pErr (evaluateWriteBatch env ba)) as [e|].
  - destruct (negb (isNil (roachpb.GetTxn (maybeSetCorrupt env e)))
              && isNil (roachpb.baTxn ba)); run_unfold; [done|].
    cbn. intros [= <- <-]. done.
  - match goal with
    | |- context [if ?c then _ else _] => destruct c
    end; run_unfold; cbn; intros [= <- <-]; cbn; [|done].
    repeat split; try done.
    all: match goal with
         | |- context [if ?c then _ else _] => destruct c
         end; cbn;
         match goal with
         | |- context [if ?c then _ else _] => destruct c
         end; done.
Qed.

(** X15: a batch with the zero timestamp makes [requestToProposal] end the
    process with a nil dereference: [evaluateProposal] hands back no result
    for it, and the proposal is filled out from that result before the
    error is looked at. *)
Theorem requestToProposal_zero_timestamp (env : Env) (idKey : string)
  (ba : roachpb.BatchRequest) (endCmds : option endCmdsT) (w : World)
  (Hts : roachpb.baTimestamp ba = hlc.zero) :
  requestToProposal env idKey ba endCmds w = Panic "nil pointer dereference".
Proof.
  unfold requestToProposal, evaluateProposal. rewrite Hts.
  replace (hlc.eqb hlc.zero hlc.zero) with true by (vm_compute; reflexivity).
  run_unfold. reflexivity.
Qed.

Lemma requestToProposal_zero_timestamp_witness :
  requestToProposal env0 "k" (roachpb.mkBatchRequest hlc.zero None false) (Some 1) world0
  = Panic "nil pointer dereference".
Proof.
  exact (requestToProposal_zero_timestamp env0 "k"
           (roachpb.mkBatchRequest hlc.zero None false) (Some 1) world0 eq_refl).
Defined.

(** X16: a proposal that [requestToProposal] returns carries the key, the
    latch-release hook and the request it was given, no span, and a channel
    that no one held before.  An error leaves it without a command; a
    command carries the serialised write batch, the timestamp of the
    request and its lease-request marker; without an error the local half
    holds the reply of the evaluator.  [requestToProposal] itself writes no
    field of the replica. *)
Theorem requestToProposal_proposal (env : Env) (idKey : string)
  (ba : roachpb.BatchRequest) (endCmds : option endCmdsT) (w w' : World)
  (p : ProposalData.t) (pErr : option roachpb.Error)
  (Hrun : requestToProposal env idKey ba endCmds w = Ok ((p, pErr), w')) :
  (ProposalData.idKey p = idKey ∧ ProposalData.endCmds p = endCmds
   ∧ ProposalData.Request p = Some ba ∧ ProposalData.sp p = None
   ∧ ProposalData.doneCh p = Some (chans w) ∧ chans w' = S (chans w)
   ∧ mu w' = mu w)
  ∧ (pErr ≠ None → ProposalData.command p = None)
  ∧ (∀ c, ProposalData.command p = Some c →
       storagepb.RaftCommand.WriteBatch c
       = Some (storagepb.mkWriteBatch (Repr (batch (evaluateWriteBatch env ba))))
       ∧ storagepb.ReplicatedEvalResult.Timestamp (storagepb.RaftCommand.ReplicatedEvalResult c)
         = roachpb.baTimestamp ba
       ∧ storagepb.ReplicatedEvalResult.IsLeaseRequest
           (storagepb.RaftCommand.ReplicatedEvalResult c)
         = roachpb.baIsLeaseRequest ba)
  ∧ (pErr = None →
     ∃ l, ProposalData.Local p = Some l
          ∧ result.LocalResult.Reply l = br (evaluateWriteBatch env ba)).
Proof.
  revert Hrun. unfold requestToProposal. cbv [mbind Exec_bind].
  destruct (evaluateProposal env ba w) as [[[[res nc] e] w1]| |] eqn:E; [|done..].
  apply evaluateProposal_ok_inv in E as (Hmu & Hch & Hout).
  cbv [makeChan]. destruct res as [r|]; [|done].
  cbv [mret Exec_ret]. intros [= <- <- <-]. cbn.
  rewrite Hch, Hmu. split; [done|].
  destruct e as [e|].
  - destruct Hout as [_ ->]. repeat split; try done.
  - destruct Hout as (_ & Hreply & Hnc). split; [done|]. split.
    + destruct nc; [|done]. intros c [= <-]. cbn. auto.
    + intros _. eauto.
Qed.

Lemma requestToProposal_proposal_witness :
  ∃ p pErr w', requestToProposal env0 "k" baRead (Some 1) world0 = Ok ((p, pErr), w')
               ∧ ProposalData.doneCh p = Some (chans world0)
               ∧ ProposalData.endCmds p = Some 1.
Proof.
  assert (Hrun : requestToProposal env0 "k" baRead (Some 1) world0
                 = Ok ((fst (fst match requestToProposal env0 "k" baRead (Some 1) world0 with
                                 | Ok x => x
                                 | _ => ((proposal0, None), world0)
                                 end),
                        snd (fst match requestToProposal env0 "k" baRead (Some 1) world0 with
                                 | Ok x => x
                                 | _ => ((proposal0, None), world0)
                                 end)),
                       snd match requestToProposal env0 "k" baRead (Some 1) world0 with
                           | Ok x => x
                           | _ => ((proposal0, None), world0)
                           end)) by (vm_compute; reflexivity).
  pose proof (requestToProposal_proposal env0 "k" baRead (Some 1) world0 _ _ _ Hrun)
    as [(_ & Hec & _ & _ & Hch & _) _].
  eexists _, _, _. split; [exact Hrun|]. split; [exact Hch|exact Hec].
Defined.

(** X17: the completion of a proposal that [requestToProposal] built runs
    the hook it was given, finishes no span, and sends the result on the
    channel made for this proposal, once. *)
Theorem requestToProposal_then_finish (env : Env) (idKey : string)
  (ba : roachpb.BatchRequest) (endCmds : option endCmdsT) (w w' : World)
  (p : ProposalData.t) (pErr : option roachpb.Error) (pr : proposalResult)
  (Hrun : requestToProposal env idKey ba endCmds w = Ok ((p, pErr), w')) :
  ∃ p' w'',
    finishApplication p pr w' = Ok (p', w'')
    ∧ trace w''
      = (trace w'
         ++ match endCmds with
            | Some ec => [EvEndCmdsDone ec (Reply pr) (Err pr)]
            | None => []
            end
         ++ [EvSend (chans w) pr])%list
    ∧ ProposalData.endCmds p' = None ∧ ProposalData.doneCh p' = None
    ∧ ProposalData.command p' = ProposalData.command p.
Proof.
  revert Hrun. unfold requestToProposal. cbv [mbind Exec_bind].
  destruct (evaluateProposal env ba w) as [[[[res nc] e] w1]| |] eqn:E; [|done..].
  apply evaluateProposal_ok_inv in E as (Hmu & Hch & _).
  cbv [makeChan]. destruct res as [r|]; [|done].
  cbv [mret Exec_ret]. intros [= <- <- <-].
  rewrite finishApplication_run. eexists _, _. split; [reflexivity|].
  cbn. rewrite Hch. unfold hookEvents, spanEvents, sendEvents. cbn.
  destruct endCmds; done.
Qed.

Lemma requestToProposal_then_finish_witness :
  ∃ p pErr w' p' w'',
    requestToProposal env0 "k" baRead (Some 1) world0 = Ok ((p, pErr), w')
    ∧ finishApplication p pr0 w' = Ok (p', w'')
    ∧ ProposalData.doneCh p' = None.
Proof.
  assert (Hrun : requestToProposal env0 "k" baRead (Some 1) world0
                 = Ok ((fst (fst match requestToProposal env0 "k" baRead (Some 1) world0 with
                                 | Ok x => x
                                 | _ => ((proposal0, None), world0)
                                 end),
                        snd (fst match requestToProposal env0 "k" baRead (Some 1) world0 with
                                 | Ok x => x
                                 | _ => ((proposal0, None), world0)
                                 end)),
                       snd match requestToProposal env0 "k" baRead (Some 1) world0 with
                           | Ok x => x
                           | _ => ((proposal0, None), world0)
                           end)) by (vm_compute; reflexivity).
  destruct (requestToProposal_then_finish env0 "k" baRead (Some 1) world0 _ _ _ pr0 Hrun)
    as (p' & w'' & Hfin & _ & _ & Hch & _).
  eexists _, _, _, p', w''. split; [exact Hrun|]. split; [exact Hfin|exact Hch].
Defined.

(** ** From the evaluation to the application *)

(** Where a result that needs consensus carries the statistics of the
    evaluation. *)
Lemma evaluateProposal_delta env ba w r w' :
  evaluateProposal env ba w = Ok ((Some r, true, None), w') →
  if VersionIsActive env VersionMVCCNetworkStats
  then storagepb.ReplicatedEvalResult.Delta (result.Result.Replicated r)
       = enginepb.ToStatsDelta (ms (evaluateWriteBatch env ba))
  else storagepb.ReplicatedEvalResult.DeprecatedDelta (result.Result.Replicated r)
       = Some (ms (evaluateWriteBatch env ba)).
Proof.
  unfold evaluateProposal.
  destruct (hlc.eqb (roachpb.baTimestamp ba) hlc.zero); [done|].
  cbv zeta. destruct w as [m t n].
  destruct (pErr (evaluateWriteBatch env ba)) as [e|].
  - destruct (negb (isNil (roachpb.GetTxn (maybeSetCorrupt env e)))
              && isNil (roachpb.baTxn ba)); run_unfold; done.
  - match goal with
    | |- context [if ?c then _ else _] => destruct c
    end; run_unfold; cbn; [|done].
    intros [= <- _].
    destruct (VersionIsActive env VersionMVCCNetworkStats); cbn;
      match goal with
      | |- context [if ?c then _ else _] => destruct c
      end; done.
Qed.

(** A result with a deprecated statistics delta is never applied to the
    end. *)
Lemma handleReplicatedEvalResult_deprecated env (r : RER) i j w sa w' :
  storagepb.ReplicatedEvalResult.DeprecatedDelta r ≠ None →
  handleReplicatedEvalResult env r i j w ≠ Ok (sa, w').
Proof.
  intros Hdd Hrun.
  pose proof (handleReplicatedEvalResult_apply_wp env r i j w) as Hwp.
  unfold handleReplicatedEvalResult, mbind, Exec_bind in Hrun. unfold wp in Hwp.
  destruct (handleReplicatedEvalResult_apply env r i j w) as [[[sa' rest] w1]|msg|msg];
    [|done..].
  destruct Hwp as [_ ->].
  replace (storagepb.ReplicatedEvalResult.EqualZero (unhandled r)) with false in Hrun;
    [done|].
  unfold unhandled, storagepb.ReplicatedEvalResult.EqualZero. cbn.
  destruct (storagepb.ReplicatedEvalResult.DeprecatedDelta r); [|done].
  cbn. by rewrite !andb_false_r.
Qed.

(** X18: the command of a proposal carries the statistics of its
    evaluation to the replicas.  When [handleReplicatedEvalResult] applies
    the replicated result of a command without split and merge triggers and
    returns, it has added to the statistics of the replica exactly the
    statistics the evaluator counted.
    If the cluster version for the statistics delta is not active, the
    command carries them in the deprecated field, which
    [handleReplicatedEvalResult] has no action for: given the result as it
    was proposed, it does not return. *)
Theorem proposal_stats_roundtrip (env : Env) (idKey : string) (ba : roachpb.BatchRequest)
  (endCmds : option endCmdsT) (w w' : World) (p : ProposalData.t)
  (pErr : option roachpb.Error) (c : storagepb.RaftCommand.t) (i j : Z) (w2 : World)
  (Hrun : requestToProposal env idKey ba endCmds w = Ok ((p, pErr), w'))
  (Hcmd : ProposalData.command p = Some c)
  (Hsplit : storagepb.ReplicatedEvalResult.Split
              (storagepb.RaftCommand.ReplicatedEvalResult c) = None)
  (Hmerge : storagepb.ReplicatedEvalResult.Merge
              (storagepb.RaftCommand.ReplicatedEvalResult c) = None) :
  (∀ shouldAssert w3,
     handleReplicatedEvalResult env (storagepb.RaftCommand.ReplicatedEvalResult c) i j w2
     = Ok (shouldAssert, w3) →
     VersionIsActive env VersionMVCCNetworkStats = true
     ∧ ∃ stats,
         storagepb.ReplicaState.Stats (ReplicaMu.state (mu w2)) = Some stats
         ∧ storagepb.ReplicaState.Stats (ReplicaMu.state (mu w3))
           = Some (enginepb.Add stats (ms (evaluateWriteBatch env ba))))
  ∧ (VersionIsActive env VersionMVCCNetworkStats = false →
     ∀ shouldAssert w3,
       handleReplicatedEvalResult env (storagepb.RaftCommand.ReplicatedEvalResult c) i j w2
       ≠ Ok (shouldAssert, w3)).
Proof.
  revert Hrun. unfold requestToProposal. cbv [mbind Exec_bind].
  destruct (evaluateProposal env ba w) as [[[[res nc] e] w1]| |] eqn:E; [|done..].
  pose proof (evaluateProposal_ok_inv _ _ _ _ _ E) as (_ & _ & Hout).
  cbv [makeChan]. destruct res as [r|]; [|done].
  cbv [mret Exec_ret]. intros [= <- <- <-]. cbn in Hcmd.
  destruct nc; [|done]. injection Hcmd as <-. clear Hsplit Hmerge. cbn.
  destruct e as [e|]; [by destruct Hout|].
  apply evaluateProposal_delta in E.
  destruct (VersionIsActive env VersionMVCCNetworkStats).
  - split; [|done]. intros sa w3 Happ. split; [done|].
    pose proof (wp_ok _ _ _ _ _ (handleReplicatedEvalResult_stats_wp env _ i j w2) Happ)
      as (stats & H1 & H2 & _).
    exists stats. split; [done|]. rewrite H2, E.
    by destruct (ms (evaluateWriteBatch env ba)).
  - assert (Hno : ∀ sa w3,
              handleReplicatedEvalResult env (result.Result.Replicated r) i j w2
              ≠ Ok (sa, w3)).
    { intros sa w3. apply handleReplicatedEvalResult_deprecated. by rewrite E. }
    split; [|done]. intros sa w3 Happ. by destruct (Hno sa w3).
Qed.

Lemma proposal_stats_roundtrip_witness :
  ∃ p pErr w' c shouldAssert w3,
    requestToProposal envWrite "k" baRead (Some 1) world0 = Ok ((p, pErr), w')
    ∧ ProposalData.command p = Some c
    ∧ handleReplicatedEvalResult envWrite (storagepb.RaftCommand.ReplicatedEvalResult c)
        6 6 world0 = Ok (shouldAssert, w3)
    ∧ ∃ stats,
        storagepb.ReplicaState.Stats (ReplicaMu.state (mu world0)) = Some stats
        ∧ storagepb.ReplicaState.Stats (ReplicaMu.state (mu w3))
          = Some (enginepb.Add stats (ms evalWrite)).
Proof.
  pose (out := match requestToProposal envWrite "k" baRead (Some 1) world0 with
               | Ok x => x
               | _ => ((proposal0, None), world0)
               end).
  pose (c := default (storagepb.RaftCommand.mk storagepb.ReplicatedEvalResult.zero None None)
                     (ProposalData.command (fst (fst out)))).
  pose (app := match handleReplicatedEvalResult envWrite
                       (storagepb.RaftCommand.ReplicatedEvalResult c) 6 6 world0 with
               | Ok x => x
               | _ => (false, world0)
               end).
  assert (Hrun : requestToProposal envWrite "k" baRead (Some 1) world0
                 = Ok ((fst (fst out), snd (fst out)), snd out))
    by (vm_compute; reflexivity).
  assert (Hcmd : ProposalData.command (fst (fst out)) = Some c)
    by (vm_compute; reflexivity).
  assert (Happ : handleReplicatedEvalResult envWrite
                   (storagepb.RaftCommand.ReplicatedEvalResult c) 6 6 world0
                 = Ok (fst app, snd app))
    by (vm_compute; reflexivity).
  exists (fst (fst out)), (snd (fst out)), (snd out), c, (fst app), (snd app).
  split; [exact Hrun|]. split; [exact Hcmd|]. split; [exact Happ|].
  exact (proj2 (proj1 (proposal_stats_roundtrip envWrite "k" baRead (Some 1) world0 _ _ _ c
                         6 6 world0 Hrun Hcmd eq_refl eq_refl) _ _ Happ)).
Defined.

(** ** The state a command carries *)

Lemma applyStateTrivial_state env (r : RER) w :
  wp (applyStateTrivial env r)
     (λ _ w', ReplicaMu.state (mu w')
              = truncApplied (storagepb.ReplicatedEvalResult.State r)
                  (ReplicaMu.state (mu w))) w.
Proof.
  unfold wp, applyStateTrivial, truncApplied, modifyState.
  destruct w as [[rid cs s sz chk] t n].
  destruct (storagepb.ReplicatedEvalResult.State r) as [st|]; [|done].
  destruct st as [rai lai de le [tr|] gc sts tx us], s; run_unfold; cbn.
  - destruct (TruncateTo env (succU64 (storagepb.Index tr))) as [size [err|]]; cbn;
      repeat (case_inner; cbn); done.
  - repeat (case_inner; cbn); done.
Qed.

Lemma leasePostApply_state env newLease permitJump w :
  wp (leasePostApply env newLease permitJump)
     (λ _ w', ReplicaMu.state (mu w')
              = storagepb.ReplicaState.set_Lease (Some newLease) (ReplicaMu.state (mu w))) w.
Proof.
  unfold wp.
  destruct (leasePostApply env newLease permitJump w) as [[[] w1]| |] eqn:E; [|done..].
  apply leasePostApply_ok_inv in E as (prev & t & _ & ->). done.
Qed.

Lemma applyStateRest_state env (r : RER) w :
  wp (applyStateRest env r)
     (λ _ w', ReplicaMu.state (mu w')
              = restApplied (storagepb.ReplicatedEvalResult.State r)
                  (ReplicaMu.state (mu w))) w.
Proof.
  unfold applyStateRest, restApplied.
  destruct (storagepb.ReplicatedEvalResult.State r) as [st|]; [|by apply wp_ret].
  destruct st as [rai lai de le tr gc sts tx us]. cbn.
  apply wp_bind.
  apply (wp_mono _ (λ st1 w1,
           st1 = storagepb.ReplicaState.mk rai lai None le tr gc sts tx us
           ∧ ReplicaMu.state (mu w1)
             = storagepb.ReplicaState.set_Desc
                 (carried de (storagepb.ReplicaState.Desc (ReplicaMu.state (mu w))))
                 (ReplicaMu.state (mu w)))).
  2: { destruct w as [[rid cs [] sz chk] t n].
       destruct de; unfold wp, setDesc, modifyState; run_unfold; done. }
  intros st1 w1 [-> H1]. cbn. apply wp_bind.
  apply (wp_mono _ (λ st2 w2,
           st2 = storagepb.ReplicaState.mk rai lai None None tr gc sts tx us
           ∧ ReplicaMu.state (mu w2)
             = storagepb.ReplicaState.set_Lease
                 (carried le (storagepb.ReplicaState.Lease (ReplicaMu.state (mu w1))))
                 (ReplicaMu.state (mu w1)))).
  2: { destruct le as [l|].
       - apply wp_bind. eapply wp_mono; [|apply leasePostApply_state].
         intros [] w2 H2. apply wp_ret. done.
       - apply wp_ret. split; [done|]. by destruct (ReplicaMu.state (mu w1)). }
  intros st2 w2 [-> H2]. cbn. apply wp_bind.
  apply (wp_mono _ (λ st3 w3,
           st3 = storagepb.ReplicaState.mk rai lai None None tr None sts tx us
           ∧ ReplicaMu.state (mu w3)
             = storagepb.ReplicaState.set_GCThreshold
                 (carriedThreshold gc
                    (storagepb.ReplicaState.GCThreshold (ReplicaMu.state (mu w2))))
                 (ReplicaMu.state (mu w2)))).
  2: { destruct w2 as [[rid cs [] sz chk] t n].
       destruct gc as [th|]; unfold wp, modifyState; run_unfold; cbn; [|done].
       destruct (hlc.isZero th); done. }
  intros st3 w3 [-> H3]. cbn. apply wp_bind.
  apply (wp_mono _ (λ st4 w4,
           st4 = storagepb.ReplicaState.mk rai lai None None tr None sts None us
           ∧ ReplicaMu.state (mu w4)
             = storagepb.ReplicaState.set_TxnSpanGCThreshold
                 (carriedThreshold tx
                    (storagepb.ReplicaState.TxnSpanGCThreshold (ReplicaMu.state (mu w3))))
                 (ReplicaMu.state (mu w3)))).
  2: { destruct w3 as [[rid cs [] sz chk] t n].
       destruct tx as [th|]; unfold wp, modifyState; run_unfold; cbn; [|done].
       destruct (hlc.isZero th); done. }
  intros st4 w4 [-> H4]. cbn. apply wp_bind.
  apply (wp_mono _ (λ _ w5,
           ReplicaMu.state (mu w5)
           = storagepb.ReplicaState.set_UsingAppliedStateKey
               (us || storagepb.ReplicaState.UsingAppliedStateKey (ReplicaMu.state (mu w4)))
               (ReplicaMu.state (mu w4)))).
  2: { destruct w4 as [[rid cs [] sz chk] t n].
       destruct us; unfold wp, modifyState; run_unfold; done. }
  intros st5 w5 H5.
  assert (HS : ReplicaMu.state (mu w5)
               = restApplied (Some (storagepb.ReplicaState.mk rai lai de le tr gc sts tx us))
                   (ReplicaMu.state (mu w))).
  { rewrite H5, H4, H3, H2, H1. by destruct (ReplicaMu.state (mu w)). }
  destruct (storagepb.ReplicaState.isZero st5); apply wp_ret; exact HS.
Qed.

Lemma applyTrivial_state env (r : RER) i j w :
  wp (applyTrivial env r i j)
     (λ _ w', ∃ stats,
        storagepb.ReplicaState.Stats (ReplicaMu.state (mu w)) = Some stats
        ∧ ReplicaMu.state (mu w')
          = truncApplied (storagepb.ReplicatedEvalResult.State r)
              (statsApplied (storagepb.ReplicatedEvalResult.Delta r) i j stats
                 (ReplicaMu.state (mu w)))) w.
Proof.
  unfold applyTrivial. cbv zeta. apply wp_bind.
  apply (wp_mono _ (λ r1 w1,
           mu w1 = mu w
           ∧ storagepb.ReplicatedEvalResult.Delta r1 = storagepb.ReplicatedEvalResult.Delta r
           ∧ storagepb.ReplicatedEvalResult.State r1
             = storagepb.ReplicatedEvalResult.State r)).
  2: { destruct (storagepb.ReplicatedEvalResult.BlockReads (zeroUnhandled r));
         unfold wp; run_unfold; cbn; by destruct r. }
  intros r1 w1 (Hmu & HD & HS). apply wp_bind.
  eapply wp_mono; [|apply wp_conj; [apply applyStats_state|apply applyStats_wp]].
  intros r2 w2 [(stats & Hstats & Hst) [-> _]]. cbn beta.
  rewrite Hmu in Hstats, Hst. rewrite HD in Hst.
  apply wp_bind. eapply wp_mono; [|apply applyStateTrivial_state].
  intros r3 w3 H3. cbn beta.
  replace (storagepb.ReplicatedEvalResult.State
             (storagepb.ReplicatedEvalResult.set_Delta enginepb.zeroDelta r1))
    with (storagepb.ReplicatedEvalResult.State r) in H3 by (by rewrite <- HS).
  rewrite Hst in H3.
  set (S := truncApplied _ _) in *.
  assert (HP : muInv (λ m, ReplicaMu.state m = S) w3) by exact H3.
  clear H3 Hst.
  keep_wp ltac:(unfold_appliers; repeat mu_step side_frame).
  exists stats. split; [done|]. exact HP.
Qed.

Lemma applyNontrivial_state env (r : RER) w :
  storagepb.ReplicatedEvalResult.Split r = None →
  storagepb.ReplicatedEvalResult.Merge r = None →
  wp (applyNontrivial env r)
     (λ _ w', ReplicaMu.state (mu w')
              = restApplied (storagepb.ReplicatedEvalResult.State r)
                  (ReplicaMu.state (mu w))) w.
Proof.
  intros Hsp Hmg. unfold applyNontrivial. rewrite Hsp. apply wp_bind, wp_ret.
  rewrite Hmg. apply wp_bind, wp_ret.
  apply wp_bind. eapply wp_mono; [|apply applyStateRest_state].
  intros r3 w3 H3. cbn beta.
  set (S := restApplied _ _) in *.
  assert (HP : muInv (λ m, ReplicaMu.state m = S) w3) by exact H3.
  clear H3.
  keep_wp ltac:(unfold_appliers; repeat mu_step side_frame).
  exact HP.
Qed.

(** The state of the replica after a returning run of
    [handleReplicatedEvalResult] on a command without split and merge
    triggers. *)
Lemma handleReplicatedEvalResult_state env (r : RER) i j w :
  storagepb.ReplicatedEvalResult.Split r = None →
  storagepb.ReplicatedEvalResult.Merge r = None →
  wp (handleReplicatedEvalResult env r i j)
     (λ _ w', ∃ stats,
        storagepb.ReplicaState.Stats (ReplicaMu.state (mu w)) = Some stats
        ∧ ReplicaMu.state (mu w')
          = restApplied
              (storagepb.ReplicatedEvalResult.State (afterTrivial (usingKey w) r))
              (truncApplied (storagepb.ReplicatedEvalResult.State r)
                 (statsApplied (storagepb.ReplicatedEvalResult.Delta r) i j stats
                    (ReplicaMu.state (mu w))))) w.
Proof.
  intros Hsp Hmg. unfold handleReplicatedEvalResult. apply wp_bind.
  unfold handleReplicatedEvalResult_apply. apply wp_bind.
  eapply wp_mono; [|apply wp_conj; [apply applyTrivial_state|apply applyTrivial_wp]].
  intros r1 w1 [(stats & Hstats & Hst) ->]. cbn beta.
  apply wp_bind. eapply wp_mono; [|apply applyNontrivial_state; by destruct r].
  intros r2 w2 H2. apply wp_ret. rewrite Hst in H2.
  set (S := restApplied _ _) in *.
  assert (HP : muInv (λ m, ReplicaMu.state m = S) w2) by exact H2.
  clear H2 Hst.
  destruct (negb (storagepb.ReplicatedEvalResult.EqualZero r2)); [apply wp_fatalf|].
  keep_wp ltac:(repeat mu_step side_frame).
  exists stats. split; [done|]. exact HP.
Qed.

Lemma trivialState_fields u st :
  storagepb.ReplicaState.Desc (trivialState u st) = storagepb.ReplicaState.Desc st
  ∧ storagepb.ReplicaState.Lease (trivialState u st) = storagepb.ReplicaState.Lease st
  ∧ storagepb.ReplicaState.GCThreshold (trivialState u st)
    = storagepb.ReplicaState.GCThreshold st
  ∧ storagepb.ReplicaState.TxnSpanGCThreshold (trivialState u st)
    = storagepb.ReplicaState.TxnSpanGCThreshold st
  ∧ storagepb.ReplicaState.UsingAppliedStateKey (trivialState u st)
    = storagepb.ReplicaState.UsingAppliedStateKey st && negb u.
Proof.
  destruct st as [rai lai de le tr gc [sts|] tx us]; unfold trivialState; cbn;
    try destruct (enginepb.isZeroStats sts); by destruct us, u.
Qed.

(** X19: what a command does to the state of the replica.  For a command
    without split and merge triggers on which [handleReplicatedEvalResult]
    returns, each of the descriptor, the lease and the truncated state that
    the command carries has replaced the one of the replica, and the others
    are as they were; a garbage-collection threshold is taken over unless it
    is the zero timestamp; the replica uses the applied-state key afterwards
    if it did before or the command says so, and never stops using it. *)
Theorem handleReplicatedEvalResult_installs_state (env : Env) (rResult : RER) (i j : Z)
  (w w' : World) (shouldAssert : bool)
  (Hsplit : storagepb.ReplicatedEvalResult.Split rResult = None)
  (Hmerge : storagepb.ReplicatedEvalResult.Merge rResult = None)
  (Hrun : handleReplicatedEvalResult env rResult i j w = Ok (shouldAssert, w')) :
  let s := ReplicaMu.state (mu w) in
  let s' := ReplicaMu.state (mu w') in
  let st := default storagepb.ReplicaState.zero (storagepb.ReplicatedEvalResult.State rResult) in
  storagepb.ReplicaState.Desc s'
  = carried (storagepb.ReplicaState.Desc st) (storagepb.ReplicaState.Desc s)
  ∧ storagepb.ReplicaState.Lease s'
    = carried (storagepb.ReplicaState.Lease st) (storagepb.ReplicaState.Lease s)
  ∧ storagepb.ReplicaState.TruncatedState s'
    = carried (storagepb.ReplicaState.TruncatedState st)
              (storagepb.ReplicaState.TruncatedState s)
  ∧ storagepb.ReplicaState.GCThreshold s'
    = carriedThreshold (storagepb.ReplicaState.GCThreshold st)
                       (storagepb.ReplicaState.GCThreshold s)
  ∧ storagepb.ReplicaState.TxnSpanGCThreshold s'
    = carriedThreshold (storagepb.ReplicaState.TxnSpanGCThreshold st)
                       (storagepb.ReplicaState.TxnSpanGCThreshold s)
  ∧ storagepb.ReplicaState.UsingAppliedStateKey s'
    = storagepb.ReplicaState.UsingAppliedStateKey st
      || storagepb.ReplicaState.UsingAppliedStateKey s.
Proof.
  pose proof (wp_ok _ _ _ _ _
                (handleReplicatedEvalResult_state env rResult i j w Hsplit Hmerge) Hrun)
    as (stats & _ & Hst).
  cbv zeta. rewrite Hst. clear Hst Hrun.
  unfold afterTrivial. cbn [storagepb.ReplicatedEvalResult.State].
  destruct (storagepb.ReplicatedEvalResult.State rResult) as [st|]; cbn [default].
  2: { unfold restApplied, truncApplied, statsApplied.
       destruct (ReplicaMu.state (mu w)), (i =? 0), (j =? 0); cbn; done. }
  pose proof (trivialState_fields (usingKey w) st) as (F1 & F2 & F3 & F4 & F5).
  unfold packState, usingKey in *.
  destruct (storagepb.ReplicaState.isZero (trivialState _ st)) eqn:E.
  - apply ReplicaState_isZero_true in E. rewrite E in F1, F2, F3, F4, F5. cbn in *.
    rewrite <- F1, <- F2, <- F3, <- F4.
    unfold restApplied, truncApplied, statsApplied.
    destruct (ReplicaMu.state (mu w)) as [rai lai de le tr gc sts tx us].
    destruct (i =? 0), (j =? 0); cbn in *;
      (repeat split; try done);
      by destruct (storagepb.ReplicaState.UsingAppliedStateKey st), us.
  - unfold restApplied, truncApplied, statsApplied. rewrite F1, F2, F3, F4, F5.
    destruct (ReplicaMu.state (mu w)) as [rai lai de le tr gc sts tx us].
    destruct (i =? 0), (j =? 0); cbn;
      (repeat split; try done);
      by destruct (storagepb.ReplicaState.UsingAppliedStateKey st), us.
Qed.

Lemma handleReplicatedEvalResult_installs_state_witness :
  ∃ shouldAssert w',
    handleReplicatedEvalResult env0 rState 6 6 world0 = Ok (shouldAssert, w')
    ∧ storagepb.ReplicaState.Lease (ReplicaMu.state (mu w')) = Some lease1
    ∧ storagepb.ReplicaState.GCThreshold (ReplicaMu.state (mu w'))
      = Some (hlc.mkTimestamp 15 0)
    ∧ storagepb.ReplicaState.TxnSpanGCThreshold (ReplicaMu.state (mu w')) = None
    ∧ storagepb.ReplicaState.UsingAppliedStateKey (ReplicaMu.state (mu w')) = true.
Proof.
  pose (app := match handleReplicatedEvalResult env0 rState 6 6 world0 with
               | Ok x => x
               | _ => (false, world0)
               end).
  assert (Happ : handleReplicatedEvalResult env0 rState 6 6 world0 = Ok (fst app, snd app))
    by (vm_compute; reflexivity).
  destruct (handleReplicatedEvalResult_installs_state env0 rState 6 6 world0 (snd app)
              (fst app) eq_refl eq_refl Happ) as (_ & HL & _ & HG & HT & HU).
  exists (fst app), (snd app).
  split; [exact Happ|]. split; [exact HL|]. split; [exact HG|]. split; [exact HT|exact HU].
Defined.
